(** * Sylvanas API type generator: a shallow embedding of
      [scripts/generate-api-types.js]

    The script reads LuaCATS annotations, builds classes and aliases, and
    prints TypeScript declarations.  JavaScript strings are modelled as
    [string]: a sequence of code units, here the code units below 256.
    [String.prototype.indexOf] returns [-1] for "not found"; the model
    returns [None].  A [Map] is an association list in insertion order,
    which is the order JavaScript iterates it in. *)

From Stdlib Require Import String Ascii List Bool Arith ZArith Lia.
Import ListNotations.
Open Scope list_scope.
Open Scope string_scope.
Open Scope nat_scope.

(** ** JavaScript string primitives *)

Module Js.

Definition code (c : ascii) : nat := nat_of_ascii c.

Definition between (lo hi : nat) (c : ascii) : bool :=
  (lo <=? code c) && (code c <=? hi).

(** White space and line terminators below 256: TAB, LF, VT, FF, CR,
    SPACE and NBSP.  This is what [trim] removes and what [\s] matches. *)
Definition isSpace (c : ascii) : bool :=
  between 9 13 c || (code c =? 32) || (code c =? 160).

Definition isUpper (c : ascii) : bool := between 65 90 c.
Definition isLower (c : ascii) : bool := between 97 122 c.
Definition isDigit (c : ascii) : bool := between 48 57 c.

(** [\w] *)
Definition isWord (c : ascii) : bool :=
  isUpper c || isLower c || isDigit c || (code c =? 95).

(** [.] without the [s] flag: anything but LF and CR. *)
Definition isDot (c : ascii) : bool :=
  negb ((code c =? 10) || (code c =? 13)).

Definition isEmpty (s : string) : bool :=
  match s with "" => true | _ => false end.

(** [!s] for a string is [s === ''], so a string is truthy when it is
    not empty. *)
Definition truthy (s : string) : bool := negb (isEmpty s).

Fixpoint trimStart (s : string) : string :=
  match s with
  | "" => ""
  | String c r => if isSpace c then trimStart r else s
  end.

Fixpoint trimEnd (s : string) : string :=
  match s with
  | "" => ""
  | String c r =>
      let r' := trimEnd r in
      if isSpace c && isEmpty r' then "" else String c r'
  end.

Definition trim (s : string) : string := trimEnd (trimStart s).

Definition startsWith (p s : string) : bool := prefix p s.

Fixpoint drop (n : nat) (s : string) : string :=
  match n, s with
  | 0, _ => s
  | S n', String _ r => drop n' r
  | S _, "" => ""
  end.

Fixpoint take (n : nat) (s : string) : string :=
  match n, s with
  | 0, _ => ""
  | S n', String c r => String c (take n' r)
  | S _, "" => ""
  end.

(** [s.slice(i, j)] for [0 <= i], [0 <= j]. *)
Definition slice (i j : nat) (s : string) : string := take (j - i) (drop i s).

(** [s.slice(0, -1)] *)
Definition dropLast (s : string) : string := take (String.length s - 1) s.

(** [s.slice(1, -1)] and [s.slice(6, -1)] *)
Definition sliceInner (i : nat) (s : string) : string :=
  slice i (String.length s - 1) s.

Definition endsWith (p s : string) : bool :=
  (String.length p <=? String.length s) &&
  String.eqb (drop (String.length s - String.length p) s) p.

Fixpoint indexOf (needle s : string) : option nat :=
  if prefix needle s then Some 0
  else match s with
       | "" => None
       | String _ r => option_map S (indexOf needle r)
       end.

Definition includes (needle s : string) : bool :=
  match indexOf needle s with Some _ => true | None => false end.

(** [chars.includes(c)] for a one-character [c]. *)
Fixpoint hasChar (c : ascii) (chars : string) : bool :=
  match chars with
  | "" => false
  | String d r => Ascii.eqb c d || hasChar c r
  end.

Fixpoint lastIndexOf (needle s : string) : option nat :=
  match s with
  | "" => if prefix needle "" then Some 0 else None
  | String _ r =>
      match lastIndexOf needle r with
      | Some i => Some (S i)
      | None => if prefix needle s then Some 0 else None
      end
  end.

Fixpoint join (sep : string) (l : list string) : string :=
  match l with
  | [] => ""
  | [x] => x
  | x :: r => x ++ sep ++ join sep r
  end.

(** [s.split(c)] for a one-character separator: never the empty list. *)
Fixpoint split (sep : ascii) (s : string) : list string :=
  match s with
  | "" => [""]
  | String c r =>
      if Ascii.eqb c sep then "" :: split sep r
      else match split sep r with
           | x :: xs => String c x :: xs
           | [] => [String c ""]
           end
  end.

Definition lowerChar (c : ascii) : ascii :=
  if isUpper c || (between 192 222 c && negb (code c =? 215))
  then ascii_of_nat (code c + 32) else c.

Fixpoint toLowerCase (s : string) : string :=
  match s with
  | "" => ""
  | String c r => String (lowerChar c) (toLowerCase r)
  end.

Definition inList (x : string) (l : list string) : bool :=
  existsb (String.eqb x) l.

(** [[...new Set(l)]]: first occurrences, in order. *)
Fixpoint dedupeAcc (seen l : list string) : list string :=
  match l with
  | [] => []
  | x :: r =>
      if inList x seen then dedupeAcc seen r
      else x :: dedupeAcc (x :: seen) r
  end.

Definition dedupe (l : list string) : list string := dedupeAcc [] l.

Fixpoint mapM {A B : Type} (f : A -> option B) (l : list A) : option (list B) :=
  match l with
  | [] => Some []
  | x :: r =>
      match f x with
      | None => None
      | Some y =>
          match mapM f r with
          | None => None
          | Some ys => Some (y :: ys)
          end
      end
  end.

End Js.

Import Js.

(** ** Type conversion *)

Definition openers : string := "([{<".
Definition closers : string := ")]}>".

(** The loop shared by [splitUnion] and [splitByComma]: the two functions
    of the script differ in the separator only. *)
Fixpoint splitLoop (sep : ascii) (s : string) (parts : list string)
    (current : string) (depth : Z) : list string * string :=
  match s with
  | "" => (parts, current)
  | String char r =>
      if hasChar char openers
      then splitLoop sep r parts (current ++ String char "") (depth + 1)%Z
      else if hasChar char closers
      then splitLoop sep r parts (current ++ String char "") (depth - 1)%Z
      else if Ascii.eqb char sep && (depth =? 0)%Z
      then splitLoop sep r (parts ++ [trim current])%list "" depth
      else splitLoop sep r parts (current ++ String char "") depth
  end.

Definition splitTop (sep : ascii) (s : string) : list string :=
  let '(parts, current) := splitLoop sep s [] "" 0%Z in
  if truthy (trim current) then (parts ++ [trim current])%list else parts.

Definition splitUnion (type : string) : list string := splitTop "|"%char type.
Definition splitByComma (str : string) : list string := splitTop ","%char str.

(** The nesting depth gained over a text: what the loop adds to [depth]
    while it reads the text. *)
Definition depthChange (c : ascii) : Z :=
  if hasChar c openers then 1%Z else if hasChar c closers then (-1)%Z else 0%Z.

Fixpoint netDepth (s : string) : Z :=
  match s with
  | "" => 0%Z
  | String c r => (depthChange c + netDepth r)%Z
  end.

(** [findMatchingParen(str, start)]: [s] is [str] from index [i] on. *)
Fixpoint findParenLoop (s : string) (i : nat) (depth : Z) : option nat :=
  match s with
  | "" => None
  | String c r =>
      let depth := if Ascii.eqb c "("%char then (depth + 1)%Z else depth in
      let depth := if Ascii.eqb c ")"%char then (depth - 1)%Z else depth in
      if (depth =? 0)%Z then Some i else findParenLoop r (S i) depth
  end.

Definition findMatchingParen (str : string) (start : nat) : option nat :=
  findParenLoop (drop start str) start 0%Z.

Record Param := mkParam {
  p_name : string;
  p_type : string;
  p_optional : bool;
  p_isVararg : bool
}.

Definition parseParam (trimmed : string) : Param :=
  if startsWith "..." trimmed then
    match indexOf ":" trimmed with
    | Some colonIdx =>
        mkParam "...args" (trim (drop (colonIdx + 1) trimmed) ++ "[]") false true
    | None => mkParam "...args" "any[]" false true
    end
  else
    match indexOf ":" trimmed with
    | Some colonIdx =>
        let name := trim (take colonIdx trimmed) in
        let type := trim (drop (colonIdx + 1) trimmed) in
        let optional := endsWith "?" name || endsWith "?" type in
        let name := if endsWith "?" name then dropLast name else name in
        let type := if endsWith "?" type then dropLast type else type in
        mkParam name type optional false
    | None => mkParam trimmed "any" false false
    end.

Definition parseParams (paramsStr : string) : list Param :=
  if negb (truthy (trim paramsStr)) then []
  else
    map parseParam
      (filter truthy (map trim (splitByComma paramsStr))).

Definition reservedParamNames : list string :=
  ["break"; "case"; "catch"; "class"; "const"; "continue"; "debugger";
   "default"; "delete"; "do"; "else"; "enum"; "export"; "extends"; "false";
   "finally"; "for"; "function"; "if"; "import"; "in"; "instanceof"; "new";
   "null"; "return"; "super"; "switch"; "this"; "throw"; "true"; "try";
   "typeof"; "var"; "void"; "while"; "with"; "yield"].

Definition sanitizeParamName (name : string) : string :=
  if inList name reservedParamNames then "_" ++ name else name.

(** ** Regular expressions

    A backtracking matcher for the fragment of JavaScript regular
    expressions the script uses: literals, character classes, sequence,
    alternation, greedy and lazy repetition, capturing groups, [^] and [$]
    (without the [m] flag).  A position is an index [i] together with the
    text [rest] from [i] on.  Captures are kept as [(start, end)] index
    pairs, most recent first.  Where a comment quotes a regular expression
    of the script, a star in front of a closing parenthesis is written
    [{0,}]. *)

Module Regex.

Inductive re : Type :=
| Eps
| Chr (p : ascii -> bool)
| Lit (s : string)
| Seq (a b : re)
| Alt (a b : re)
| Star (greedy : bool) (a : re)
| Group (n : nat) (a : re)
| Bol
| Eol.

Definition caps : Type := list (nat * (nat * nat)).
Definition outcome : Type := option (nat * caps).
Definition cont : Type := nat -> string -> caps -> outcome.

Fixpoint stripPrefix (p s : string) : option string :=
  match p, s with
  | "", _ => Some s
  | String a p', String b s' =>
      if Ascii.eqb a b then stripPrefix p' s' else None
  | String _ _, "" => None
  end.

(** The loop of a repetition: [body] matches one iteration.  An
    iteration that consumes nothing (it leaves all of [rest]) is
    rejected, as in ECMAScript, so there are at most [length rest]
    iterations and the loop is entered with that much [fuel]. *)
Fixpoint starLoop (body : nat -> string -> caps -> cont -> outcome)
    (greedy : bool) (k : cont) (fuel i : nat) (rest : string) (cs : caps)
    {struct fuel} : outcome :=
  match fuel with
  | 0 => k i rest cs
  | S fuel' =>
      let more (_ : unit) :=
        body i rest cs
          (fun i' rest' cs' =>
             if String.length rest <=? String.length rest' then None
             else starLoop body greedy k fuel' i' rest' cs') in
      if greedy then
        match more tt with
        | Some x => Some x
        | None => k i rest cs
        end
      else
        match k i rest cs with
        | Some x => Some x
        | None => more tt
        end
  end.

(** [run r i rest cs k]: match [r] at position [i], then continue with
    [k]; [None] makes the matcher backtrack. *)
Fixpoint run (r : re) (i : nat) (rest : string) (cs : caps) (k : cont)
    {struct r} : outcome :=
  match r with
  | Eps => k i rest cs
  | Chr p =>
      match rest with
      | String c rest' => if p c then k (S i) rest' cs else None
      | "" => None
      end
  | Lit s =>
      match stripPrefix s rest with
      | Some rest' => k (i + String.length s) rest' cs
      | None => None
      end
  | Seq a b => run a i rest cs (fun i' rest' cs' => run b i' rest' cs' k)
  | Alt a b =>
      match run a i rest cs k with
      | Some x => Some x
      | None => run b i rest cs k
      end
  | Star greedy a => starLoop (run a) greedy k (String.length rest) i rest cs
  | Group n a =>
      run a i rest cs (fun i' rest' cs' => k i' rest' ((n, (i, i')) :: cs'))
  | Bol => if i =? 0 then k i rest cs else None
  | Eol => if isEmpty rest then k i rest cs else None
  end.

Definition plus (a : re) : re := Seq a (Star true a).
Definition star (a : re) : re := Star true a.
Definition lazyStar (a : re) : re := Star false a.
Definition opt (a : re) : re := Alt a Eps.

Fixpoint seq (l : list re) : re :=
  match l with
  | [] => Eps
  | [a] => a
  | a :: r => Seq a (seq r)
  end.

Definition ws : re := Chr isSpace.
Definition nonWs : re := Chr (fun c => negb (isSpace c)).
Definition word : re := Chr isWord.
Definition dot : re := Chr isDot.
Definition noneOf (chars : string) : re := Chr (fun c => negb (hasChar c chars)).

Record found := mkFound { f_index : nat; f_end : nat; f_caps : caps }.

(** The leftmost match at or after position [i]. *)
Fixpoint searchFrom (r : re) (i : nat) (rest : string) : option found :=
  match run r i rest [] (fun e _ cs => Some (e, cs)) with
  | Some (e, cs) => Some (mkFound i e cs)
  | None =>
      match rest with
      | "" => None
      | String _ rest' => searchFrom r (S i) rest'
      end
  end.

(** [s.match(r)] for a regular expression without the [g] flag. *)
Definition exec (r : re) (s : string) : option found := searchFrom r 0 s.

Fixpoint lookup (n : nat) (cs : caps) : option (nat * nat) :=
  match cs with
  | [] => None
  | (m, span) :: cs' => if m =? n then Some span else lookup n cs'
  end.

(** [m[n]]; an unmatched group reads as the empty string here, which
    is all the script needs, since it only reads groups that took part
    in the match. *)
Definition group (n : nat) (s : string) (m : found) : string :=
  match lookup n (f_caps m) with
  | Some (a, b) => slice a b s
  | None => ""
  end.

Inductive piece : Type :=
| TLit (s : string)
| TGroup (n : nat).

Fixpoint expand (tmpl : list piece) (s : string) (m : found) : string :=
  match tmpl with
  | [] => ""
  | TLit t :: r => t ++ expand r s m
  | TGroup n :: r => group n s m ++ expand r s m
  end.

(** [s.replace(r, tmpl)] without the [g] flag: the first match only. *)
Definition replaceFirst (r : re) (tmpl : list piece) (s : string) : string :=
  match exec r s with
  | None => s
  | Some m => take (f_index m) s ++ expand tmpl s m ++ drop (f_end m) s
  end.

(** [s.replace(r, tmpl)] with the [g] flag: [rest] is [s] from [i] on.
    After an empty match the scan moves one character on. *)
Fixpoint replaceLoop (fuel : nat) (r : re) (tmpl : list piece) (s : string)
    (i : nat) (rest : string) : string :=
  match fuel with
  | 0 => rest
  | S fuel' =>
      match searchFrom r i rest with
      | None => rest
      | Some m =>
          take (f_index m - i) rest ++ expand tmpl s m ++
          (if f_end m =? f_index m then
             match drop (f_index m - i) rest with
             | "" => ""
             | String c rest' =>
                 String c (replaceLoop fuel' r tmpl s (S (f_index m)) rest')
             end
           else replaceLoop fuel' r tmpl s (f_end m) (drop (f_end m - i) rest))
      end
  end.

Definition replaceAll (r : re) (tmpl : list piece) (s : string) : string :=
  replaceLoop (S (String.length s)) r tmpl s 0 s.

Definition test (r : re) (s : string) : bool :=
  match exec r s with Some _ => true | None => false end.

End Regex.

Import Regex.

Definition dquote : string := String "034"%char "".
Definition newline : ascii := "010"%char.

(** [/\|\s*nil$/] *)
Definition re_nilSuffix : re := seq [Lit "|"; star ws; Lit "nil"; Eol].

(** [/^(.+)\[\]$/] *)
Definition re_array : re := seq [Bol; Group 1 (plus dot); Lit "[]"; Eol].

(** [/ [A-Z][a-z]/] *)
Definition re_inlineDesc : re := seq [Lit " "; Chr isUpper; Chr isLower].

Definition genericCallable : string := "(...args: any[]) => any".

(** [idx = s.indexOf(needle); if (idx !== -1) s = s.slice(0, idx).trim()] *)
Definition cutAtText (needle s : string) : string :=
  match indexOf needle s with
  | Some idx => trim (take idx s)
  | None => s
  end.

(** [m = s.match(r); if (m) s = s.slice(0, m.index).trim()] *)
Definition cutAtMatch (r : re) (s : string) : string :=
  match exec r s with
  | Some m => trim (take (f_index m) s)
  | None => s
  end.

(** The first lines of [convertLuaTypeToTS]: trim, then cut an inline Lua
    comment that starts with [" --"] or ["  #"]. *)
Definition stripInlineComments (luaType : string) : string :=
  cutAtText "  #" (cutAtText " --" (trim luaType)).

Definition multiReturn (innerTypes : list string) : string :=
  "LuaMultiReturn<[" ++ join ", " innerTypes ++ "]>".

(** The return clause of [parseFunType]: [rest] is the text after the
    closing parenthesis, trimmed, and begins with the colon.  The text
    after the colon is cut at a Lua comment, then at an inline
    description. *)
Definition returnClause (rest : string) : string :=
  cutAtMatch re_inlineDesc (cutAtText " --" (trim (drop 1 rest))).

Definition renderParam (rec : string -> option string) (p : Param)
    : option string :=
  if String.eqb (p_name p) "self" then Some ("this: " ++ p_type p)
  else
    match rec (p_type p) with
    | None => None
    | Some tsType =>
        let opt := if p_optional p then "?" else "" in
        Some (sanitizeParamName (p_name p) ++ opt ++ ": " ++ tsType)
    end.

Definition firstIsSelf (params : list Param) : bool :=
  match params with
  | [] => false
  | p :: _ => String.eqb (p_name p) "self"
  end.

(** [tsParams] after the [unshift]. *)
Definition renderParams (rec : string -> option string) (params : list Param)
    : option (list string) :=
  match mapM (renderParam rec) params with
  | None => None
  | Some tsParams =>
      Some (if firstIsSelf params then tsParams else "this: void" :: tsParams)
  end.

Definition convertReturn (rec : string -> option string) (rest : string)
    : option string :=
  if startsWith ":" rest then
    let returnStr := returnClause rest in
    let returnParts := splitByComma returnStr in
    if 1 <? List.length returnParts then
      option_map multiReturn (mapM (fun t => rec (trim t)) returnParts)
    else rec returnStr
  else Some "void".

(** [parseFunType], with the calls to [convertLuaTypeToTS] abstracted as
    [rec]. *)
Definition parseFunTypeWith (rec : string -> option string) (luaType : string)
    : option string :=
  match indexOf "(" luaType with
  | None => Some genericCallable
  | Some startParen =>
      match findMatchingParen luaType startParen with
      | None => Some genericCallable
      | Some endParen =>
          let paramsStr := slice (startParen + 1) endParen luaType in
          let rest := trim (drop (endParen + 1) luaType) in
          match convertReturn rec rest with
          | None => None
          | Some returnType =>
              match renderParams rec (parseParams paramsStr) with
              | None => None
              | Some tsParams =>
                  Some ("(" ++ join ", " tsParams ++ ") => " ++ returnType)
              end
          end
      end
  end.

Definition isFunType (luaType : string) : bool :=
  startsWith "fun(" luaType || startsWith "fun " luaType.

(** One unfolding of [convertLuaTypeToTS]; [rec] stands for the recursive
    calls. *)
Definition convertStep (rec : string -> option string) (luaType : string)
    : option string :=
  let luaType := stripInlineComments luaType in
  if negb (truthy luaType) then Some "void"
  else if String.eqb luaType "nil" then Some "void"
  else if endsWith "| nil" luaType || endsWith "|nil" luaType then
    let base := trim (replaceFirst re_nilSuffix [] luaType) in
    option_map (fun t => t ++ " | null") (rec base)
  else if String.eqb luaType "number" || String.eqb luaType "integer"
  then Some "number"
  else if String.eqb luaType "string" then Some "string"
  else if String.eqb luaType "boolean" then Some "boolean"
  else if String.eqb luaType "any" then Some "any"
  else if String.eqb luaType "userdata" then Some "unknown"
  else if String.eqb luaType "table" then Some "object"
  else if String.eqb luaType "function" then Some genericCallable
  else if endsWith "?" luaType && negb (includes "|" luaType) then
    option_map (fun t => t ++ " | undefined") (rec (dropLast luaType))
  else if includes "|" luaType && (1 <? List.length (splitUnion luaType)) then
    option_map (fun converted => join " | " (dedupe converted))
      (mapM (fun p => rec (trim p)) (splitUnion luaType))
  else if startsWith "(" luaType && endsWith ")" luaType then
    let inner := sliceInner 1 luaType in
    let parts := splitByComma inner in
    if 1 <? List.length parts then
      option_map multiReturn (mapM (fun t => rec (trim t)) parts)
    else rec inner
  else
    match exec re_array luaType with
    | Some arrayMatch =>
        option_map (fun t => t ++ "[]") (rec (group 1 luaType arrayMatch))
    | None =>
        let tableParts :=
          if startsWith "table<" luaType && endsWith ">" luaType
          then splitByComma (sliceInner 6 luaType) else [] in
        match tableParts with
        | [k; v] =>
            match rec (trim k), rec (trim v) with
            | Some tk, Some tv => Some ("Record<" ++ tk ++ ", " ++ tv ++ ">")
            | _, _ => None
            end
        | _ =>
            if isFunType luaType then parseFunTypeWith rec luaType
            else Some luaType
        end
    end.

(** The recursion of [convertLuaTypeToTS] is not structural, so the
    embedding counts the nested calls: [None] means that [fuel] calls were
    not enough, and only that. *)
Fixpoint convertFuel (fuel : nat) (luaType : string) : option string :=
  match fuel with
  | 0 => None
  | S fuel' => convertStep (convertFuel fuel') luaType
  end.

Definition unwrap (o : option string) : string :=
  match o with Some s => s | None => "" end.

(** [String.length luaType + 1] calls are always enough
    ([convertFuel_enough] below). *)
Definition convertLuaTypeToTS (luaType : string) : string :=
  unwrap (convertFuel (S (String.length luaType)) luaType).

Definition parseFunType (luaType : string) : string :=
  unwrap (parseFunTypeWith (fun t => Some (convertLuaTypeToTS t)) luaType).

Definition aliasField (part : string) : list string :=
  match indexOf ":" part with
  | Some colonIdx =>
      let fieldName := trim (take colonIdx part) in
      let fieldType := trim (drop (colonIdx + 1) part) in
      [fieldName ++ ": " ++ convertLuaTypeToTS fieldType]
  | None => []
  end.

Definition convertLuaAliasToTS (luaType : string) : string :=
  let luaType := trim luaType in
  if startsWith "{" luaType && endsWith "}" luaType then
    let inner := trim (sliceInner 1 luaType) in
    if negb (truthy inner) then "{}"
    else "{ " ++ join "; " (flat_map aliasField (splitByComma inner)) ++ " }"
  else if includes "|" luaType && includes "fun(" luaType then
    let converted :=
      map (fun p =>
             let trimmed := trim p in
             if isFunType trimmed then "(" ++ parseFunType trimmed ++ ")"
             else convertLuaTypeToTS trimmed)
          (splitUnion luaType) in
    join " | " (dedupe converted)
  else convertLuaTypeToTS luaType.

(** ** Parsing API files *)

Record ParsedField := mkField {
  pf_name : string;
  pf_type : string;
  pf_description : option string;
  pf_isMethod : bool
}.

Record ParsedDataField := mkDataField {
  df_name : string;
  df_type : string;
  df_description : option string;
  df_optional : bool
}.

Record IndexSignature := mkIndexSig {
  keyType : string;
  valueType : string
}.

Record ParsedClass := mkClass {
  c_name : string;
  fields : list ParsedField;
  dataFields : list ParsedDataField;
  indexSignatures : list IndexSignature
}.

Record Alias := mkAlias {
  a_name : string;
  a_type : string
}.

(** A JavaScript [Map] with string keys, in insertion order.  [mapSet] on
    a present key keeps its place. *)
Definition Map (V : Type) : Type := list (string * V).

Fixpoint mapGet {V : Type} (k : string) (m : Map V) : option V :=
  match m with
  | [] => None
  | (k', v) :: r => if String.eqb k' k then Some v else mapGet k r
  end.

Definition mapHas {V : Type} (k : string) (m : Map V) : bool :=
  match mapGet k m with Some _ => true | None => false end.

Fixpoint mapSet {V : Type} (k : string) (v : V) (m : Map V) : Map V :=
  match m with
  | [] => [(k, v)]
  | (k', v') :: r =>
      if String.eqb k' k then (k, v) :: r else (k', v') :: mapSet k v r
  end.

Record ParseResult := mkResult {
  pr_classes : Map ParsedClass;
  pr_aliases : Map Alias;
  pr_detectedMainExport : option string
}.

Record PendingParam := mkPending {
  pp_name : string;
  pp_type : string;
  pp_optional : bool
}.

(** The local variables of [parseApiFile]. *)
Record ParserState := mkState {
  classes : Map ParsedClass;
  aliases : Map Alias;
  currentClass : option string;
  currentDescription : list string;
  detectedMainExport : option string;
  pendingParams : list PendingParam;
  pendingReturn : option string
}.

Definition initialState : ParserState :=
  mkState [] [] None [] None [] None.

(** Truthiness of a value that is a string or [null]. *)
Definition truthyOpt (o : option string) : bool :=
  match o with Some s => truthy s | None => false end.

Definition emptyClass (name : string) : ParsedClass := mkClass name [] [] [].

(** [if (!classes.has(name)) classes.set(name, {...})] *)
Definition ensureClass (name : string) (cs : Map ParsedClass) : Map ParsedClass :=
  if mapHas name cs then cs else mapSet name (emptyClass name) cs.

(** [const cls = classes.get(name)] followed by a mutation of [cls]: the
    class object is shared with the map, so the map entry changes.  Where
    the script uses [classes.get(currentClass)] the class is present
    ([currentClass_present] below); an absent key leaves the map as it is. *)
Fixpoint updateClass (name : string) (f : ParsedClass -> ParsedClass)
    (cs : Map ParsedClass) : Map ParsedClass :=
  match cs with
  | [] => []
  | (k, c) :: r =>
      if String.eqb k name then (k, f c) :: r
      else (k, c) :: updateClass name f r
  end.

Definition pushField (x : ParsedField) (c : ParsedClass) : ParsedClass :=
  mkClass (c_name c) (fields c ++ [x]) (dataFields c) (indexSignatures c).

Definition pushDataField (x : ParsedDataField) (c : ParsedClass) : ParsedClass :=
  mkClass (c_name c) (fields c) (dataFields c ++ [x]) (indexSignatures c).

Definition pushIndexSignature (x : IndexSignature) (c : ParsedClass) : ParsedClass :=
  mkClass (c_name c) (fields c) (dataFields c) (indexSignatures c ++ [x]).

(** [currentDescription.join(' ') || undefined] *)
Definition descriptionOf (currentDescription : list string) : option string :=
  let d := join " " currentDescription in
  if truthy d then Some d else None.

Definition isWordOrDot (c : ascii) : bool := isWord c || Ascii.eqb c "."%char.

(** [/^function\s+([\w.]+)\.(\w+)\s*\(([^)]{0,})\)/] *)
Definition re_funcDecl : re :=
  seq [Bol; Lit "function"; plus ws; Group 1 (plus (Chr isWordOrDot)); Lit ".";
       Group 2 (plus word); star ws; Lit "("; Group 3 (star (noneOf ")"));
       Lit ")"].

(** [/^function\s+(\w+):(\w+)\s*\(([^)]{0,})\)/] *)
Definition re_funcColon : re :=
  seq [Bol; Lit "function"; plus ws; Group 1 (plus word); Lit ":";
       Group 2 (plus word); star ws; Lit "("; Group 3 (star (noneOf ")"));
       Lit ")"].

(** [/^(\w+)\.(\w+)\s*=\s*\{\s*\}$/] *)
Definition re_subclassAssign : re :=
  seq [Bol; Group 1 (plus word); Lit "."; Group 2 (plus word); star ws;
       Lit "="; star ws; Lit "{"; star ws; Lit "}"; Eol].

(** [/^---\s*/] *)
Definition re_docMarker : re := seq [Bol; Lit "---"; star ws].

(** [/^@type\s+(\w+)/] *)
Definition re_type : re := seq [Bol; Lit "@type"; plus ws; Group 1 (plus word)].

(** [/^@alias\s+(\w+)\s+(.+)$/] *)
Definition re_alias : re :=
  seq [Bol; Lit "@alias"; plus ws; Group 1 (plus word); plus ws;
       Group 2 (plus dot); Eol].

(** [/^@class\s+(\w+)/] *)
Definition re_class : re := seq [Bol; Lit "@class"; plus ws; Group 1 (plus word)].

(** [/^@param\s+(\w+\??)\s+(\S+)(?:\s+(.{0,}))?$/] *)
Definition re_param : re :=
  seq [Bol; Lit "@param"; plus ws; Group 1 (Seq (plus word) (opt (Lit "?")));
       plus ws; Group 2 (plus nonWs); opt (Seq (plus ws) (Group 3 (star dot)));
       Eol].

(** [/^@return\s+(.+)$/] *)
Definition re_return : re :=
  seq [Bol; Lit "@return"; plus ws; Group 1 (plus dot); Eol].

(** [/ [A-Z][a-z]| --/] *)
Definition re_descOrComment : re := Alt re_inlineDesc (Lit " --").

(** [/ ([a-z_]\w{0,})$/] *)
Definition re_trailingWord : re :=
  seq [Lit " ";
       Group 1 (Seq (Chr (fun c => isLower c || Ascii.eqb c "_"%char)) (star word));
       Eol].

(** [/[>\]\w]\s+\w/] *)
Definition re_wordGapWord : re :=
  seq [Chr (fun c => hasChar c ">]" || isWord c); plus ws; word].

(** [/^@field\s+(?:public\s+)?\[(\w+)\]\s+(.+)$/] *)
Definition re_indexSig : re :=
  seq [Bol; Lit "@field"; plus ws; opt (Seq (Lit "public") (plus ws)); Lit "[";
       Group 1 (plus word); Lit "]"; plus ws; Group 2 (plus dot); Eol].

(** [/^@field\s+(?:public\s+)?(\w+\??)\s+(.+)$/] *)
Definition re_field : re :=
  seq [Bol; Lit "@field"; plus ws; opt (Seq (Lit "public") (plus ws));
       Group 1 (Seq (plus word) (opt (Lit "?"))); plus ws; Group 2 (plus dot);
       Eol].

Definition typeKeywords : list string :=
  ["nil"; "string"; "number"; "boolean"; "integer"; "any"; "void"; "table";
   "function"].

(** [if (trailingWordMatch && !typeKeywords.includes(trailingWordMatch[1]))] *)
Definition cutTrailingWord (returnTypeStr : string) : string :=
  match exec re_trailingWord returnTypeStr with
  | Some trailingWordMatch =>
      if negb (inList (group 1 returnTypeStr trailingWordMatch) typeKeywords)
      then trim (take (f_index trailingWordMatch) returnTypeStr)
      else returnTypeStr
  | None => returnTypeStr
  end.

Definition fallbackToAny (returnTypeStr : string) : string :=
  if test re_wordGapWord returnTypeStr then "any" else returnTypeStr.

(** The clean-up of the text after [@return]. *)
Definition cleanReturn (returnTypeStr : string) : string :=
  fallbackToAny (cutTrailingWord (cutAtMatch re_descOrComment (trim returnTypeStr))).

Definition findPending (paramName : string) (pending : list PendingParam)
    : option PendingParam :=
  find (fun p => String.eqb (pp_name p) paramName) pending.

(** The [paramTypes] loop of the two [function] branches. *)
Definition paramTypesOf (pending : list PendingParam) (paramsStr : string)
    : list string :=
  let paramNames := filter truthy (map trim (split ","%char paramsStr)) in
  map (fun paramName =>
         match findPending paramName pending with
         | Some paramInfo =>
             let opt := if pp_optional paramInfo then "?" else "" in
             paramName ++ opt ++ ": " ++ pp_type paramInfo
         | None => paramName ++ ": any"
         end)
      paramNames.

(** [pendingReturn || 'void'] *)
Definition returnTypeOf (pendingReturn : option string) : string :=
  match pendingReturn with
  | Some r => if truthy r then r else "void"
  | None => "void"
  end.

(** What both [function] branches do once [className], [methodName] and
    [funType] are known: ensure the class, push the method, clear the
    pending annotations. *)
Definition attachMethod (st : ParserState) (className methodName funType : string)
    : ParserState :=
  let x := mkField methodName funType (descriptionOf (currentDescription st)) true in
  mkState (updateClass className (pushField x) (ensureClass className (classes st)))
          (aliases st) (currentClass st) [] (detectedMainExport st) [] None.

(** [function Class.method(params)] *)
Definition declareDot (st : ParserState) (trimmed : string) (m : found)
    : ParserState :=
  let classPath := group 1 trimmed m in
  let methodName := group 2 trimmed m in
  let paramsStr := group 3 trimmed m in
  let className := last (split "."%char classPath) "" in
  let paramTypes := paramTypesOf (pendingParams st) paramsStr in
  let returnType := returnTypeOf (pendingReturn st) in
  let funType := "fun(" ++ join ", " paramTypes ++ "): " ++ returnType in
  attachMethod st className methodName funType.

(** [function Class:method(params)] *)
Definition declareColon (st : ParserState) (trimmed : string) (m : found)
    : ParserState :=
  let className := group 1 trimmed m in
  let methodName := group 2 trimmed m in
  let paramsStr := group 3 trimmed m in
  let paramTypes := paramTypesOf (pendingParams st) paramsStr in
  let returnType := returnTypeOf (pendingReturn st) in
  let funType :=
    "fun(self: " ++ className ++
    (if 0 <? List.length paramTypes then ", " ++ join ", " paramTypes else "") ++
    "): " ++ returnType in
  attachMethod st className methodName funType.

(** [Class.subclass = {}] while a class is active. *)
Definition declareSubclass (st : ParserState) (trimmed : string) (m : found)
    (current : string) : ParserState :=
  let parentClassName := group 1 trimmed m in
  let fieldName := group 2 trimmed m in
  let x := mkDataField fieldName current None false in
  mkState (updateClass parentClassName (pushDataField x)
             (ensureClass parentClassName (classes st)))
          (aliases st) (currentClass st) (currentDescription st)
          (detectedMainExport st) (pendingParams st) (pendingReturn st).

Definition flush (st : ParserState) : ParserState :=
  mkState (classes st) (aliases st) (currentClass st) []
          (detectedMainExport st) [] None.

Definition hasSelf (type : string) : bool :=
  includes "self:" type || includes "self :" type.

Fixpoint findIndex {A : Type} (p : A -> bool) (l : list A) : option nat :=
  match l with
  | [] => None
  | x :: r => if p x then Some 0 else option_map S (findIndex p r)
  end.

Fixpoint setNth {A : Type} (i : nat) (x : A) (l : list A) : list A :=
  match i, l with
  | _, [] => []
  | 0, _ :: r => x :: r
  | S i', y :: r => y :: setNth i' x r
  end.

(** The method branch of [@field name fun(...)]. *)
Definition insertMethod (fieldName fieldType : string)
    (description : option string) (c : ParsedClass) : ParsedClass :=
  let x := mkField fieldName fieldType description true in
  match findIndex (fun f => String.eqb (pf_name f) fieldName) (fields c) with
  | Some existingIdx =>
      let existingHasSelf :=
        match nth_error (fields c) existingIdx with
        | Some existing => hasSelf (pf_type existing)
        | None => false
        end in
      if hasSelf fieldType && negb existingHasSelf
      then mkClass (c_name c) (setNth existingIdx x (fields c)) (dataFields c)
                   (indexSignatures c)
      else c
  | None => pushField x c
  end.

(** The data branch of [@field name Type]. *)
Definition insertDataField (fieldName fieldType : string)
    (description : option string) (isOptional : bool) (c : ParsedClass)
    : ParsedClass :=
  let descMatch := exec re_inlineDesc fieldType in
  let cleanType :=
    match descMatch with
    | Some m => trim (take (f_index m) fieldType)
    | None => fieldType
    end in
  let inlineDesc :=
    match descMatch with
    | Some m => Some (trim (drop (f_index m) fieldType))
    | None => None
    end in
  let description :=
    if truthyOpt description then description else inlineDesc in
  pushDataField (mkDataField fieldName cleanType description isOptional) c.

Definition withClasses (st : ParserState) (cs : Map ParsedClass) : ParserState :=
  mkState cs (aliases st) (currentClass st) (currentDescription st)
          (detectedMainExport st) (pendingParams st) (pendingReturn st).

Definition withDescription (st : ParserState) (d : list string) : ParserState :=
  mkState (classes st) (aliases st) (currentClass st) d
          (detectedMainExport st) (pendingParams st) (pendingReturn st).

(** [x && currentClass] is truthy for a non-empty class name only. *)
Definition activeClass (st : ParserState) : option string :=
  if truthyOpt (currentClass st) then currentClass st else None.

(** A doc-comment line: [lineContent] is the line without its [---]
    marker. *)
Definition stepDoc (st : ParserState) (lineContent : string) : ParserState :=
  match exec re_type lineContent with
  | Some typeMatch =>
      mkState (classes st) (aliases st) (currentClass st) (currentDescription st)
              (Some (group 1 lineContent typeMatch)) (pendingParams st)
              (pendingReturn st)
  | None =>
  match exec re_alias lineContent with
  | Some aliasMatch =>
      let n := group 1 lineContent aliasMatch in
      mkState (classes st)
              (mapSet n (mkAlias n (trim (group 2 lineContent aliasMatch))) (aliases st))
              (currentClass st) (currentDescription st) (detectedMainExport st)
              (pendingParams st) (pendingReturn st)
  | None =>
  match exec re_class lineContent with
  | Some classMatch =>
      let n := group 1 lineContent classMatch in
      mkState (ensureClass n (classes st)) (aliases st) (Some n)
              (currentDescription st) (detectedMainExport st) (pendingParams st)
              (pendingReturn st)
  | None =>
  match exec re_param lineContent with
  | Some paramMatch =>
      let paramName := group 1 lineContent paramMatch in
      let paramType := group 2 lineContent paramMatch in
      let isOptional := endsWith "?" paramName in
      let paramName := if isOptional then dropLast paramName else paramName in
      mkState (classes st) (aliases st) (currentClass st) (currentDescription st)
              (detectedMainExport st)
              (pendingParams st ++ [mkPending paramName paramType isOptional])
              (pendingReturn st)
  | None =>
  match exec re_return lineContent with
  | Some returnMatch =>
      mkState (classes st) (aliases st) (currentClass st) (currentDescription st)
              (detectedMainExport st) (pendingParams st)
              (Some (cleanReturn (group 1 lineContent returnMatch)))
  | None =>
  match exec re_indexSig lineContent, activeClass st with
  | Some indexSigMatch, Some current =>
      let sig := mkIndexSig (group 1 lineContent indexSigMatch)
                            (trim (group 2 lineContent indexSigMatch)) in
      withClasses st (updateClass current (pushIndexSignature sig) (classes st))
  | _, _ =>
  match exec re_field lineContent, activeClass st with
  | Some fieldMatch, Some current =>
      let fieldName := group 1 lineContent fieldMatch in
      let fieldType := trim (group 2 lineContent fieldMatch) in
      let isOptional := endsWith "?" fieldName in
      let fieldName := if isOptional then dropLast fieldName else fieldName in
      let description := descriptionOf (currentDescription st) in
      let change :=
        if isFunType fieldType
        then insertMethod fieldName fieldType description
        else insertDataField fieldName fieldType description isOptional in
      withDescription (withClasses st (updateClass current change (classes st))) []
  | _, _ =>
      if negb (startsWith "@" lineContent) && truthy (trim lineContent)
      then withDescription st (currentDescription st ++ [trim lineContent])
      else st
  end end end end end end end.

(** One iteration of the loop over the lines. *)
Definition step (st : ParserState) (line : string) : ParserState :=
  let trimmed := trim line in
  match exec re_funcDecl trimmed with
  | Some funcDeclMatch => declareDot st trimmed funcDeclMatch
  | None =>
  match exec re_funcColon trimmed with
  | Some funcColonMatch => declareColon st trimmed funcColonMatch
  | None =>
  match exec re_subclassAssign trimmed, activeClass st with
  | Some subclassAssignMatch, Some current =>
      declareSubclass st trimmed subclassAssignMatch current
  | _, _ =>
      if negb (startsWith "---" trimmed) then
        if isEmpty trimmed || startsWith "--" trimmed || startsWith "_G." trimmed
        then st
        else flush st
      else stepDoc st (replaceFirst re_docMarker [] trimmed)
  end end end.

Definition parseLines (st : ParserState) (lines : list string) : ParserState :=
  fold_left step lines st.

Definition resultOf (st : ParserState) : ParseResult :=
  mkResult (classes st) (aliases st) (detectedMainExport st).

Definition parseApiFile (content : string) : ParseResult :=
  resultOf (parseLines initialState (split newline content)).

(** *** Kinds of lines, for the statements about the line loop *)

(** [lineContent] of a doc-comment line. *)
Definition lineContentOf (line : string) : string :=
  replaceFirst re_docMarker [] (trim line).

Definition isDocLine (line : string) : bool := startsWith "---" (trim line).

(** A [function] declaration line, in the dot or the colon form. *)
Definition isFunctionLine (line : string) : bool :=
  test re_funcDecl (trim line) || test re_funcColon (trim line).

(** A line of one of the three declaration forms. *)
Definition isDeclarationLine (line : string) : bool :=
  isFunctionLine line || test re_subclassAssign (trim line).

(** Blank, a plain comment, or a [_G.] line. *)
Definition isQuietLine (line : string) : bool :=
  let trimmed := trim line in
  negb (isDocLine line) &&
  (isEmpty trimmed || startsWith "--" trimmed || startsWith "_G." trimmed).

(** Any other line that is neither a doc comment nor a declaration. *)
Definition isFlushLine (line : string) : bool :=
  negb (isDocLine line) && negb (isQuietLine line) && negb (isDeclarationLine line).

Definition isParamDirective (line : string) : bool :=
  isDocLine line && test re_param (lineContentOf line).

Definition isClassDirective (line : string) : bool :=
  isDocLine line && test re_class (lineContentOf line).

(** A [@field] directive, in the index-signature or the named form. *)
Definition isFieldDirective (line : string) : bool :=
  isDocLine line &&
  (test re_indexSig (lineContentOf line) || test re_field (lineContentOf line)).

Definition withPending (st : ParserState) (pending : list PendingParam)
    : ParserState :=
  mkState (classes st) (aliases st) (currentClass st) (currentDescription st)
          (detectedMainExport st) pending (pendingReturn st).

Definition withReturn (st : ParserState) (r : option string) : ParserState :=
  mkState (classes st) (aliases st) (currentClass st) (currentDescription st)
          (detectedMainExport st) (pendingParams st) r.

Definition isReturnDirective (line : string) : bool :=
  isDocLine line && test re_return (lineContentOf line).

(** [lines.push(...)]: lists of lines are appended with [+++]. *)
Infix "+++" := (@List.app string) (at level 60, right associativity).

(** ** Class filtering *)

Definition matchesPattern (className pattern : string) : bool :=
  if endsWith "*" pattern
  then startsWith (dropLast pattern) className
  else String.eqb className pattern.

Definition matchesFilter (className : string) (patterns : list string) : bool :=
  existsb (matchesPattern className) patterns.

(** The keys of a [Map] are distinct, so [filtered.set] appends. *)
Definition filterClasses (classes : Map ParsedClass)
    (filterPatterns : option (list string)) : Map ParsedClass :=
  match filterPatterns with
  | None => classes
  | Some [] => classes
  | Some patterns => filter (fun kv => matchesFilter (fst kv) patterns) classes
  end.

(** ** Enum detection *)

Definition isNumericName (type : string) : bool :=
  let fieldType := trim (toLowerCase type) in
  String.eqb fieldType "number" || String.eqb fieldType "integer".

Definition isEnumLikeClass (cls : ParsedClass) : bool :=
  let hasDataFields := 0 <? List.length (dataFields cls) in
  let hasMethods := 0 <? List.length (fields cls) in
  let hasIndexSigs := 0 <? List.length (indexSignatures cls) in
  if negb hasDataFields || hasMethods || hasIndexSigs then false
  else forallb (fun field => isNumericName (df_type field)) (dataFields cls).

Definition docLine (description : option string) : list string :=
  match description with
  | Some d => if truthy d then ["  /** " ++ d ++ " */"] else []
  | None => []
  end.

Definition generateEnum (className : string) (cls : ParsedClass) : list string :=
  ["declare enum " ++ className ++ " {"] +++
  flat_map (fun field => docLine (df_description field) +++
                         ["  " ++ df_name field ++ ","])
           (dataFields cls) +++
  ["}"].

(** ** Declaration generation *)

Definition RESERVED_METHOD_NAMES : list string :=
  ["new"; "delete"; "default"; "class"; "function"; "return"; "typeof";
   "import"; "export"].

Definition indexSignatureLine (sig : IndexSignature) : string :=
  "  [key: " ++ convertLuaTypeToTS (keyType sig) ++ "]: " ++
  convertLuaTypeToTS (valueType sig) ++ ";".

Definition dataFieldLines (enumClasses : list string) (field : ParsedDataField)
    : list string :=
  let tsType := convertLuaTypeToTS (df_type field) in
  let tsType := if inList tsType enumClasses then "typeof " ++ tsType else tsType in
  let optMark := if df_optional field then "?" else "" in
  docLine (df_description field) +++
  ["  " ++ df_name field ++ optMark ++ ": " ++ tsType ++ ";"].

(** [/^\(/] *)
Definition re_leadingParen : re := seq [Bol; Lit "("].

Definition methodLines (field : ParsedField) : list string :=
  let funType := parseFunType (pf_type field) in
  let methodSig := replaceFirst re_leadingParen [] funType in
  let methodSig :=
    match lastIndexOf ") => " methodSig with
    | Some lastArrowIdx =>
        take lastArrowIdx methodSig ++ "): " ++ drop (lastArrowIdx + 5) methodSig
    | None => methodSig
    end in
  let methodName :=
    if inList (pf_name field) RESERVED_METHOD_NAMES
    then dquote ++ pf_name field ++ dquote else pf_name field in
  docLine (pf_description field) +++ ["  " ++ methodName ++ "(" ++ methodSig ++ ";"].

(** [generateInterface] also stores [className] in the global
    [currentClassName], which nothing reads. *)
Definition generateInterface (className : string) (cls : ParsedClass)
    (enumClasses : list string) : list string :=
  ["interface " ++ className ++ " {"] +++
  map indexSignatureLine (indexSignatures cls) +++
  flat_map (dataFieldLines enumClasses) (dataFields cls) +++
  flat_map methodLines (fields cls) +++
  ["}"].

Record ModuleConfig := mkConfig {
  file : string;
  mainExport : option string;
  cfg_filterClasses : option (list string);
  declareGlobalVar : bool
}.

Definition headerLines (config : ModuleConfig) : list string :=
  ["// Auto-generated from Sylvanas API";
   "// Source: " ++ file config;
   "// Do not edit manually";
   ""].

Definition aliasLines (aliases : Map Alias) : list string :=
  if 0 <? List.length aliases then
    map (fun kv => "type " ++ fst kv ++ " = " ++
                   convertLuaAliasToTS (a_type (snd kv)) ++ ";") aliases +++ [""]
  else [].

(** The first pass: the names of the enum-like classes. *)
Definition enumClassNames (filteredClasses : Map ParsedClass) : list string :=
  map fst (filter (fun kv => isEnumLikeClass (snd kv)) filteredClasses).

Definition enumLines (filteredClasses : Map ParsedClass) (enumClasses : list string)
    : list string :=
  flat_map (fun kv =>
              if inList (fst kv) enumClasses
              then generateEnum (fst kv) (snd kv) +++ [""] else [])
           filteredClasses.

Definition interfaceLines (filteredClasses : Map ParsedClass)
    (enumClasses : list string) : list string :=
  flat_map (fun kv =>
              if negb (inList (fst kv) enumClasses)
              then generateInterface (fst kv) (snd kv) enumClasses +++ [""] else [])
           filteredClasses.

(** The main export: [config.mainExport] when truthy, else the detected
    one when it names a filtered class; [None] when the final value is
    falsy. *)
Definition resolveMainExport (config : ModuleConfig)
    (filteredClasses : Map ParsedClass) (detected : option string)
    : option string :=
  if truthyOpt (mainExport config) then mainExport config
  else
    match detected with
    | Some d => if truthy d && mapHas d filteredClasses then Some d else None
    | None => None
    end.

Definition globalVarLines (config : ModuleConfig) (resolved : option string)
    : list string :=
  match resolved with
  | Some m =>
      if declareGlobalVar config then
        ["// Global variable declaration";
         "declare const " ++ m ++ ": " ++ m ++ ";";
         ""]
      else []
  | None => []
  end.

Definition moduleLines (modulePath : string) (resolved : option string)
    : list string :=
  match resolved with
  | Some m =>
      ["// Module declaration for imports";
       "declare module " ++ dquote ++ modulePath ++ dquote ++ " {";
       "  const _default: " ++ m ++ ";";
       "  export = _default;";
       "}";
       ""]
  | None => []
  end.

(** The [lines] array of [generateDeclaration] at its [return]. *)
Definition declarationLines (modulePath : string) (config : ModuleConfig)
    (parseResult : ParseResult) : list string :=
  let lines := headerLines config in
  let filteredClasses := filterClasses (pr_classes parseResult) (cfg_filterClasses config) in
  let lines := lines +++ aliasLines (pr_aliases parseResult) in
  let enumClasses := enumClassNames filteredClasses in
  let lines := lines +++ enumLines filteredClasses enumClasses in
  let lines := lines +++ interfaceLines filteredClasses enumClasses in
  let mainExport :=
    resolveMainExport config filteredClasses (pr_detectedMainExport parseResult) in
  let lines := lines +++ globalVarLines config mainExport in
  let lines := lines +++ moduleLines modulePath mainExport in
  lines.

Definition generateDeclaration (modulePath : string) (config : ModuleConfig)
    (parseResult : ParseResult) : string :=
  join (String newline "") (declarationLines modulePath config parseResult).

(** ** Post-processing *)

(** [content.replace(/literal/, replacement)] for a pattern that is a
    literal text once unescaped. *)
Definition fixFirst (pattern replacement content : string) : string :=
  replaceFirst (Lit pattern) [TLit replacement] content.

Definition fixAll (pattern replacement content : string) : string :=
  replaceAll (Lit pattern) [TLit replacement] content.

Definition postProcessOwMenuApi (content : string) : string :=
  let content := fixAll "opts?: {):" "opts?: object):" content in
  let content := fixAll "opts?: {, " "opts?: object, " content in
  content.

Definition postProcessKickExternalFiltersHelper (content : string) : string :=
  fixAll ", string|nil: any," "," content.

(** [/: string QUOTE([^QUOTE]+)QUOTE;/g], where QUOTE is the double
    quote. *)
Definition re_quotedString : re :=
  seq [Lit (": string " ++ dquote);
       Group 1 (plus (Chr (fun c => negb (Ascii.eqb c "034"%char))));
       Lit (dquote ++ ";")].

Definition postProcessSpellSequenceHelper (content : string) : string :=
  let content :=
    fixAll "game_object | (this: void) => game_object"
           "game_object | ((this: void) => game_object)" content in
  replaceAll re_quotedString [TLit (": " ++ dquote); TGroup 1; TLit (dquote ++ ";")]
             content.

Definition eventHandlers : list string :=
  ["on_buff_gain"; "on_buff_lose"; "on_debuff_gain"; "on_debuff_lose";
   "on_combat_start"; "on_combat_finish"; "on_spell_begin"; "on_spell_success";
   "on_spell_cancel"].

(** [handler\(this: void, cb: .*?\) => \(this: void\): void;] *)
Definition re_eventHandler (handler : string) : re :=
  seq [Lit handler; Lit "(this: void, cb: "; lazyStar dot;
       Lit ") => (this: void): void;"].

Definition fixEventHandler (content handler : string) : string :=
  replaceAll (re_eventHandler handler)
    [TLit handler; TLit "(this: void, cb: (this: void, ev: any) => void): () => void;"]
    content.

(** [/on_key_release\(this: void, key: .*?\) => \(this: void\): void;/] *)
Definition re_onKeyRelease : re :=
  seq [Lit "on_key_release(this: void, key: "; lazyStar dot;
       Lit ") => (this: void): void;"].

(** [(method\([^)]*\)):\s*\([^;]*,;] *)
Definition re_truncatedTuple (method : string) : re :=
  seq [Group 1 (seq [Lit method; Lit "("; star (noneOf ")"); Lit ")"]);
       Lit ":"; star ws; Lit "("; star (noneOf ";"); Lit ",;"].

(** One [for (const method of methods)] loop: every truncated tuple of a
    method of the family gets the family's return type. *)
Definition fixTuples (methods : list string) (tuple : string) (content : string)
    : string :=
  fold_left
    (fun content method =>
       replaceAll (re_truncatedTuple method)
                  [TGroup 1; TLit (": LuaMultiReturn<[" ++ tuple ++ "]>;")] content)
    methods content.

Definition cc5Methods : list string :=
  ["is_cc"; "isCC"; "crowd_controlled"; "isCrowdControlled";
   "is_cc_weak"; "isWeakCC"; "weak_cc";
   "is_rooted"; "rooted"; "isRooted";
   "is_stunned"; "stunned"; "isStunned";
   "is_feared"; "feared"; "isFeared";
   "is_sapped"; "sapped"; "isSapped";
   "is_silenced"; "silenced"; "isSilenced";
   "is_cycloned"; "cycloned"; "isCycloned";
   "is_disarmed"; "disarmed"; "isDisarmed";
   "is_disoriented"; "isDisorient"; "isDisoriented";
   "is_incap"; "is_incapacitated"; "isIncapacitated";
   "immune_cc"; "isCCImmune"].

Definition ccReductionMethods : list string :=
  ["get_cc_reduction"; "cc_reduction"; "getCCReduce"; "getCCReduction"].

Definition slowBoolMethods : list string := ["is_slowed"; "isSlowed"; "slowed"].

Definition slowNumMethods : list string := ["get_slow"; "slow_mult"; "getSlow"].

Definition slowImmuneMethods : list string :=
  ["is_slow_immune"; "slow_immune"; "isSlowImmune"].

Definition dmgReductionMethods : list string :=
  ["get_damage_reduction"; "getDRPct"; "dmg_reduction"; "dmgRed";
   "getDamageReduction"].

Definition dmgImmuneMethods : list string :=
  ["isImmune"; "isDamageImmune"; "immune_dmg"].

(** The second argument of the script, [outputDir], is not used. *)
Definition postProcessIziSdk (content : string) : string :=
  let content :=
    fixFirst "type adv_condition = boolean | (this: void, u: game_object) => boolean;"
             "type adv_condition = boolean | ((this: void, u: game_object) => boolean);"
             content in
  let content :=
    fixFirst "skip_back?: boolean validated in is_castable_to_unit;"
             "skip_back?: boolean;" content in
  let content :=
    fixFirst "is_spell_in_range(this: game_object, spell: number | izi_spell | {id:fun(self):integer}): boolean;"
             "is_spell_in_range(this: game_object, spell: number | izi_spell | { id: (this: any) => number }): boolean;"
             content in
  let content :=
    fixFirst "vec2: vec2 | (this: void, x: number, y: number) => vec2;"
             "vec2: vec2 | ((this: void, x: number, y: number) => vec2);" content in
  let content :=
    fixFirst "vec3: vec3 | (this: void, x: number, y: number, z: number) => vec3;"
             "vec3: vec3 | ((this: void, x: number, y: number, z: number) => vec3);"
             content in
  let content :=
    fixFirst "circle: circle | (this: void, center: vec3, radius: number) => circle;"
             "circle: circle | ((this: void, center: vec3, radius: number) => circle);"
             content in
  let content :=
    fixFirst "rectangle: rectangle | (this: void, min: vec3, max: vec3) => rectangle;"
             "rectangle: rectangle | ((this: void, min: vec3, max: vec3) => rectangle);"
             content in
  let content :=
    fixFirst "cone: cone | (this: void, origin: vec3, direction: vec3, angle: number, range: number) => cone;"
             "cone: cone | ((this: void, origin: vec3, direction: number, range: number) => cone);"
             content in
  let content := fold_left fixEventHandler eventHandlers content in
  let content :=
    replaceFirst re_onKeyRelease
      [TLit "on_key_release(this: void, key: number | string, cb: (this: void, key: number | string) => void): () => void;"]
      content in
  let content :=
    fixFirst "after(this: void, seconds: number, fn: (this: void) => void) => (this: void): void;"
             "after(this: void, seconds: number, fn: (this: void) => void): () => void;"
             content in
  let content := fixTuples cc5Methods "boolean, number, number, boolean, boolean" content in
  let content := fixTuples ccReductionMethods "number, number, number" content in
  let content := fixTuples slowBoolMethods "boolean, number, number" content in
  let content := fixTuples slowNumMethods "number, number" content in
  let content := fixTuples slowImmuneMethods "boolean, number" content in
  let content := fixTuples dmgReductionMethods "number, number, number" content in
  let content := fixTuples dmgImmuneMethods "boolean, number, number" content in
  content.

Definition applyPostProcessing (modulePath content : string) : string :=
  if String.eqb modulePath "common/izi_sdk" then postProcessIziSdk content
  else if String.eqb modulePath "common/ow_menu_api" then postProcessOwMenuApi content
  else if String.eqb modulePath "common/utility/kick_external_filters_helper"
  then postProcessKickExternalFiltersHelper content
  else if String.eqb modulePath "common/utility/spell_sequence_helper"
  then postProcessSpellSequenceHelper content
  else content.

(** *** Vocabulary of the statements *)

(** The class named by [currentClass] is in [classes]. *)
Definition classKnown (st : ParserState) : Prop :=
  forall c, currentClass st = Some c -> mapHas c (classes st) = true.

(** The recursive calls of [parseFunType], once [convertLuaTypeToTS] is
    known to return. *)
Definition translated (t : string) : option string := Some (convertLuaTypeToTS t).

(** A parameter that is not the receiver, as [parseFunType] prints it. *)
Definition positionalParam (p : Param) : string :=
  sanitizeParamName (p_name p) ++ (if p_optional p then "?" else "") ++ ": " ++
  convertLuaTypeToTS (p_type p).

(** The return type [parseFunType] prints for a cleaned return text. *)
Definition translateReturn (returnStr : string) : string :=
  if 1 <? List.length (splitByComma returnStr)
  then multiReturn (map (fun t => convertLuaTypeToTS (trim t)) (splitByComma returnStr))
  else convertLuaTypeToTS returnStr.

(** The continuation that ends a match: the end index and the captures. *)
Definition found_here : cont := fun e _ cs => Some (e, cs).

(** [r] matches at position [i], where [s] is the text from [i] on. *)
Definition matchesAt (r : re) (i : nat) (s : string) : bool :=
  match run r i s [] (fun e _ cs => Some (e, cs)) with
  | Some _ => true
  | None => false
  end.

(** [s] begins with a blank, a capital and a small letter. *)
Definition descriptionAt (s : string) : bool :=
  match s with
  | String x (String y (String z _)) => Ascii.eqb " " x && (isUpper y && isLower z)
  | _ => false
  end.

(** [s] begins with a blank and two hyphens. *)
Definition commentAt (s : string) : bool :=
  match s with
  | String x (String y (String z _)) =>
      Ascii.eqb " " x && (Ascii.eqb "-" y && Ascii.eqb "-" z)
  | _ => false
  end.

Definition descOrCommentAt (s : string) : bool := descriptionAt s || commentAt s.

(** The enum classifier as the specification words it: on the translated
    type of every data field. *)
Definition enumLikeBySpec (cls : ParsedClass) : Prop :=
  dataFields cls <> [] /\ fields cls = [] /\ indexSignatures cls = [] /\
  Forall (fun field => convertLuaTypeToTS (df_type field) = "number")
         (dataFields cls).

(** Two classes with one data field each, typed [Number] and [(number)]. *)
Definition capitalNumberClass : ParsedClass :=
  mkClass "e" [] [mkDataField "a" "Number" None false] [].

Definition wrappedNumberClass : ParsedClass :=
  mkClass "e" [] [mkDataField "a" "(number)" None false] [].

(** The return clean-up as the specification words it for the
    function-type parser: comment, description, trailing word, fallback. *)
Definition returnClauseBySpec (rest : string) : string :=
  fallbackToAny (cutTrailingWord (returnClause rest)).

(** [s.replace(/p/g, q)] for a literal, non-empty [p], written on the
    text alone: cut at the first occurrence, go on after it. *)
Fixpoint replaceLiteral (fuel : nat) (p q s : string) : string :=
  match fuel with
  | 0 => s
  | S fuel' =>
      match indexOf p s with
      | None => s
      | Some k => take k s ++ q ++ replaceLiteral fuel' p q (drop (k + String.length p) s)
      end
  end.

(** [p] and [s] differ at a position that both have. *)
Fixpoint clash (p s : string) : bool :=
  match p, s with
  | String a p', String b s' => if Ascii.eqb a b then clash p' s' else true
  | _, _ => false
  end.

(** [p] clashes with [q] from every position of [q] on: no occurrence of
    [p] can begin inside a copy of [q]. *)
Definition clashesInside (p q : string) : bool :=
  forallb (fun d => clash p (drop d q)) (List.seq 0 (String.length q)).

(** No proper suffix of [p] begins with the first character of [q]: no
    occurrence of [p] can run into a copy of [q]. *)
Definition stopsBefore (p q : string) : bool :=
  match p, q with
  | String _ p', String c _ => negb (hasChar c p')
  | _, _ => false
  end.

Abbreviation slen := String.length.

(** ** The module registry and the main loop *)

(** [MODULES]: the output module paths with their configuration, in the
    order of the object literal.  An entry without [declareGlobalVar] reads
    as [false]. *)
Definition MODULES : list (string * ModuleConfig) :=
  [("common/geometry/vector_2",
    mkConfig "common/geometry/vec2.lua" (Some "vec2") None false);
   ("common/geometry/vector_3",
    mkConfig "common/geometry/vec3.lua" (Some "vec3") None false);
   ("common/geometry/circle",
    mkConfig "common/geometry/geometry.lua" (Some "circle")
      (Some ["circle"; "circle_*"]) false);
   ("common/geometry/rectangle",
    mkConfig "common/geometry/geometry.lua" (Some "rectangle")
      (Some ["rectangle"; "rectangle_*"]) false);
   ("common/geometry/cone",
    mkConfig "common/geometry/geometry.lua" (Some "cone")
      (Some ["cone"; "cone_*"]) false);
   ("common/color",
    mkConfig "common/color.lua" (Some "color") None false);
   ("common/enums",
    mkConfig "common/enums.lua" None None false);
   ("common/unit_manager",
    mkConfig "common/unit_manager.lua" (Some "unit_manager") None false);
   ("common/buff_db",
    mkConfig "common/buff_db.lua" (Some "buff_db") None false);
   ("common/spell_attributes",
    mkConfig "common/spell_attributes.lua"
      (Some "spell_attributes") None false);
   ("common/talents_id",
    mkConfig "common/talents_id.lua" (Some "talents_id") None false);
   ("common/wow_api_clone",
    mkConfig "common/wow_api_clone.lua" (Some "wow_api_clone") None false);
   ("common/ow_menu_api",
    mkConfig "common/ow_menu_api.lua" (Some "ow_menu_api") None false);
   ("common/izi_sdk",
    mkConfig "common/izi_sdk.lua" (Some "izi_api") None false);
   ("common/modules/buff_manager",
    mkConfig "common/modules/buff_manager.lua"
      (Some "buff_manager") None false);
   ("common/modules/settings_manager",
    mkConfig "common/modules/settings_manager.lua"
      (Some "settings_manager") None false);
   ("common/modules/spell_queue",
    mkConfig "common/modules/spell_queue.lua" (Some "spell_queue") None false);
   ("common/modules/spell_prediction",
    mkConfig "common/modules/spell_prediction.lua"
      (Some "spell_prediction") None false);
   ("common/modules/combat_forecast",
    mkConfig "common/modules/combat_forecast.lua"
      (Some "combat_forecast") None false);
   ("common/modules/profiler",
    mkConfig "common/modules/profiler.lua" (Some "profiler") None false);
   ("common/modules/health_prediction",
    mkConfig "common/modules/health_prediction.lua"
      (Some "health_prediction") None false);
   ("common/modules/target_selector",
    mkConfig "common/modules/target_selector.lua"
      (Some "target_selector") None false);
   ("common/utility/plugin_helper",
    mkConfig "common/utility/plugin_helper.lua"
      (Some "plugin_helper") None false);
   ("common/utility/control_panel_helper",
    mkConfig "common/utility/control_panel_helper.lua"
      (Some "control_panel_helper") None false);
   ("common/utility/unit_helper",
    mkConfig "common/utility/unit_helper.lua" (Some "unit_helper") None false);
   ("common/utility/spell_helper",
    mkConfig "common/utility/spell_helper.lua"
      (Some "spell_helper") None false);
   ("common/utility/key_helper",
    mkConfig "common/utility/key_helper.lua" (Some "key_helper") None false);
   ("common/utility/auto_attack_helper",
    mkConfig "common/utility/auto_attack_helper.lua"
      (Some "auto_attack_helper") None false);
   ("common/utility/cooldown_tracker",
    mkConfig "common/utility/cooldown_tracker.lua"
      (Some "cooldown_tracker") None false);
   ("common/utility/dungeons_helper",
    mkConfig "common/utility/dungeons_helper.lua"
      (Some "dungeons_helper") None false);
   ("common/utility/evade_helper",
    mkConfig "common/utility/evade_helper.lua"
      (Some "evade_helper") None false);
   ("common/utility/fish_helper",
    mkConfig "common/utility/fish_helper.lua" (Some "fish_helper") None false);
   ("common/utility/graphics_helper",
    mkConfig "common/utility/graphics_helper.lua"
      (Some "graphics_helper") None false);
   ("common/utility/inventory_helper",
    mkConfig "common/utility/inventory_helper.lua"
      (Some "inventory_helper") None false);
   ("common/utility/kick_external_filters_helper",
    mkConfig "common/utility/kick_external_filters_helper.lua"
      (Some "kick_external_filters_helper") None false);
   ("common/utility/dispel_external_filters_helper",
    mkConfig "common/utility/dispel_external_filters_helper.lua"
      (Some "dispel_external_filters_helper") None false);
   ("common/utility/movement_handler",
    mkConfig "common/utility/movement_handler.lua"
      (Some "movement_handler") None false);
   ("common/utility/pet_handler",
    mkConfig "common/utility/pet_handler.lua" (Some "pet_handler") None false);
   ("common/utility/pvp_helper",
    mkConfig "common/utility/pvp_helper.lua" (Some "pvp_helper") None false);
   ("common/utility/simple_movement",
    mkConfig "common/utility/simple_movement.lua"
      (Some "simple_movement") None false);
   ("common/utility/ui_buttons_info",
    mkConfig "common/utility/ui_buttons_info.lua"
      (Some "ui_buttons_info") None false);
   ("common/utility/wigs_tracker",
    mkConfig "common/utility/wigs_tracker.lua"
      (Some "wigs_tracker") None false);
   ("common/utility/assets_helper",
    mkConfig "common/utility/assets_helper.lua"
      (Some "assets_helper") None false);
   ("common/utility/icons_helper",
    mkConfig "common/utility/icons_helper.lua"
      (Some "icons_helper") None false);
   ("common/utility/spell_sequence_helper",
    mkConfig "common/utility/spell_sequence_helper.lua"
      (Some "spell_sequence_helper") None false);
   ("common/utility/coords_helper",
    mkConfig "common/utility/coords_helper.lua"
      (Some "coords_helper") None false);
   ("menu",
    mkConfig "menu.lua" (Some "menu") None true);
   ("core",
    mkConfig "core.lua" (Some "core") None true);
   ("game_object",
    mkConfig "game_object.lua" (Some "game_object") None false)].

(** The part of Node's [fs] and [path] modules that [main] uses, over a
    state [World] of the file system, with the two directories of the
    configuration.  A read that throws is [None]; [mkdirSync] and
    [writeFileSync] return the file system they leave and whether they
    returned ([true]) or threw ([false]). *)
Record Node (World : Type) := mkNode {
  API_DIR : string;
  OUTPUT_DIR : string;
  path_join : string -> string -> string;
  path_dirname : string -> string;
  existsSync : string -> World -> bool;
  readFileSync : string -> World -> option string;
  mkdirSync : string -> World -> World * bool;
  writeFileSync : string -> string -> World -> World * bool
}.

Arguments API_DIR {World} _.
Arguments OUTPUT_DIR {World} _.
Arguments path_join {World} _ _ _.
Arguments path_dirname {World} _ _.
Arguments existsSync {World} _ _ _.
Arguments readFileSync {World} _ _ _.
Arguments mkdirSync {World} _ _ _.
Arguments writeFileSync {World} _ _ _ _.

(** What [main] does with one module: the API file is missing, the [try]
    block throws, the file has no class, or the declaration is written.
    [Written] holds the name of the output file below [OUTPUT_DIR]. *)
Inductive ModuleOutcome : Type :=
| NotFound
| Failed
| NoClasses
| Written (outputName declaration : string).

(** [if (!fs.existsSync(outputDir)) fs.mkdirSync(outputDir, ...)] *)
Definition ensureDir {World : Type} (node : Node World) (outputDir : string)
    (w : World) : World * bool :=
  if negb (existsSync node outputDir w) then mkdirSync node outputDir w
  else (w, true).

(** The body of the loop of [main] for one module, in the file system
    [w]: the file system it leaves and the outcome.  The parser and the
    generator have no [throw]; the calls of the [try] block that can
    throw are those of [fs], and the [catch] makes each of them
    [Failed].  The lines printed on the console are not part of the
    embedding. *)
Definition processModule {World : Type} (node : Node World) (w : World)
    (modulePath : string) (config : ModuleConfig) : World * ModuleOutcome :=
  let inputPath := path_join node (API_DIR node) (file config) in
  let outputPath := path_join node (OUTPUT_DIR node) (modulePath ++ ".d.ts") in
  if negb (existsSync node inputPath w) then (w, NotFound)
  else
    match readFileSync node inputPath w with
    | None => (w, Failed)
    | Some content =>
        let parseResult := parseApiFile content in
        if List.length (pr_classes parseResult) =? 0 then (w, NoClasses)
        else
          let declaration := generateDeclaration modulePath config parseResult in
          let declaration := applyPostProcessing modulePath declaration in
          let outputDir := path_dirname node outputPath in
          match ensureDir node outputDir w with
          | (w, false) => (w, Failed)
          | (w, true) =>
              match writeFileSync node outputPath declaration w with
              | (w, false) => (w, Failed)
              | (w, true) => (w, Written (modulePath ++ ".d.ts") declaration)
              end
          end
    end.

(** The files written so far and the three counters of [main]. *)
Record Report := mkReport {
  written : list (string * string);
  successCount : nat;
  skipCount : nat;
  errorCount : nat
}.

Definition emptyReport : Report := mkReport [] 0 0 0.

Definition count (r : Report) (o : ModuleOutcome) : Report :=
  match o with
  | NotFound | Failed =>
      mkReport (written r) (successCount r) (skipCount r) (errorCount r + 1)
  | NoClasses =>
      mkReport (written r) (successCount r) (skipCount r + 1) (errorCount r)
  | Written outputName declaration =>
      mkReport (written r ++ [(outputName, declaration)]) (successCount r + 1)
               (skipCount r) (errorCount r)
  end.

(** The loop of [main] over [modulesToProcess], which is all of [MODULES]
    when no module is named on the command line: the file system and
    the report after the last module. *)
Definition runModules {World : Type} (node : Node World) (w : World)
    (modulesToProcess : list (string * ModuleConfig)) (r : Report)
    : World * Report :=
  fold_left
    (fun wr entry =>
       let (w', o) := processModule node (fst wr) (fst entry) (snd entry) in
       (w', count (snd wr) o))
    modulesToProcess (w, r).

(** *** Vocabulary of the further properties *)

(** What one line can do to one class.  The flag says whether a
    [function] line made the change: only such a line pushes a method
    without looking for an earlier one of the same name. *)
Inductive edit : bool -> (ParsedClass -> ParsedClass) -> Prop :=
| edit_function name type description :
    isFunType type = true -> edit true (pushField (mkField name type description true))
| edit_method b name type description :
    isFunType type = true -> edit b (insertMethod name type description)
| edit_data b name type description isOptional :
    isFunType type = false -> edit b (insertDataField name type description isOptional)
| edit_subclass b x : edit b (pushDataField x)
| edit_index b x : edit b (pushIndexSignature x).

(** What one line can do to the map of classes. *)
Inductive classChange (b : bool) (cs : Map ParsedClass) : Map ParsedClass -> Prop :=
| change_none : classChange b cs cs
| change_ensure name : classChange b cs (ensureClass name cs)
| change_declare name f :
    edit b f -> classChange b cs (updateClass name f (ensureClass name cs))
| change_update name f : edit b f -> classChange b cs (updateClass name f cs).

(** The keys of a class map are distinct and every class is stored under
    its own name. *)
Definition wellKeyed (cs : Map ParsedClass) : Prop :=
  NoDup (map fst cs) /\ forall k c, In (k, c) cs -> c_name c = k.

Definition aliasesWellKeyed (als : Map Alias) : Prop :=
  NoDup (map fst als) /\ forall k a, In (k, a) als -> a_name a = k.

(** [l'] is [l] with more elements at its end. *)
Definition extends {A : Type} (l l' : list A) : Prop :=
  exists more, l' = (l ++ more)%list.

(** [c'] has all that [c] has, in the same order: the same method names,
    data fields and index signatures, and then possibly more. *)
Definition grows (c c' : ParsedClass) : Prop :=
  c_name c' = c_name c /\
  extends (map pf_name (fields c)) (map pf_name (fields c')) /\
  extends (dataFields c) (dataFields c') /\
  extends (indexSignatures c) (indexSignatures c').

(** No character of [s] is white space. *)
Fixpoint noSpace (s : string) : bool :=
  match s with
  | "" => true
  | String c r => negb (isSpace c) && noSpace r
  end.

(** No character of [s] is a bracket of [splitUnion] and [splitByComma]. *)
Fixpoint bracketFree (s : string) : bool :=
  match s with
  | "" => true
  | String c r =>
      negb (hasChar c openers) && negb (hasChar c closers) && bracketFree r
  end.

(** No character of [s] is a bracket or the separator [sep]. *)
Fixpoint plain (sep : ascii) (s : string) : bool :=
  match s with
  | "" => true
  | String c r =>
      negb (hasChar c openers) && negb (hasChar c closers) &&
      negb (Ascii.eqb c sep) && plain sep r
  end.

(** The parentheses opened and not closed over a text: what
    [findMatchingParen] counts in [depth]. *)
Fixpoint parenDepth (s : string) : Z :=
  match s with
  | "" => 0%Z
  | String c r =>
      ((if Ascii.eqb c "("%char then 1
        else if Ascii.eqb c ")"%char then -1 else 0) + parenDepth r)%Z
  end.

(** Every character of [s] is a word character. *)
Fixpoint allWord (s : string) : bool :=
  match s with
  | "" => true
  | String c r => isWord c && allWord r
  end.

(** The type names [convertLuaTypeToTS] knows. *)
Definition primitiveNames : list string :=
  ["nil"; "number"; "integer"; "string"; "boolean"; "any"; "userdata";
   "table"; "function"].

Fixpoint lastChar (s : string) : option ascii :=
  match s with
  | "" => None
  | String c "" => Some c
  | String _ r => lastChar r
  end.

(** The continuation of the group of [re_array]: the brackets, then the
    end of the text. *)
Definition afterGroup (start : nat) : cont :=
  fun i' rest' cs' =>
    run (Seq (Lit "[]") Eol) i' rest' ((1, (start, i')) :: cs')
        (fun e _ cs => Some (e, cs)).

(** A parameter as the annotations write it: the name, a colon, a space,
    the type. *)
Definition writtenParam (nt : string * string) : string :=
  fst nt ++ ": " ++ snd nt.

(** Both texts are non-empty and made of word characters. *)
Definition namedPair (nt : string * string) : Prop :=
  allWord (fst nt) = true /\ truthy (fst nt) = true /\
  allWord (snd nt) = true /\ truthy (snd nt) = true.

(** A function type as the annotations write it: the written parameters
    between parentheses, a colon, a space, the return type. *)
Definition writtenFunType (l : list (string * string)) (r : string) : string :=
  "fun(" ++ join ", " (map writtenParam l) ++ "): " ++ r.

(** Every space of [s] stands in front of a word character. *)
Fixpoint spacesBeforeWords (s : string) : bool :=
  match s with
  | "" => true
  | String c r =>
      (if Ascii.eqb c " "
       then match r with String d _ => isWord d | "" => false end
       else true) && spacesBeforeWords r
  end.

(** Every character of [s] satisfies [p]. *)
Fixpoint allChars (p : ascii -> bool) (s : string) : bool :=
  match s with
  | "" => true
  | String c r => p c && allChars p r
  end.

(** [s] is empty or begins with a character that fails [p]. *)
Definition headFails (p : ascii -> bool) (s : string) : bool :=
  match s with
  | "" => true
  | String c _ => negb (p c)
  end.

(** What a greedy repetition of a character class does on the text
    [a ++ t], when the class holds all of [a] and stops at [t]: the
    continuation [k] is tried after all of [a] first, then one character
    earlier each time. *)
Fixpoint backtrack (k : cont) (i : nat) (a t : string) (cs : caps) : outcome :=
  match a with
  | "" => k i t cs
  | String c a' =>
      match backtrack k (S i) a' t cs with
      | Some x => Some x
      | None => k i (a ++ t) cs
      end
  end.

(** The end of both [function] patterns, from the method name on. *)
Definition re_methodTail : re :=
  seq [Group 2 (plus word); star ws; Lit "("; Group 3 (star (noneOf ")")); Lit ")"].



(** [entry] makes [main] write [out] in the file system [w]: its API file
    is there, is read and has a class, the output directory is there or
    is made, the write returns, and [out] is the name of the output file
    with the patched declaration. *)
Definition writes {World : Type} (node : Node World) (w : World)
    (entry : string * ModuleConfig) (out : string * string) : Prop :=
  let inputPath := path_join node (API_DIR node) (file (snd entry)) in
  let outputPath :=
    path_join node (OUTPUT_DIR node) (fst entry ++ ".d.ts") in
  let outputDir := path_dirname node outputPath in
  existsSync node inputPath w = true /\
  exists content,
    readFileSync node inputPath w = Some content /\
    pr_classes (parseApiFile content) <> [] /\
    out = (fst entry ++ ".d.ts",
           applyPostProcessing (fst entry)
             (generateDeclaration (fst entry) (snd entry) (parseApiFile content))) /\
    exists w1,
      (existsSync node outputDir w = true /\ w1 = w \/
       existsSync node outputDir w = false /\ mkdirSync node outputDir w = (w1, true)) /\
      snd (writeFileSync node outputPath (snd out) w1) = true.

(** [entry] is skipped in the file system [w]: its API file is there and
    is read, and has no class. *)
Definition skips {World : Type} (node : Node World) (w : World)
    (entry : string * ModuleConfig) : Prop :=
  let inputPath := path_join node (API_DIR node) (file (snd entry)) in
  existsSync node inputPath w = true /\
  exists content,
    readFileSync node inputPath w = Some content /\
    pr_classes (parseApiFile content) = [].

(** [entry] is an error in the file system [w]: its API file is missing,
    or the read throws, or the file has a class and making the output
    directory or writing the declaration throws. *)
Definition fails {World : Type} (node : Node World) (w : World)
    (entry : string * ModuleConfig) : Prop :=
  let inputPath := path_join node (API_DIR node) (file (snd entry)) in
  let outputPath :=
    path_join node (OUTPUT_DIR node) (fst entry ++ ".d.ts") in
  let outputDir := path_dirname node outputPath in
  existsSync node inputPath w = false \/
  existsSync node inputPath w = true /\
  (readFileSync node inputPath w = None \/
   exists content,
     readFileSync node inputPath w = Some content /\
     pr_classes (parseApiFile content) <> [] /\
     let declaration :=
       applyPostProcessing (fst entry)
         (generateDeclaration (fst entry) (snd entry) (parseApiFile content)) in
     (existsSync node outputDir w = false /\
      snd (mkdirSync node outputDir w) = false \/
      exists w1,
        (existsSync node outputDir w = true /\ w1 = w \/
         existsSync node outputDir w = false /\
         mkdirSync node outputDir w = (w1, true)) /\
        snd (writeFileSync node outputPath declaration w1) = false)).

(** A small file system for an example run: the files are a map from
    paths to contents; [api/locked.lua] cannot be read, the directory
    [types] is there, and [types/full.d.ts] cannot be written. *)
Definition exampleNode : Node (Map string) :=
  mkNode (Map string) "api" "types"
    (fun a b => a ++ "/" ++ b)
    (fun _ => "types")
    (fun p w => mapHas p w || String.eqb p "types")
    (fun p w => if String.eqb p "api/locked.lua" then None else mapGet p w)
    (fun p w => (w, true))
    (fun p d w =>
       if String.eqb p "types/full.d.ts" then (w, false) else (mapSet p d w, true)).

Definition exampleFiles : Map string :=
  [("api/core.lua", "--- @class core" ++ String newline "function core.log(text) end");
   ("api/empty.lua", "-- nothing here");
   ("api/locked.lua", "--- @class locked");
   ("api/full.lua", "--- @class full")].

Definition exampleModules : list (string * ModuleConfig) :=
  [("core", mkConfig "core.lua" (Some "core") None false);
   ("empty", mkConfig "empty.lua" None None false);
   ("missing", mkConfig "missing.lua" None None false);
   ("locked", mkConfig "locked.lua" None None false);
   ("full", mkConfig "full.lua" None None false)].

(** Two entries of the registry that read the same API file. *)
Definition sharedFile : list ((string * ModuleConfig) * (string * ModuleConfig)) :=
  flat_map
    (fun m1 =>
       map (pair m1)
           (filter (fun m2 => String.eqb (file (snd m1)) (file (snd m2)) &&
                              negb (String.eqb (fst m1) (fst m2)))
                   MODULES))
    MODULES.

(** * Facts *)

Section StringFacts.

Lemma length_append (a b : string) : slen (a ++ b) = slen a + slen b.
Proof. induction a as [|c a IH]; simpl; [reflexivity | now rewrite IH]. Qed.

Lemma length_trimStart s : slen (trimStart s) <= slen s.
Proof.
  induction s as [|c s IH]; simpl; [lia|].
  destruct (isSpace c); simpl; lia.
Qed.

Lemma length_trimEnd s : slen (trimEnd s) <= slen s.
Proof.
  induction s as [|c s IH]; simpl; [lia|].
  destruct (isSpace c && isEmpty (trimEnd s)); simpl; lia.
Qed.

Lemma length_trim s : slen (trim s) <= slen s.
Proof.
  unfold trim. pose proof (length_trimEnd (trimStart s)).
  pose proof (length_trimStart s). lia.
Qed.

Lemma length_take n s : slen (take n s) <= slen s.
Proof.
  revert s; induction n as [|n IH]; intros [|c s]; simpl; try lia.
  specialize (IH s); lia.
Qed.

Lemma length_take_le n s : slen (take n s) <= n.
Proof.
  revert s; induction n as [|n IH]; intros [|c s]; simpl; try lia.
  specialize (IH s); lia.
Qed.

Lemma length_drop n s : slen (drop n s) = slen s - n.
Proof.
  revert s; induction n as [|n IH]; intros [|c s]; simpl; try lia.
  apply IH.
Qed.

Lemma length_slice i j s : slen (slice i j s) <= slen s - i.
Proof.
  unfold slice. pose proof (length_take (j - i) (drop i s)).
  rewrite length_drop in H. exact H.
Qed.

Lemma length_slice_le i j s : slen (slice i j s) <= j - i.
Proof. unfold slice. apply length_take_le. Qed.

Lemma truthy_length s : truthy s = true -> 0 < slen s.
Proof. destruct s; simpl; [discriminate | lia]. Qed.

Lemma length_dropLast s : truthy s = true -> slen (dropLast s) < slen s.
Proof.
  intros H. apply truthy_length in H. unfold dropLast.
  pose proof (length_take_le (slen s - 1) s). lia.
Qed.

Lemma length_dropLast_le s : slen (dropLast s) <= slen s.
Proof. unfold dropLast. apply length_take. Qed.

Lemma length_sliceInner i s :
  truthy s = true -> slen (sliceInner i s) < slen s.
Proof.
  intros H. apply truthy_length in H. unfold sliceInner.
  pose proof (length_slice_le i (slen s - 1) s). lia.
Qed.

Lemma prefix_length p s : prefix p s = true -> slen p <= slen s.
Proof.
  revert s; induction p as [|a p IH]; intros [|b s]; simpl; intros H;
    try lia; try discriminate H.
  destruct (ascii_dec a b); [|discriminate H]. apply IH in H. lia.
Qed.

Lemma indexOf_bound needle s i :
  indexOf needle s = Some i -> i + slen needle <= slen s.
Proof.
  revert i; induction s as [|c s IH]; intros i; cbn [indexOf].
  - destruct (prefix needle "") eqn:E; [|easy].
    intros [= <-]. apply prefix_length in E. simpl in *. lia.
  - destruct (prefix needle (String c s)) eqn:E.
    + intros [= <-]. apply prefix_length in E. simpl in *. lia.
    + destruct (indexOf needle s) as [j|]; cbn [option_map]; [|easy].
      intros [= <-]. specialize (IH j eq_refl). simpl. lia.
Qed.

End StringFacts.

Section RegexFacts.

Lemma drop_drop n m s : drop n (drop m s) = drop (m + n) s.
Proof.
  revert s; induction m as [|m IH]; intros s; simpl; [reflexivity|].
  destruct s as [|c s]; [destruct n; reflexivity | apply IH].
Qed.

Lemma stripPrefix_drop p s r :
  stripPrefix p s = Some r -> r = drop (slen p) s /\ slen p <= slen s.
Proof.
  revert s; induction p as [|a p IH]; intros [|b s]; simpl; intros H;
    try discriminate H.
  - injection H as <-. split; [reflexivity | lia].
  - injection H as <-. split; [reflexivity | lia].
  - destruct (Ascii.eqb a b); [|discriminate H].
    apply IH in H as [-> Hle]. split; [reflexivity | lia].
Qed.

(** What a successful [run] did: it called its continuation at a
    position further on, on what is left of [rest] there. *)
Definition reached (i : nat) (rest : string) (k : cont) (x : nat * caps) : Prop :=
  exists i' cs',
    k i' (drop (i' - i) rest) cs' = Some x /\ i <= i' /\ i' - i <= slen rest.

Lemma reached_here i rest cs (k : cont) x :
  k i rest cs = Some x -> reached i rest k x.
Proof.
  intros H. exists i, cs. rewrite Nat.sub_diag. simpl.
  repeat split; [exact H|lia|lia].
Qed.

Lemma reached_trans i rest k x i' :
  i <= i' -> i' - i <= slen rest ->
  reached i' (drop (i' - i) rest) k x ->
  reached i rest k x.
Proof.
  intros Hle Hlen (i'' & cs'' & Hk & Hle' & Hlen').
  exists i'', cs''. rewrite drop_drop in Hk. rewrite length_drop in Hlen'.
  replace (i' - i + (i'' - i')) with (i'' - i) in Hk by lia.
  repeat split; [exact Hk | lia | lia].
Qed.

Lemma starLoop_inv body g k :
  (forall i rest cs k' x, body i rest cs k' = Some x -> reached i rest k' x) ->
  forall fuel i rest cs x,
    starLoop body g k fuel i rest cs = Some x -> reached i rest k x.
Proof.
  intros Hbody. induction fuel as [|fuel IHf]; intros i rest cs x H;
    cbn [starLoop] in H.
  - eapply reached_here; eauto.
  - assert (Hmore : forall y,
              body i rest cs
                (fun i' rest' cs' =>
                   if slen rest <=? slen rest' then None
                   else starLoop body g k fuel i' rest' cs') = Some y ->
              reached i rest k y).
    { intros y Hy. apply Hbody in Hy as (i' & cs' & Hk & Hle & Hlen).
      destruct (slen rest <=? _); [discriminate Hk|].
      apply IHf in Hk. eapply reached_trans; eauto. }
    cbv zeta in H. destruct g.
    + match type of H with
      | match ?m with _ => _ end = _ => destruct m eqn:E
      end.
      * injection H as <-. apply Hmore. reflexivity.
      * eapply reached_here; eauto.
    + match type of H with
      | match ?m with _ => _ end = _ => destruct m eqn:E
      end.
      * injection H as <-. eapply reached_here; eauto.
      * apply Hmore. exact H.
Qed.

Lemma run_inv r : forall i rest cs k x,
  run r i rest cs k = Some x -> reached i rest k x.
Proof.
  induction r as [|p|s|a IHa b IHb|a IHa b IHb|g a IHa|n a IHa| |];
    intros i rest cs k x H; cbn [run] in H.
  - eapply reached_here; eauto.
  - destruct rest as [|c rest']; [discriminate H|].
    destruct (p c); [|discriminate H].
    exists (S i), cs. replace (S i - i) with 1 by lia. simpl.
    repeat split; [exact H|lia|lia].
  - destruct (stripPrefix s rest) as [rest'|] eqn:E; [|discriminate H].
    apply stripPrefix_drop in E as [-> Hle].
    exists (i + slen s), cs. replace (i + slen s - i) with (slen s) by lia.
    repeat split; [exact H|lia|lia].
  - apply IHa in H as (i' & cs' & Hk & Hle & Hlen).
    apply IHb in Hk. eapply reached_trans; eauto.
  - destruct (run a i rest cs k) eqn:E.
    + injection H as <-. eapply IHa; eauto.
    + eapply IHb; eauto.
  - eapply starLoop_inv; eauto.
  - apply IHa in H as (i' & cs' & Hk & Hle & Hlen).
    exists i', ((n, (i, i')) :: cs'). repeat split; assumption.
  - destruct (i =? 0); [|discriminate H]. eapply reached_here; eauto.
  - destruct (isEmpty rest); [|discriminate H]. eapply reached_here; eauto.
Qed.

(** A match found by [searchFrom] lies inside the text. *)
Lemma searchFrom_bounds r : forall rest i m,
  searchFrom r i rest = Some m ->
  i <= f_index m /\ f_index m <= f_end m /\ f_end m <= i + slen rest.
Proof.
  induction rest as [|c rest IH]; intros i m H; cbn [searchFrom] in H.
  - destruct (run r i "" [] (fun e _ cs => Some (e, cs))) as [[e cs]|] eqn:E;
      [|discriminate H].
    injection H as <-. apply run_inv in E as (i' & cs' & Hk & Hle & Hlen).
    injection Hk as -> ->. simpl in *. lia.
  - destruct (run r i (String c rest) [] (fun e _ cs => Some (e, cs)))
      as [[e cs]|] eqn:E.
    + injection H as <-. apply run_inv in E as (i' & cs' & Hk & Hle & Hlen).
      injection Hk as -> ->. simpl in *. lia.
    + apply IH in H. simpl. lia.
Qed.

End RegexFacts.

Section SplitFacts.

(** Every part costs its length and one separator. *)
Definition weight (parts : list string) : nat :=
  fold_right (fun p n => S (slen p) + n) 0 parts.

Lemma weight_app l1 l2 : weight (l1 ++ l2)%list = weight l1 + weight l2.
Proof. induction l1 as [|p l1 IH]; simpl; [reflexivity | rewrite IH; lia]. Qed.

Lemma weight_in p l : In p l -> slen p + List.length l <= weight l.
Proof.
  induction l as [|q l IH]; simpl; [tauto|].
  assert (List.length l <= weight l).
  { clear. induction l; simpl; lia. }
  intros [-> | Hin]; [lia | apply IH in Hin; lia].
Qed.

Lemma splitLoop_weight sep s : forall parts cur d,
  weight (fst (splitLoop sep s parts cur d)) +
  slen (snd (splitLoop sep s parts cur d)) <= weight parts + slen cur + slen s.
Proof.
  induction s as [|c s IH]; intros parts cur d; cbn [splitLoop].
  - simpl. lia.
  - destruct (hasChar c openers).
    { specialize (IH parts (cur ++ String c "") (d + 1)%Z).
      rewrite length_append in IH. simpl in *. lia. }
    destruct (hasChar c closers).
    { specialize (IH parts (cur ++ String c "") (d - 1)%Z).
      rewrite length_append in IH. simpl in *. lia. }
    destruct (Ascii.eqb c sep && (d =? 0)%Z).
    { specialize (IH (parts ++ [trim cur])%list "" d).
      rewrite weight_app in IH. pose proof (length_trim cur).
      simpl in *. lia. }
    specialize (IH parts (cur ++ String c "") d).
    rewrite length_append in IH. simpl in *. lia.
Qed.

Lemma splitTop_weight sep s : weight (splitTop sep s) <= S (slen s).
Proof.
  unfold splitTop. pose proof (splitLoop_weight sep s [] "" 0%Z) as H.
  destruct (splitLoop sep s [] "" 0%Z) as [parts cur]. simpl in H.
  pose proof (length_trim cur).
  destruct (truthy (trim cur)); [rewrite weight_app; simpl|]; lia.
Qed.

Lemma splitTop_part_le sep s p : In p (splitTop sep s) -> slen p <= slen s.
Proof.
  intros Hin. pose proof (splitTop_weight sep s).
  pose proof (weight_in _ _ Hin).
  destruct (splitTop sep s); [contradiction|]. simpl in *. lia.
Qed.

Lemma splitTop_part_lt sep s p :
  1 < List.length (splitTop sep s) -> In p (splitTop sep s) -> slen p < slen s.
Proof.
  intros Hlen Hin. pose proof (splitTop_weight sep s).
  pose proof (weight_in _ _ Hin). lia.
Qed.

Lemma findParenLoop_bound s : forall i d e,
  findParenLoop s i d = Some e -> i <= e /\ e < i + slen s.
Proof.
  induction s as [|c s IH]; intros i d e H; cbn [findParenLoop] in H;
    [discriminate H|].
  cbv zeta in H.
  match type of H with
  | (if ?b then _ else _) = _ => destruct b
  end.
  - injection H as <-. simpl. lia.
  - apply IH in H. simpl. lia.
Qed.

Lemma findMatchingParen_bound s start e :
  findMatchingParen s start = Some e -> start <= e /\ e < slen s.
Proof.
  unfold findMatchingParen. intros H. apply findParenLoop_bound in H.
  rewrite length_drop in H. lia.
Qed.

End SplitFacts.

Section TranslatorFacts.

Lemma searchFrom_run r : forall rest i m,
  searchFrom r i rest = Some m ->
  exists rest',
    run r (f_index m) rest' [] (fun e _ cs => Some (e, cs))
      = Some (f_end m, f_caps m) /\
    slen rest' + f_index m = slen rest + i.
Proof.
  induction rest as [|c rest IH]; intros i m H; cbn [searchFrom] in H.
  - destruct (run r i "" [] (fun e _ cs => Some (e, cs))) as [[e cs]|] eqn:E;
      [|discriminate H].
    injection H as <-. exists "". simpl. split; [exact E | reflexivity].
  - destruct (run r i (String c rest) [] (fun e _ cs => Some (e, cs)))
      as [[e cs]|] eqn:E.
    + injection H as <-. exists (String c rest). simpl.
      split; [exact E | reflexivity].
    + apply IH in H as (rest' & Hrun & Hlen). exists rest'.
      split; [exact Hrun | simpl; lia].
Qed.

Lemma endsWith_cons p c s :
  endsWith p (String c s) = true -> String c s = p \/ endsWith p s = true.
Proof.
  unfold endsWith. intros H. apply andb_prop in H as [Hle Heq].
  apply Nat.leb_le in Hle. simpl in Hle.
  destruct (Nat.eq_dec (slen p) (S (slen s))) as [E|E].
  - left. cbn [String.length] in Heq. rewrite E, Nat.sub_diag in Heq.
    cbn [drop] in Heq. apply String.eqb_eq in Heq. exact Heq.
  - right. apply andb_true_intro. split; [apply Nat.leb_le; lia|].
    cbn [String.length] in Heq.
    replace (S (slen s) - slen p) with (S (slen s - slen p)) in Heq by lia.
    exact Heq.
Qed.

Lemma nilSuffix_found c : forall i,
  endsWith "| nil" c || endsWith "|nil" c = true ->
  exists m, searchFrom re_nilSuffix i c = Some m.
Proof.
  induction c as [|a c IH]; intros i H; [discriminate H|].
  cbn [searchFrom].
  destruct (run re_nilSuffix i (String a c) [] (fun e _ cs => Some (e, cs)))
    as [[e cs]|] eqn:E; [eexists; reflexivity|].
  apply IH. apply orb_prop in H as [H|H]; apply endsWith_cons in H as [H|H].
  - exfalso. rewrite H in E. vm_compute in E. discriminate E.
  - rewrite H. reflexivity.
  - exfalso. rewrite H in E. vm_compute in E. discriminate E.
  - rewrite H. apply orb_true_r.
Qed.

Lemma run_Seq a b i rest cs k :
  run (Seq a b) i rest cs k
  = run a i rest cs (fun i' rest' cs' => run b i' rest' cs' k).
Proof. reflexivity. Qed.

Lemma run_Lit s i rest cs k :
  run (Lit s) i rest cs k
  = match stripPrefix s rest with
    | Some rest' => k (i + slen s) rest' cs
    | None => None
    end.
Proof. reflexivity. Qed.

Lemma run_Group n a i rest cs k :
  run (Group n a) i rest cs k
  = run a i rest cs (fun i' rest' cs' => k i' rest' ((n, (i, i')) :: cs')).
Proof. reflexivity. Qed.

Lemma run_Bol i rest cs k :
  run Bol i rest cs k = if i =? 0 then k i rest cs else None.
Proof. reflexivity. Qed.

Lemma run_Eol i rest cs k :
  run Eol i rest cs k = if isEmpty rest then k i rest cs else None.
Proof. reflexivity. Qed.

Lemma nilSuffix_nonempty rest i e cs :
  run re_nilSuffix i rest [] (fun e _ cs => Some (e, cs)) = Some (e, cs) ->
  i < e.
Proof.
  unfold re_nilSuffix. cbn [seq]. rewrite run_Seq, run_Lit. intros H.
  destruct (stripPrefix "|" rest) as [rest'|] eqn:E; [|discriminate H].
  apply run_inv in H as (i' & cs' & Hk & Hle & _).
  injection Hk as <- <-. simpl in *. lia.
Qed.

Lemma nilBase_shorter c :
  endsWith "| nil" c || endsWith "|nil" c = true ->
  slen (replaceFirst re_nilSuffix [] c) < slen c.
Proof.
  intros H. unfold replaceFirst, exec.
  destruct (nilSuffix_found c 0 H) as [m Hm]. rewrite Hm.
  pose proof (searchFrom_bounds _ _ _ _ Hm) as (_ & _ & Hend).
  apply searchFrom_run in Hm as (rest' & Hrun & _).
  apply nilSuffix_nonempty in Hrun.
  cbn [expand]. rewrite !length_append, length_drop. simpl.
  pose proof (length_take_le (f_index m) c). lia.
Qed.

Lemma array_group_shorter c m :
  exec re_array c = Some m -> slen (group 1 c m) < slen c.
Proof.
  unfold exec. intros Hm.
  pose proof (searchFrom_bounds _ _ _ _ Hm) as (_ & _ & Hend).
  apply searchFrom_run in Hm as (rest' & Hrun & _).
  unfold re_array in Hrun. cbn [seq] in Hrun.
  rewrite run_Seq, run_Bol in Hrun.
  destruct (f_index m =? 0); [|discriminate Hrun].
  rewrite run_Seq, run_Group in Hrun.
  apply run_inv in Hrun as (i' & cs' & Hk & Hle & _).
  rewrite run_Seq, run_Lit in Hk.
  destruct (stripPrefix "[]" _); [|discriminate Hk].
  rewrite run_Eol in Hk.
  destruct (isEmpty s); [|discriminate Hk].
  injection Hk as He Hc. unfold group. rewrite <- Hc. cbn [lookup Nat.eqb].
  pose proof (length_slice_le (f_index m) i' c). simpl in *. lia.
Qed.

End TranslatorFacts.

Section Termination.

Lemma mapM_ext {A B : Type} (f g : A -> option B) l :
  (forall x, In x l -> f x = g x) -> mapM f l = mapM g l.
Proof.
  induction l as [|x l IH]; intros H; cbn [mapM]; [reflexivity|].
  rewrite (H x (or_introl eq_refl)), IH; [reflexivity|].
  intros y Hy. apply H. right. exact Hy.
Qed.

Lemma mapM_some {A B : Type} (f : A -> option B) l :
  (forall x, In x l -> f x <> None) -> mapM f l <> None.
Proof.
  induction l as [|x l IH]; intros H; cbn [mapM]; [discriminate|].
  specialize (H x (or_introl eq_refl)) as Hx.
  destruct (f x); [|contradiction].
  assert (mapM f l <> None) as Hl by (apply IH; intros y Hy; apply H; now right).
  destruct (mapM f l); [discriminate | contradiction].
Qed.

Lemma mapM_total {A B : Type} (f : A -> B) l :
  mapM (fun x => Some (f x)) l = Some (map f l).
Proof. induction l as [|x l IH]; cbn [mapM map]; [|rewrite IH]; reflexivity. Qed.

Lemma length_cutAtText needle s : slen (cutAtText needle s) <= slen s.
Proof.
  unfold cutAtText. destruct (indexOf needle s) as [i|]; [|lia].
  pose proof (length_trim (take i s)). pose proof (length_take i s). lia.
Qed.

Lemma length_cutAtMatch r s : slen (cutAtMatch r s) <= slen s.
Proof.
  unfold cutAtMatch. destruct (exec r s) as [m|]; [|lia].
  pose proof (length_trim (take (f_index m) s)).
  pose proof (length_take (f_index m) s). lia.
Qed.

Lemma length_stripInlineComments s : slen (stripInlineComments s) <= slen s.
Proof.
  unfold stripInlineComments.
  pose proof (length_cutAtText "  #" (cutAtText " --" (trim s))).
  pose proof (length_cutAtText " --" (trim s)).
  pose proof (length_trim s). lia.
Qed.

Lemma length_returnClause rest : slen (returnClause rest) <= slen rest - 1.
Proof.
  unfold returnClause.
  pose proof (length_cutAtMatch re_inlineDesc (cutAtText " --" (trim (drop 1 rest)))).
  pose proof (length_cutAtText " --" (trim (drop 1 rest))).
  pose proof (length_trim (drop 1 rest)) as H2. rewrite length_drop in H2. lia.
Qed.

Lemma parseParam_type_bound t :
  truthy t = true -> slen (p_type (parseParam t)) <= slen t + 2.
Proof.
  intros Ht. apply truthy_length in Ht. unfold parseParam.
  destruct (startsWith "..." t) eqn:Ev.
  - apply prefix_length in Ev. simpl in Ev.
    destruct (indexOf ":" t) as [ci|]; cbn [p_type]; [|simpl; lia].
    rewrite length_append. pose proof (length_trim (drop (ci + 1) t)).
    rewrite length_drop in H. simpl. lia.
  - destruct (indexOf ":" t) as [ci|]; cbn [p_type]; [|simpl; lia].
    pose proof (length_trim (drop (ci + 1) t)). rewrite length_drop in H.
    destruct (endsWith "?" (trim (drop (ci + 1) t))); [|lia].
    pose proof (length_dropLast_le (trim (drop (ci + 1) t))). lia.
Qed.

Lemma parseParams_type_bound paramsStr p :
  In p (parseParams paramsStr) ->
  slen (p_type p) <= slen paramsStr + 2 /\ 1 <= slen paramsStr.
Proof.
  unfold parseParams. destruct (negb (truthy (trim paramsStr))); [contradiction|].
  intros Hin. apply in_map_iff in Hin as (t & <- & Hin).
  apply filter_In in Hin as [Hin Ht].
  apply in_map_iff in Hin as (q & <- & Hin).
  apply splitTop_part_le in Hin.
  pose proof (parseParam_type_bound _ Ht). pose proof (length_trim q).
  apply truthy_length in Ht. lia.
Qed.

Lemma isFunType_paren luaType startParen :
  isFunType luaType = true -> indexOf "(" luaType = Some startParen ->
  1 <= startParen.
Proof.
  intros Hf Hi. destruct luaType as [|c r]; [discriminate Hf|].
  assert (c = "f"%char) as ->.
  { unfold isFunType, startsWith in Hf. cbn [prefix] in Hf.
    destruct (ascii_dec "f" c) as [E|E]; [now subst|].
    discriminate Hf. }
  cbn [indexOf] in Hi.
  change (prefix "(" (String "f" r)) with false in Hi.
  destruct (indexOf "(" r); [|discriminate Hi]. injection Hi as <-. lia.
Qed.

Lemma convertReturn_ext rec1 rec2 rest bound :
  slen rest <= bound ->
  (forall t, slen t < S bound -> rec1 t = rec2 t) ->
  convertReturn rec1 rest = convertReturn rec2 rest.
Proof.
  intros Hb H. unfold convertReturn.
  destruct (startsWith ":" rest); [|reflexivity].
  pose proof (length_returnClause rest) as Hr. cbv zeta.
  destruct (1 <? List.length (splitByComma (returnClause rest))).
  - f_equal. apply mapM_ext. intros p Hin. apply H.
    apply splitTop_part_le in Hin. pose proof (length_trim p). lia.
  - apply H. lia.
Qed.

Lemma renderParams_ext rec1 rec2 params :
  (forall p, In p params -> rec1 (p_type p) = rec2 (p_type p)) ->
  renderParams rec1 params = renderParams rec2 params.
Proof.
  intros H. unfold renderParams.
  rewrite (mapM_ext (renderParam rec1) (renderParam rec2)); [reflexivity|].
  intros p Hin. unfold renderParam. rewrite (H p Hin). reflexivity.
Qed.

(** [parseFunType] translates only texts shorter than its argument, when
    that does not begin with the parenthesis. *)
Lemma parseFunTypeWith_ext rec1 rec2 luaType :
  isFunType luaType = true ->
  (forall t, slen t < slen luaType -> rec1 t = rec2 t) ->
  parseFunTypeWith rec1 luaType = parseFunTypeWith rec2 luaType.
Proof.
  intros Hf H. unfold parseFunTypeWith.
  destruct (indexOf "(" luaType) as [startParen|] eqn:Es; [|reflexivity].
  apply (isFunType_paren _ _ Hf) in Es.
  destruct (findMatchingParen luaType startParen) as [endParen|] eqn:Ee;
    [|reflexivity].
  apply findMatchingParen_bound in Ee as [Hse Hel]. cbv zeta.
  rewrite (convertReturn_ext rec1 rec2 _ (slen luaType - 1)).
  - rewrite (renderParams_ext rec1 rec2); [reflexivity|].
    intros p Hin. apply H. apply parseParams_type_bound in Hin.
    pose proof (length_slice_le (startParen + 1) endParen luaType). lia.
  - pose proof (length_trim (drop (endParen + 1) luaType)) as Ht.
    rewrite length_drop in Ht. lia.
  - intros t Ht. apply H. lia.
Qed.

(** Every recursive call of [convertLuaTypeToTS] is on a strictly
    shorter text: [convertStep] reads [rec] there only. *)
Lemma convertStep_ext rec1 rec2 luaType :
  (forall t, slen t < slen luaType -> rec1 t = rec2 t) ->
  convertStep rec1 luaType = convertStep rec2 luaType.
Proof.
  intros H0. unfold convertStep.
  pose proof (length_stripInlineComments luaType) as Hc.
  set (c := stripInlineComments luaType) in *. cbv zeta.
  assert (H : forall t, slen t < slen c -> rec1 t = rec2 t)
    by (intros t Ht; apply H0; lia).
  clear H0 Hc.
  destruct (negb (truthy c)) eqn:Etr; [reflexivity|].
  apply negb_false_iff in Etr.
  destruct (String.eqb c "nil"); [reflexivity|].
  destruct (endsWith "| nil" c || endsWith "|nil" c) eqn:Enil.
  { rewrite H; [reflexivity|]. pose proof (nilBase_shorter c Enil).
    pose proof (length_trim (replaceFirst re_nilSuffix [] c)). lia. }
  destruct (String.eqb c "number" || String.eqb c "integer"); [reflexivity|].
  destruct (String.eqb c "string"); [reflexivity|].
  destruct (String.eqb c "boolean"); [reflexivity|].
  destruct (String.eqb c "any"); [reflexivity|].
  destruct (String.eqb c "userdata"); [reflexivity|].
  destruct (String.eqb c "table"); [reflexivity|].
  destruct (String.eqb c "function"); [reflexivity|].
  destruct (endsWith "?" c && negb (includes "|" c)).
  { rewrite H; [reflexivity|]. apply length_dropLast. exact Etr. }
  destruct (includes "|" c && (1 <? List.length (splitUnion c))) eqn:Eu.
  { apply andb_prop in Eu as [_ Eu]. apply Nat.ltb_lt in Eu.
    f_equal. apply mapM_ext. intros p Hin. apply H.
    pose proof (splitTop_part_lt _ _ _ Eu Hin). pose proof (length_trim p). lia. }
  pose proof (length_sliceInner 1 c Etr) as Hin1.
  pose proof (length_sliceInner 6 c Etr) as Hin6.
  destruct (startsWith "(" c && endsWith ")" c).
  { destruct (1 <? List.length (splitByComma (sliceInner 1 c))).
    - f_equal. apply mapM_ext. intros p Hin. apply H.
      apply splitTop_part_le in Hin. pose proof (length_trim p). lia.
    - apply H. exact Hin1. }
  destruct (exec re_array c) as [m|] eqn:Ea.
  { rewrite H; [reflexivity|]. apply array_group_shorter. exact Ea. }
  assert (Ht : forall p,
             In p (if startsWith "table<" c && endsWith ">" c
                   then splitByComma (sliceInner 6 c) else []) ->
             slen (trim p) < slen c).
  { destruct (startsWith "table<" c && endsWith ">" c); [|contradiction].
    intros p Hin. apply splitTop_part_le in Hin. pose proof (length_trim p). lia. }
  destruct (if startsWith "table<" c && endsWith ">" c
            then splitByComma (sliceInner 6 c) else []) as [|k [|v [|w l]]];
    try (destruct (isFunType c) eqn:Ef;
         [apply parseFunTypeWith_ext; assumption | reflexivity]).
  rewrite (H (trim k)), (H (trim v)); [reflexivity| |]; apply Ht; simpl; tauto.
Qed.

(** Nothing fails: if the recursive calls return, so does the step. *)
Lemma convertReturn_some rec rest :
  (forall t, rec t <> None) -> convertReturn rec rest <> None.
Proof.
  intros H. unfold convertReturn. destruct (startsWith ":" rest); [|discriminate].
  cbv zeta. destruct (1 <? _); [|apply H].
  pose proof (mapM_some (fun t => rec (trim t)) (splitByComma (returnClause rest)))
    as Hm.
  destruct (mapM _ _); [discriminate|]. exfalso. apply Hm; [|reflexivity].
  intros x _. apply H.
Qed.

Lemma renderParams_some rec params :
  (forall t, rec t <> None) -> renderParams rec params <> None.
Proof.
  intros H. unfold renderParams.
  pose proof (mapM_some (renderParam rec) params) as Hm.
  destruct (mapM _ _); [discriminate|]. exfalso. apply Hm; [|reflexivity].
  intros p _. unfold renderParam. destruct (String.eqb _ _); [discriminate|].
  specialize (H (p_type p)). destruct (rec (p_type p)); [discriminate|contradiction].
Qed.

Lemma parseFunTypeWith_some rec luaType :
  (forall t, rec t <> None) -> parseFunTypeWith rec luaType <> None.
Proof.
  intros H. unfold parseFunTypeWith.
  destruct (indexOf "(" luaType); [|discriminate].
  destruct (findMatchingParen luaType n); [|discriminate]. cbv zeta.
  pose proof (convertReturn_some rec (trim (drop (n0 + 1) luaType)) H).
  destruct (convertReturn _ _); [|contradiction].
  pose proof (renderParams_some rec
                (parseParams (slice (n + 1) n0 luaType)) H).
  destruct (renderParams _ _); [discriminate|contradiction].
Qed.

Lemma convertStep_some rec luaType :
  (forall t, rec t <> None) -> convertStep rec luaType <> None.
Proof.
  intros H. unfold convertStep. cbv zeta.
  set (c := stripInlineComments luaType).
  assert (Hopt : forall (f : string -> string) t, option_map f (rec t) <> None).
  { intros f t. specialize (H t). destruct (rec t); [discriminate|contradiction]. }
  assert (Hmap : forall (f : list string -> string) l,
             option_map f (mapM (fun t => rec (trim t)) l) <> None).
  { intros f l. pose proof (mapM_some (fun t => rec (trim t)) l) as Hm.
    destruct (mapM _ _); [discriminate|]. exfalso. apply Hm; [|reflexivity].
    intros x _. apply H. }
  repeat match goal with
         | |- (if ?b then _ else _) <> None => destruct b
         | |- Some _ <> None => discriminate
         | |- option_map _ (rec _) <> None => apply Hopt
         | |- option_map _ (mapM _ _) <> None => apply Hmap
         | |- rec _ <> None => apply H
         end.
  destruct (exec re_array c); [apply Hopt|].
  destruct (if startsWith "table<" c && endsWith ">" c
            then splitByComma (sliceInner 6 c) else []) as [|k [|v [|w l]]];
    try (destruct (isFunType c);
         [apply parseFunTypeWith_some; assumption | discriminate]).
  pose proof (H (trim k)). pose proof (H (trim v)).
  destruct (rec (trim k)); [|contradiction].
  destruct (rec (trim v)); [discriminate|contradiction].
Qed.

Lemma convertFuel_stable : forall n m luaType,
  slen luaType < n -> slen luaType < m ->
  convertFuel n luaType = convertFuel m luaType.
Proof.
  induction n as [|n IH]; intros m s Hn Hm; [lia|].
  destruct m as [|m]; [lia|]. cbn [convertFuel].
  apply convertStep_ext. intros t Ht. apply IH; lia.
Qed.

Lemma convertFuel_enough : forall n luaType,
  slen luaType < n -> convertFuel n luaType <> None.
Proof.
  induction n as [|n IH]; intros s Hn; [lia|]. cbn [convertFuel].
  rewrite (convertStep_ext _
             (fun t => if slen t <? slen s then convertFuel n t else Some "")).
  - apply convertStep_some. intros t.
    destruct (slen t <? slen s) eqn:E; [|discriminate].
    apply Nat.ltb_lt in E. apply IH. lia.
  - intros t Ht. apply Nat.ltb_lt in Ht. rewrite Ht. reflexivity.
Qed.

Lemma convertFuel_value n luaType :
  slen luaType < n -> convertFuel n luaType = Some (convertLuaTypeToTS luaType).
Proof.
  intros Hn. unfold convertLuaTypeToTS.
  rewrite (convertFuel_stable (S (slen luaType)) n) by lia.
  pose proof (convertFuel_enough n luaType Hn).
  destruct (convertFuel n luaType); [reflexivity | contradiction].
Qed.

(** The equation of the script's recursive function. *)
Lemma convertLuaTypeToTS_eq luaType :
  Some (convertLuaTypeToTS luaType)
  = convertStep (fun t => Some (convertLuaTypeToTS t)) luaType.
Proof.
  rewrite <- (convertFuel_value (S (slen luaType))) by lia.
  cbn [convertFuel]. apply convertStep_ext.
  intros t Ht. apply convertFuel_value. lia.
Qed.

End Termination.

Section UnionFacts.

Lemma inList_true x l : inList x l = true <-> In x l.
Proof.
  unfold inList. rewrite existsb_exists. split.
  - intros (y & Hin & E). apply String.eqb_eq in E. now subst.
  - intros Hin. exists x. split; [exact Hin | apply String.eqb_refl].
Qed.

Lemma inList_cons x y l : inList x (y :: l) = String.eqb x y || inList x l.
Proof. reflexivity. Qed.

Lemma dedupeAcc_filter x : forall l seen seen',
  (forall y, inList y seen = inList y seen' || String.eqb y x) ->
  dedupeAcc seen l
  = dedupeAcc seen' (filter (fun y => negb (String.eqb y x)) l).
Proof.
  induction l as [|y r IH]; intros seen seen' Hs; cbn [dedupeAcc filter];
    [reflexivity|].
  rewrite (Hs y). destruct (String.eqb y x) eqn:E; cbn [negb].
  - rewrite orb_true_r. apply IH. exact Hs.
  - rewrite orb_false_r. cbn [dedupeAcc].
    destruct (inList y seen'); [apply IH; exact Hs|].
    f_equal. apply IH. intros z. rewrite !inList_cons, Hs.
    apply orb_assoc.
Qed.

(** [[...new Set(l)]] keeps the first occurrence of every element, in
    the order of [l]. *)
Lemma dedupe_cons x l :
  dedupe (x :: l) = x :: dedupe (filter (fun y => negb (String.eqb y x)) l).
Proof.
  unfold dedupe. cbn [dedupeAcc inList existsb]. f_equal.
  apply dedupeAcc_filter. intros y. rewrite inList_cons. cbn [inList existsb].
  now rewrite orb_false_r.
Qed.

Lemma dedupeAcc_in y : forall l seen,
  In y (dedupeAcc seen l) <-> In y l /\ inList y seen = false.
Proof.
  induction l as [|x r IH]; intros seen; cbn [dedupeAcc]; [cbn [In]; tauto|].
  destruct (inList x seen) eqn:E.
  - rewrite IH. cbn [In]. split; [tauto|].
    intros [[->|H] Hs]; [congruence|tauto].
  - cbn [In]. rewrite IH, inList_cons. split.
    + intros [->|[H Hs]]; [tauto|].
      apply orb_false_iff in Hs. tauto.
    + intros [[->|H] Hs]; [tauto|]. destruct (String.eqb_spec y x) as [Q|Q].
      * left. now symmetry.
      * right. split; [exact H | exact Hs].
Qed.

Lemma dedupeAcc_NoDup : forall l seen, NoDup (dedupeAcc seen l).
Proof.
  induction l as [|x r IH]; intros seen; cbn [dedupeAcc]; [constructor|].
  destruct (inList x seen); [apply IH|]. constructor; [|apply IH].
  rewrite dedupeAcc_in, inList_cons, String.eqb_refl. cbn [orb]. intros [_ H].
  discriminate H.
Qed.

Lemma dedupe_NoDup l : NoDup (dedupe l).
Proof. apply dedupeAcc_NoDup. Qed.

Lemma dedupe_In y l : In y (dedupe l) <-> In y l.
Proof. unfold dedupe. rewrite dedupeAcc_in. cbn [inList existsb]. tauto. Qed.

(** The loop reads its input from left to right. *)
Lemma splitLoop_app sep a b : forall parts cur d,
  splitLoop sep (a ++ b) parts cur d
  = splitLoop sep b (fst (splitLoop sep a parts cur d))
      (snd (splitLoop sep a parts cur d)) (d + netDepth a)%Z.
Proof.
  induction a as [|c a IH]; intros parts cur d; cbn [append splitLoop netDepth].
  - simpl. now rewrite Z.add_0_r.
  - unfold depthChange.
    destruct (hasChar c openers).
    { rewrite IH. f_equal. lia. }
    destruct (hasChar c closers).
    { rewrite IH. f_equal. lia. }
    destruct (Ascii.eqb c sep && (d =? 0)%Z); rewrite IH; f_equal; lia.
Qed.

Lemma includes_cons_false sep c s :
  includes (String sep "") (String c s) = false ->
  Ascii.eqb c sep = false /\ includes (String sep "") s = false.
Proof.
  unfold includes. cbn [indexOf prefix].
  destruct (ascii_dec sep c) as [E|E].
  - destruct s; discriminate.
  - intros H. split.
    + apply Ascii.eqb_neq. congruence.
    + destruct (indexOf (String sep "") s); [discriminate H | reflexivity].
Qed.

Lemma splitLoop_no_sep sep s : forall parts cur d,
  includes (String sep "") s = false ->
  fst (splitLoop sep s parts cur d) = parts.
Proof.
  induction s as [|c s IH]; intros parts cur d H; cbn [splitLoop];
    [reflexivity|].
  apply includes_cons_false in H as [Hc Hs]. rewrite Hc. cbn [andb].
  destruct (hasChar c openers); [now apply IH|].
  destruct (hasChar c closers); now apply IH.
Qed.

Lemma splitTop_includes sep s :
  1 < List.length (splitTop sep s) -> includes (String sep "") s = true.
Proof.
  intros H. destruct (includes (String sep "") s) eqn:E; [reflexivity|].
  exfalso. unfold splitTop in H.
  pose proof (splitLoop_no_sep sep s [] "" 0%Z E) as Hf.
  destruct (splitLoop sep s [] "" 0%Z) as [parts cur]. simpl in Hf. subst parts.
  destruct (truthy (trim cur)); simpl in H; lia.
Qed.

Lemma convert_union luaType :
  let t := stripInlineComments luaType in
  endsWith "| nil" t = false -> endsWith "|nil" t = false ->
  1 < List.length (splitUnion t) ->
  convertLuaTypeToTS luaType
  = join " | " (dedupe (map (fun p => convertLuaTypeToTS (trim p)) (splitUnion t))).
Proof.
  intros t Hn1 Hn2 Hparts.
  pose proof (splitTop_includes _ _ Hparts) as Hinc.
  pose proof (convertLuaTypeToTS_eq luaType) as Heq.
  unfold convertStep in Heq. cbv zeta in Heq. fold t in Heq.
  assert (Hne : forall k, includes "|" k = false -> String.eqb t k = false).
  { intros k Hk. destruct (String.eqb_spec t k) as [E|E]; [|reflexivity].
    rewrite E in Hinc. congruence. }
  rewrite Hn1, Hn2, Hinc in Heq.
  rewrite !Hne in Heq by reflexivity.
  assert (truthy t = true) as Ht.
  { destruct t; [discriminate Hinc | reflexivity]. }
  rewrite Ht in Heq. apply Nat.ltb_lt in Hparts. rewrite Hparts in Heq.
  cbn [negb orb andb] in Heq. rewrite andb_false_r in Heq.
  rewrite mapM_total in Heq. cbn [option_map] in Heq.
  now injection Heq.
Qed.

End UnionFacts.

Section ParserFacts.

Lemma searchFrom_Bol r : forall rest i,
  searchFrom (Seq Bol r) (S i) rest = None.
Proof.
  induction rest as [|c rest IH]; intros i; cbn [searchFrom];
    rewrite run_Seq, run_Bol; cbn [Nat.eqb]; [reflexivity | apply IH].
Qed.

(** A regular expression that begins with [^] matches at index 0 or
    not at all. *)
Lemma exec_anchored r s :
  exec (Seq Bol r) s
  = match run r 0 s [] (fun e _ cs => Some (e, cs)) with
    | Some (e, cs) => Some (mkFound 0 e cs)
    | None => None
    end.
Proof.
  unfold exec. destruct s as [|c s]; cbn [searchFrom];
    rewrite run_Seq, run_Bol; cbn [Nat.eqb].
  - destruct (run r 0 "" [] _) as [[e cs]|]; reflexivity.
  - destruct (run r 0 (String c s) [] _) as [[e cs]|]; [reflexivity|].
    apply searchFrom_Bol.
Qed.

Lemma stripPrefix_app p s r : stripPrefix p s = Some r -> s = p ++ r.
Proof.
  revert s; induction p as [|a p IH]; intros [|b s]; cbn [stripPrefix];
    intros H; try discriminate H.
  - now injection H as <-.
  - now injection H as <-.
  - destruct (Ascii.eqb_spec a b) as [->|]; [|discriminate H].
    apply IH in H. now subst.
Qed.

Lemma startsWith_app p s : startsWith p s = true -> exists r, s = p ++ r.
Proof.
  unfold startsWith. revert s; induction p as [|a p IH]; intros s H.
  - exists s. reflexivity.
  - destruct s as [|b s]; [discriminate H|]. cbn [prefix] in H.
    destruct (ascii_dec a b) as [->|]; [|discriminate H].
    apply IH in H as [r ->]. exists r. reflexivity.
Qed.

(** An anchored expression that begins with a literal matches only
    texts that begin with it. *)
Lemma exec_literal_prefix p r s :
  exec (Seq Bol (Seq (Lit p) r)) s <> None -> exists t, s = p ++ t.
Proof.
  rewrite exec_anchored, run_Seq, run_Lit.
  destruct (stripPrefix p s) as [t|] eqn:E; [|congruence].
  intros _. exists t. now apply stripPrefix_app.
Qed.

End ParserFacts.

Section LineFacts.

Lemma test_false r s : test r s = false -> exec r s = None.
Proof. unfold test. destruct (exec r s); [discriminate | reflexivity]. Qed.

Lemma test_true r s : test r s = true -> exec r s <> None.
Proof. unfold test. destruct (exec r s); [discriminate | discriminate]. Qed.

(** No declaration form matches a line that begins with a dash. *)
Lemma dash_not_declaration r :
  exec re_funcDecl ("-" ++ r) = None /\ exec re_funcColon ("-" ++ r) = None /\
  exec re_subclassAssign ("-" ++ r) = None.
Proof.
  unfold re_funcDecl, re_funcColon, re_subclassAssign. cbn [seq].
  rewrite !exec_anchored. lazy. auto.
Qed.

Lemma doc_not_declaration line :
  isDocLine line = true ->
  exec re_funcDecl (trim line) = None /\ exec re_funcColon (trim line) = None /\
  exec re_subclassAssign (trim line) = None.
Proof.
  unfold isDocLine. intros H. apply startsWith_app in H as [r ->].
  apply (dash_not_declaration ("--" ++ r)).
Qed.

Lemma step_doc st line :
  isDocLine line = true -> step st line = stepDoc st (lineContentOf line).
Proof.
  intros H. unfold step. cbv zeta.
  destruct (doc_not_declaration line H) as (-> & -> & ->).
  unfold isDocLine in H. rewrite H. reflexivity.
Qed.

(** The directives are told apart by their keyword. *)
Lemma field_not_other r :
  exec re_type ("@field" ++ r) = None /\ exec re_alias ("@field" ++ r) = None /\
  exec re_class ("@field" ++ r) = None /\ exec re_param ("@field" ++ r) = None /\
  exec re_return ("@field" ++ r) = None.
Proof.
  unfold re_type, re_alias, re_class, re_param, re_return. cbn [seq].
  rewrite !exec_anchored. lazy. auto.
Qed.

Lemma param_not_other r :
  exec re_type ("@param" ++ r) = None /\ exec re_alias ("@param" ++ r) = None /\
  exec re_class ("@param" ++ r) = None.
Proof.
  unfold re_type, re_alias, re_class. cbn [seq].
  rewrite !exec_anchored. lazy. auto.
Qed.

Lemma field_directive_prefix line :
  isFieldDirective line = true -> exists r, lineContentOf line = "@field" ++ r.
Proof.
  unfold isFieldDirective. intros H. apply andb_prop in H as [_ H].
  apply orb_prop in H as [H|H]; apply test_true in H;
    unfold re_indexSig, re_field in H; cbn [seq] in H;
    apply exec_literal_prefix in H; exact H.
Qed.

Lemma activeClass_None st : currentClass st = None -> activeClass st = None.
Proof. unfold activeClass. intros ->. reflexivity. Qed.

Lemma orphan_field_step st line :
  currentClass st = None -> isFieldDirective line = true -> step st line = st.
Proof.
  intros Hc Hf. pose proof Hf as Hd. unfold isFieldDirective in Hd.
  apply andb_prop in Hd as [Hd _]. rewrite (step_doc st line Hd).
  destruct (field_directive_prefix line Hf) as [r ->].
  unfold stepDoc.
  destruct (field_not_other r) as (-> & -> & -> & -> & ->).
  rewrite (activeClass_None st Hc).
  destruct (exec re_indexSig ("@field" ++ r));
    destruct (exec re_field ("@field" ++ r)); reflexivity.
Qed.

Lemma parseLines_app st l1 l2 :
  parseLines st (l1 ++ l2)%list = parseLines (parseLines st l1) l2.
Proof. unfold parseLines. apply fold_left_app. Qed.

Lemma parseLines_cons st l r :
  parseLines st (l :: r) = parseLines (step st l) r.
Proof. reflexivity. Qed.

End LineFacts.

Section FlushFacts.

Lemma underscore_not_function r :
  exec re_funcDecl ("_G." ++ r) = None /\ exec re_funcColon ("_G." ++ r) = None.
Proof.
  unfold re_funcDecl, re_funcColon. cbn [seq].
  rewrite !exec_anchored. lazy. auto.
Qed.

Lemma quiet_not_function line :
  isQuietLine line = true ->
  exec re_funcDecl (trim line) = None /\ exec re_funcColon (trim line) = None.
Proof.
  unfold isQuietLine. cbv zeta. intros H. apply andb_prop in H as [_ H].
  apply orb_prop in H as [H|H]; [apply orb_prop in H as [H|H]|].
  - destruct (trim line); [|discriminate H]. split; reflexivity.
  - apply startsWith_app in H as [r ->].
    destruct (dash_not_declaration ("-" ++ r)) as (H1 & H2 & _). auto.
  - apply startsWith_app in H as [r ->]. apply underscore_not_function.
Qed.

(** A quiet line keeps the pending annotations. *)
Lemma quiet_step st line :
  isQuietLine line = true ->
  pendingParams (step st line) = pendingParams st /\
  pendingReturn (step st line) = pendingReturn st /\
  currentDescription (step st line) = currentDescription st.
Proof.
  intros H. destruct (quiet_not_function line H) as [H1 H2].
  unfold step. cbv zeta. rewrite H1, H2.
  unfold isQuietLine, isDocLine in H. cbv zeta in H.
  apply andb_prop in H as [Hd Hq]. rewrite Hd, Hq.
  destruct (exec re_subclassAssign (trim line));
    destruct (activeClass st); cbn; auto.
Qed.

Lemma flush_step st line : isFlushLine line = true -> step st line = flush st.
Proof.
  unfold isFlushLine, isDeclarationLine, isFunctionLine, isQuietLine.
  cbv zeta. intros H.
  apply andb_prop in H as [H Hdecl]. apply andb_prop in H as [Hd Hq].
  rewrite Hd in Hq. cbn [andb] in Hq.
  apply negb_true_iff in Hdecl, Hq.
  apply orb_false_iff in Hdecl as [Hf Hs].
  apply orb_false_iff in Hf as [Hf1 Hf2].
  unfold step. cbv zeta.
  rewrite (test_false _ _ Hf1), (test_false _ _ Hf2), (test_false _ _ Hs).
  unfold isDocLine in Hd. rewrite Hd, Hq. reflexivity.
Qed.

(** Only the two [function] branches read [pendingParams]. *)
Lemma stepDoc_pending st pending lineContent :
  exists pending',
    stepDoc (withPending st pending) lineContent
    = withPending (stepDoc st lineContent) pending'.
Proof.
  destruct st as [cls als cur desc dme pp pr].
  unfold stepDoc, withPending, activeClass, withClasses, withDescription.
  cbn [classes aliases currentClass currentDescription detectedMainExport
       pendingParams pendingReturn].
  destruct (exec re_type lineContent); [eexists; reflexivity|].
  destruct (exec re_alias lineContent); [eexists; reflexivity|].
  destruct (exec re_class lineContent); [eexists; reflexivity|].
  destruct (exec re_param lineContent); [eexists; reflexivity|].
  destruct (exec re_return lineContent); [eexists; reflexivity|].
  destruct (truthyOpt cur);
    destruct (exec re_indexSig lineContent);
    destruct (exec re_field lineContent);
    destruct cur;
    try (eexists; reflexivity);
    destruct (negb (startsWith "@" lineContent) && truthy (trim lineContent));
    eexists; reflexivity.
Qed.

Lemma step_pending st pending line :
  isFunctionLine line = false ->
  exists pending',
    step (withPending st pending) line = withPending (step st line) pending'.
Proof.
  unfold isFunctionLine. intros H. apply orb_false_iff in H as [H1 H2].
  unfold step. cbv zeta.
  rewrite (test_false _ _ H1), (test_false _ _ H2).
  assert (Ha : activeClass (withPending st pending) = activeClass st)
    by (destruct st; reflexivity).
  rewrite Ha.
  destruct (exec re_subclassAssign (trim line)); destruct (activeClass st);
    try (destruct st; eexists; reflexivity);
    destruct (negb (startsWith "---" (trim line)));
    try apply stepDoc_pending;
    destruct (isEmpty (trim line) || startsWith "--" (trim line)
              || startsWith "_G." (trim line));
    destruct st; eexists; reflexivity.
Qed.

Lemma parseLines_pending : forall mid st pending,
  (forall m, In m mid -> isFunctionLine m = false) ->
  exists pending',
    parseLines (withPending st pending) mid
    = withPending (parseLines st mid) pending'.
Proof.
  induction mid as [|m mid IH]; intros st pending H.
  - exists pending. reflexivity.
  - rewrite !parseLines_cons.
    destruct (step_pending st pending m (H m (or_introl eq_refl))) as [p' ->].
    apply IH. intros x Hx. apply H. now right.
Qed.

(** A [@param] directive only appends to [pendingParams]. *)
Lemma param_step st line :
  isParamDirective line = true ->
  exists pending', step st line = withPending st pending'.
Proof.
  unfold isParamDirective. intros H. apply andb_prop in H as [Hd Hp].
  rewrite (step_doc st line Hd). apply test_true in Hp.
  pose proof Hp as Hq. unfold re_param in Hq. cbn [seq] in Hq.
  apply exec_literal_prefix in Hq as [r Hr]. rewrite Hr in *.
  unfold stepDoc. destruct (param_not_other r) as (-> & -> & ->).
  destruct (exec re_param ("@param" ++ r)); [|contradiction].
  destruct st. eexists. reflexivity.
Qed.

Lemma flush_withPending st pending : flush (withPending st pending) = flush st.
Proof. reflexivity. Qed.

Lemma resultOf_withPending st pending :
  resultOf (withPending st pending) = resultOf st.
Proof. reflexivity. Qed.

Lemma dangling_param_flushed st l mid f post :
  isParamDirective l = true ->
  (forall m, In m mid -> isFunctionLine m = false) ->
  isFlushLine f = true ->
  parseLines st (l :: mid ++ f :: post) = parseLines st (mid ++ f :: post).
Proof.
  intros Hl Hmid Hf. rewrite parseLines_cons.
  destruct (param_step st l Hl) as [p ->].
  rewrite !parseLines_app, !parseLines_cons.
  destruct (parseLines_pending mid st p Hmid) as [p' ->].
  rewrite !(flush_step _ f Hf), flush_withPending. reflexivity.
Qed.

Lemma dangling_param_at_end st l mid :
  isParamDirective l = true ->
  (forall m, In m mid -> isFunctionLine m = false) ->
  resultOf (parseLines st (l :: mid)) = resultOf (parseLines st mid).
Proof.
  intros Hl Hmid. rewrite parseLines_cons.
  destruct (param_step st l Hl) as [p ->].
  destruct (parseLines_pending mid st p Hmid) as [p' ->].
  apply resultOf_withPending.
Qed.

End FlushFacts.

Section ClassFacts.

Lemma mapHas_mapSet {V : Type} c k (v : V) m :
  mapHas c (mapSet k v m) = String.eqb k c || mapHas c m.
Proof.
  unfold mapHas. induction m as [|[k' v'] m IH]; cbn [mapSet mapGet].
  - destruct (String.eqb k c); reflexivity.
  - destruct (String.eqb_spec k' k) as [->|Hk]; cbn [mapGet].
    + destruct (String.eqb k c); reflexivity.
    + destruct (String.eqb k' c); [now rewrite orb_true_r | exact IH].
Qed.

Lemma mapHas_ensureClass c n cs :
  mapHas c (ensureClass n cs) = String.eqb n c || mapHas c cs.
Proof.
  unfold ensureClass. destruct (mapHas n cs) eqn:E.
  - destruct (String.eqb_spec n c) as [<-|]; [now rewrite E | reflexivity].
  - apply mapHas_mapSet.
Qed.

Lemma mapHas_updateClass c n f cs :
  mapHas c (updateClass n f cs) = mapHas c cs.
Proof.
  unfold mapHas. induction cs as [|[k v] cs IH]; cbn [updateClass mapGet];
    [reflexivity|].
  destruct (String.eqb k n); cbn [mapGet]; destruct (String.eqb k c);
    try reflexivity. exact IH.
Qed.

Lemma stepDoc_classKnown st lineContent :
  classKnown st -> classKnown (stepDoc st lineContent).
Proof.
  destruct st as [cls als cur desc dme pp pr]. unfold classKnown, stepDoc.
  unfold activeClass, withClasses, withDescription.
  cbn [classes aliases currentClass currentDescription detectedMainExport
       pendingParams pendingReturn].
  intros H.
  destruct (exec re_type lineContent); [exact H|].
  destruct (exec re_alias lineContent); [exact H|].
  destruct (exec re_class lineContent) as [m|].
  { cbn [classes currentClass]. intros c [= <-].
    rewrite mapHas_ensureClass, String.eqb_refl. reflexivity. }
  destruct (exec re_param lineContent); [exact H|].
  destruct (exec re_return lineContent); [exact H|].
  destruct (truthyOpt cur);
    destruct (exec re_indexSig lineContent);
    destruct (exec re_field lineContent);
    destruct cur;
    try (destruct (negb (startsWith "@" lineContent) && truthy (trim lineContent)));
    cbn [classes currentClass]; intros c Hc;
    rewrite ?mapHas_updateClass; auto.
Qed.

Lemma step_classKnown st line : classKnown st -> classKnown (step st line).
Proof.
  intros H. unfold step. cbv zeta.
  destruct (exec re_funcDecl (trim line)).
  { unfold declareDot, attachMethod. cbv zeta. intros c Hc.
    cbn [classes currentClass] in *.
    rewrite mapHas_updateClass, mapHas_ensureClass, (H c Hc).
    apply orb_true_r. }
  destruct (exec re_funcColon (trim line)).
  { unfold declareColon, attachMethod. cbv zeta. intros c Hc.
    cbn [classes currentClass] in *.
    rewrite mapHas_updateClass, mapHas_ensureClass, (H c Hc).
    apply orb_true_r. }
  assert (Hsub : forall m cur, classKnown (declareSubclass st (trim line) m cur)).
  { intros m cur c Hc. unfold declareSubclass in *. cbv zeta in *.
    cbn [classes currentClass] in *.
    rewrite mapHas_updateClass, mapHas_ensureClass, (H c Hc).
    apply orb_true_r. }
  assert (Hrest : classKnown
                    (if negb (startsWith "---" (trim line))
                     then if isEmpty (trim line) || startsWith "--" (trim line)
                             || startsWith "_G." (trim line)
                          then st else flush st
                     else stepDoc st (replaceFirst re_docMarker [] (trim line)))).
  { destruct (negb (startsWith "---" (trim line)));
      [|apply stepDoc_classKnown; exact H].
    destruct (isEmpty (trim line) || startsWith "--" (trim line)
              || startsWith "_G." (trim line)); [exact H|].
    intros c Hc. apply H. exact Hc. }
  destruct (exec re_subclassAssign (trim line)); destruct (activeClass st);
    auto.
Qed.

Lemma parseLines_classKnown : forall lines st,
  classKnown st -> classKnown (parseLines st lines).
Proof.
  induction lines as [|l lines IH]; intros st H; [exact H|].
  rewrite parseLines_cons. apply IH. apply step_classKnown. exact H.
Qed.

(** Where the script calls [classes.get(currentClass)], the class is
    there: [updateClass] never meets an absent key on that path. *)
Lemma currentClass_present lines c :
  currentClass (parseLines initialState lines) = Some c ->
  mapHas c (classes (parseLines initialState lines)) = true.
Proof.
  apply (parseLines_classKnown lines initialState). intros x Hx. discriminate Hx.
Qed.

(** Only a [@class] directive sets [currentClass]. *)
Lemma step_currentClass st line :
  isClassDirective line = false ->
  currentClass (step st line) = currentClass st.
Proof.
  intros Hc. unfold step. cbv zeta.
  destruct (exec re_funcDecl (trim line)); [reflexivity|].
  destruct (exec re_funcColon (trim line)); [reflexivity|].
  assert (Hrest : currentClass
                    (if negb (startsWith "---" (trim line))
                     then if isEmpty (trim line) || startsWith "--" (trim line)
                             || startsWith "_G." (trim line)
                          then st else flush st
                     else stepDoc st (replaceFirst re_docMarker [] (trim line)))
                  = currentClass st).
  { destruct (startsWith "---" (trim line)) eqn:Hd; cbn [negb].
    - unfold isClassDirective, isDocLine in Hc. rewrite Hd in Hc.
      cbn [andb] in Hc. apply test_false in Hc. unfold lineContentOf in Hc.
      unfold stepDoc. rewrite Hc.
      destruct (exec re_type _); [reflexivity|].
      destruct (exec re_alias _); [reflexivity|].
      destruct (exec re_param _); [reflexivity|].
      destruct (exec re_return _); [reflexivity|].
      destruct (exec re_indexSig _); destruct (exec re_field _);
        destruct (activeClass st);
        try (destruct (negb (startsWith "@" _) && truthy _));
        reflexivity.
    - destruct (isEmpty (trim line) || startsWith "--" (trim line)
                || startsWith "_G." (trim line)); reflexivity. }
  destruct (exec re_subclassAssign (trim line)); destruct (activeClass st);
    auto.
Qed.

Lemma no_class_directive_no_class : forall lines st,
  (forall l, In l lines -> isClassDirective l = false) ->
  currentClass (parseLines st lines) = currentClass st.
Proof.
  induction lines as [|l lines IH]; intros st H; [reflexivity|].
  rewrite parseLines_cons, IH by (intros x Hx; apply H; now right).
  apply step_currentClass. apply H. now left.
Qed.

End ClassFacts.

Section FunTypeFacts.

Lemma renderParam_translated p :
  renderParam translated p
  = Some (if String.eqb (p_name p) "self" then "this: " ++ p_type p
          else positionalParam p).
Proof.
  unfold renderParam, translated, positionalParam.
  destruct (String.eqb (p_name p) "self"); reflexivity.
Qed.

Lemma renderParams_translated params :
  renderParams translated params
  = Some ((if firstIsSelf params then [] else ["this: void"]) +++
          map (fun p => if String.eqb (p_name p) "self"
                        then "this: " ++ p_type p else positionalParam p)
              params).
Proof.
  unfold renderParams.
  rewrite (mapM_ext _ (fun p => Some (if String.eqb (p_name p) "self"
                                      then "this: " ++ p_type p
                                      else positionalParam p)))
    by (intros p _; apply renderParam_translated).
  rewrite mapM_total. destruct (firstIsSelf params); reflexivity.
Qed.

Lemma convertReturn_translated rest :
  convertReturn translated rest
  = Some (if startsWith ":" rest then translateReturn (returnClause rest)
          else "void").
Proof.
  unfold convertReturn, translateReturn, translated. cbv zeta.
  destruct (startsWith ":" rest); [|reflexivity].
  destruct (1 <? _); [|reflexivity].
  rewrite mapM_total. reflexivity.
Qed.

(** The text [parseFunType] returns for a type with a delimited
    parameter list. *)
Lemma parseFunType_shape luaType startParen endParen :
  indexOf "(" luaType = Some startParen ->
  findMatchingParen luaType startParen = Some endParen ->
  let params := parseParams (slice (startParen + 1) endParen luaType) in
  let rest := trim (drop (endParen + 1) luaType) in
  parseFunType luaType
  = "(" ++
    join ", " ((if firstIsSelf params then [] else ["this: void"]) +++
               map (fun p => if String.eqb (p_name p) "self"
                             then "this: " ++ p_type p else positionalParam p)
                   params) ++
    ") => " ++
    (if startsWith ":" rest then translateReturn (returnClause rest) else "void").
Proof.
  intros Hs He params rest. unfold parseFunType, parseFunTypeWith.
  rewrite Hs, He. cbv zeta. fold translated.
  rewrite convertReturn_translated, renderParams_translated. reflexivity.
Qed.

Lemma no_self_map params :
  (forall p, In p params -> p_name p <> "self") ->
  firstIsSelf params = false /\
  map (fun p => if String.eqb (p_name p) "self"
                then "this: " ++ p_type p else positionalParam p) params
  = map positionalParam params.
Proof.
  intros H. split.
  - destruct params as [|p r]; [reflexivity|]. cbn [firstIsSelf].
    apply String.eqb_neq. apply H. now left.
  - apply map_ext_in. intros p Hp. apply H in Hp.
    apply String.eqb_neq in Hp. now rewrite Hp.
Qed.

End FunTypeFacts.

Section AliasFacts.

(** The object branch of [convertLuaAliasToTS] translates field types
    that are shorter than the alias body. *)
Lemma alias_field_shorter luaType part colonIdx :
  startsWith "{" (trim luaType) = true ->
  In part (splitByComma (trim (sliceInner 1 (trim luaType)))) ->
  indexOf ":" part = Some colonIdx ->
  slen (trim (drop (colonIdx + 1) part)) < slen luaType.
Proof.
  intros Hb Hin Hc. apply splitTop_part_le in Hin.
  pose proof (length_trim (drop (colonIdx + 1) part)) as H1.
  rewrite length_drop in H1.
  pose proof (length_trim (sliceInner 1 (trim luaType))) as H2.
  assert (truthy (trim luaType) = true) as Ht
    by (destruct (trim luaType); [discriminate Hb | reflexivity]).
  pose proof (length_sliceInner 1 _ Ht). pose proof (length_trim luaType).
  lia.
Qed.

Lemma splitUnion_bar a b :
  splitLoop "|" (a ++ String "|" b) [] "" 0%Z
  = if (netDepth a =? 0)%Z
    then splitLoop "|" b
           (fst (splitLoop "|" a [] "" 0%Z) ++ [trim (snd (splitLoop "|" a [] "" 0%Z))])%list
           "" 0%Z
    else splitLoop "|" b (fst (splitLoop "|" a [] "" 0%Z))
           (snd (splitLoop "|" a [] "" 0%Z) ++ "|") (netDepth a).
Proof.
  rewrite splitLoop_app. cbn [splitLoop]. 
  change (hasChar "|" openers) with false.
  change (hasChar "|" closers) with false.
  change (Ascii.eqb "|" "|") with true. cbn [andb]. rewrite Z.add_0_l.
  destruct (netDepth a =? 0)%Z eqn:E; [|reflexivity].
  apply Z.eqb_eq in E. rewrite E. reflexivity.
Qed.

End AliasFacts.

Section NullableFacts.

Lemma endsWith_length p s : endsWith p s = true -> slen p <= slen s.
Proof.
unfold endsWith. intros H. apply andb_prop in H as [H _].
now apply Nat.leb_le.
Qed.

(** The rule for a trailing [| nil] comes before the union rule. *)
Lemma convert_nullable luaType :
let t := stripInlineComments luaType in
endsWith "| nil" t || endsWith "|nil" t = true ->
convertLuaTypeToTS luaType
= convertLuaTypeToTS (trim (replaceFirst re_nilSuffix [] t)) ++ " | null".
Proof.
intros t H. pose proof (convertLuaTypeToTS_eq luaType) as Heq.
unfold convertStep in Heq. cbv zeta in Heq. fold t in Heq.
assert (4 <= slen t) as Hl.
{ apply orb_prop in H as [H|H]; apply endsWith_length in H; simpl in H; lia. }
assert (truthy t = true) as Ht by (destruct t; [simpl in Hl; lia | reflexivity]).
assert (String.eqb t "nil" = false) as Hn.
{ apply String.eqb_neq. intros E. rewrite E in Hl. simpl in Hl. lia. }
rewrite Ht, Hn, H in Heq. cbn [negb] in Heq. unfold translated in Heq.
cbn [option_map] in Heq. now injection Heq.
Qed.

End NullableFacts.

Section EnumFacts.

Lemma isNumericName_spec type :
  isNumericName type = true <->
  trim (toLowerCase type) = "number" \/ trim (toLowerCase type) = "integer".
Proof.
  unfold isNumericName. cbv zeta. rewrite orb_true_iff, !String.eqb_eq. tauto.
Qed.

End EnumFacts.

Section EmitterFacts.

Lemma filterClasses_incl classes patterns kv :
  In kv (filterClasses classes patterns) -> In kv classes.
Proof.
  unfold filterClasses. destruct patterns as [[|p ps]|]; auto.
  intros H. apply filter_In in H. tauto.
Qed.

Lemma NoDup_map_filter {A B : Type} (f : A -> B) (p : A -> bool) l :
  NoDup (map f l) -> NoDup (map f (filter p l)).
Proof.
  induction l as [|x l IH]; cbn [map filter]; intros H; [constructor|].
  inversion H as [|? ? Hn Hd]; subst.
  destruct (p x); [|auto]. cbn [map]. constructor; [|auto].
  intros Hin. apply Hn. apply in_map_iff in Hin as (y & Hy & Hin).
  apply in_map_iff. exists y. split; [exact Hy|].
  apply filter_In in Hin. tauto.
Qed.

Lemma filterClasses_NoDup classes patterns :
  NoDup (map fst classes) -> NoDup (map fst (filterClasses classes patterns)).
Proof.
  unfold filterClasses. destruct patterns as [[|p ps]|]; auto.
  apply NoDup_map_filter.
Qed.

(** With distinct keys, [enumClasses.has(className)] is the classifier
    on the class of that name. *)
Lemma enumClassNames_has (filtered : Map ParsedClass) kv :
  NoDup (map fst filtered) -> In kv filtered ->
  inList (fst kv) (enumClassNames filtered) = isEnumLikeClass (snd kv).
Proof.
  intros Hnd Hin. unfold enumClassNames.
  destruct (isEnumLikeClass (snd kv)) eqn:E.
  - apply inList_true. apply in_map_iff. exists kv. split; [reflexivity|].
    apply filter_In. split; assumption.
  - destruct (inList (fst kv) _) eqn:Ei; [|reflexivity].
    apply inList_true in Ei. apply in_map_iff in Ei as (kv' & Hk & Hin').
    apply filter_In in Hin' as [Hin' E'].
    assert (kv' = kv) as ->; [|congruence].
    clear E E'. induction filtered as [|x l IH]; [contradiction|].
    cbn [map] in Hnd. inversion Hnd as [|? ? Hn Hd]; subst.
    destruct Hin as [->|Hin]; destruct Hin' as [->|Hin'].
    + reflexivity.
    + exfalso. apply Hn. rewrite <- Hk. now apply in_map.
    + exfalso. apply Hn. rewrite Hk. now apply in_map.
    + now apply IH.
Qed.

Lemma flat_map_ext_in {A B : Type} (f g : A -> list B) l :
  (forall x, In x l -> f x = g x) -> flat_map f l = flat_map g l.
Proof.
  induction l as [|x l IH]; intros H; cbn [flat_map]; [reflexivity|].
  rewrite (H x (or_introl eq_refl)), IH; [reflexivity|].
  intros y Hy. apply H. now right.
Qed.

Lemma enumLines_spec filtered :
  NoDup (map fst filtered) ->
  enumLines filtered (enumClassNames filtered)
  = flat_map (fun kv => if isEnumLikeClass (snd kv)
                        then generateEnum (fst kv) (snd kv) +++ [""] else [])
             filtered.
Proof.
  intros H. unfold enumLines. apply flat_map_ext_in. intros kv Hin.
  now rewrite (enumClassNames_has filtered kv H Hin).
Qed.

Lemma interfaceLines_spec filtered :
  NoDup (map fst filtered) ->
  interfaceLines filtered (enumClassNames filtered)
  = flat_map (fun kv => if isEnumLikeClass (snd kv) then []
                        else generateInterface (fst kv) (snd kv)
                               (enumClassNames filtered) +++ [""])
             filtered.
Proof.
  intros H. unfold interfaceLines. apply flat_map_ext_in. intros kv Hin.
  rewrite (enumClassNames_has filtered kv H Hin).
  destruct (isEnumLikeClass (snd kv)); reflexivity.
Qed.

End EmitterFacts.

Section ReturnFacts.

Lemma return_not_other r :
  exec re_type ("@return" ++ r) = None /\ exec re_alias ("@return" ++ r) = None /\
  exec re_class ("@return" ++ r) = None /\ exec re_param ("@return" ++ r) = None.
Proof.
  unfold re_type, re_alias, re_class, re_param. cbn [seq].
  rewrite !exec_anchored. lazy. auto.
Qed.

(** A [@return] directive sets [pendingReturn] to the cleaned text. *)
Lemma return_step st line :
  isReturnDirective line = true ->
  exists m,
    exec re_return (lineContentOf line) = Some m /\
    step st line
    = withReturn st (Some (cleanReturn (group 1 (lineContentOf line) m))).
Proof.
  unfold isReturnDirective. intros H. apply andb_prop in H as [Hd Hp].
  rewrite (step_doc st line Hd). apply test_true in Hp.
  pose proof Hp as Hq. unfold re_return in Hq. cbn [seq] in Hq.
  apply exec_literal_prefix in Hq as [r Hr]. rewrite Hr in *.
  unfold stepDoc. destruct (return_not_other r) as (-> & -> & -> & ->).
  destruct (exec re_return ("@return" ++ r)) as [m|]; [|contradiction].
  exists m. split; reflexivity.
Qed.

Lemma returnClause_untouched t :
  trim t = t -> includes " --" t = false -> test re_inlineDesc t = false ->
  returnClause (String ":" t) = t.
Proof.
  intros Ht Hc Hd. unfold returnClause. cbn [drop]. rewrite Ht.
  unfold cutAtText. unfold includes in Hc.
  destruct (indexOf " --" t); [discriminate Hc|].
  unfold cutAtMatch. now rewrite (test_false _ _ Hd).
Qed.

End ReturnFacts.

Section CollisionFacts.

Lemma findIndex_none {A : Type} (p : A -> bool) l :
  (forall x, In x l -> p x = false) -> findIndex p l = None.
Proof.
  induction l as [|x l IH]; intros H; cbn [findIndex]; [reflexivity|].
  rewrite (H x (or_introl eq_refl)), IH; [reflexivity|].
  intros y Hy. apply H. now right.
Qed.

Lemma findIndex_first {A : Type} (p : A -> bool) pre e post :
  (forall x, In x pre -> p x = false) -> p e = true ->
  findIndex p (pre ++ e :: post) = Some (List.length pre).
Proof.
  induction pre as [|x pre IH]; intros H He; cbn [findIndex app List.length].
  - now rewrite He.
  - rewrite (H x (or_introl eq_refl)), IH; [reflexivity| |exact He].
    intros y Hy. apply H. now right.
Qed.

Lemma setNth_middle {A : Type} (x : A) pre e post :
  setNth (List.length pre) x (pre ++ e :: post) = (pre ++ x :: post)%list.
Proof.
  induction pre as [|y pre IH]; cbn [setNth app List.length];
    [reflexivity | now rewrite IH].
Qed.

(** The collision rule of the [@field] directive. *)
Lemma insertMethod_collision fieldName fieldType description c :
  let x := mkField fieldName fieldType description true in
  ((forall f, In f (fields c) -> pf_name f <> fieldName) ->
   fields (insertMethod fieldName fieldType description c)
   = (fields c ++ [x])%list) /\
  (forall pre e post,
     fields c = (pre ++ e :: post)%list ->
     (forall f, In f pre -> pf_name f <> fieldName) ->
     pf_name e = fieldName ->
     fields (insertMethod fieldName fieldType description c)
     = if hasSelf fieldType && negb (hasSelf (pf_type e))
       then (pre ++ x :: post)%list else fields c).
Proof.
  intros x. split.
  - intros H. unfold insertMethod. cbv zeta. rewrite findIndex_none.
    + reflexivity.
    + intros f Hf. apply String.eqb_neq. apply H. exact Hf.
  - intros pre e post Hc Hpre He. unfold insertMethod. cbv zeta. rewrite Hc.
    rewrite findIndex_first.
    + rewrite nth_error_app2, Nat.sub_diag by lia. cbn [nth_error].
      destruct (hasSelf fieldType && negb (hasSelf (pf_type e)));
        cbn [fields]; [apply setNth_middle | exact Hc].
    + intros f Hf. apply String.eqb_neq. apply Hpre. exact Hf.
    + apply String.eqb_eq. exact He.
Qed.

(** Two [@field] directives for one method leave one entry, the one
    with the receiver, in either order. *)
Lemma field_directives_collide :
  map (fun f => (pf_name f, pf_type f))
      (flat_map (fun kv => fields (snd kv))
         (pr_classes
            (resultOf
               (parseLines initialState
                  ["--- @class foo"; "--- @field bar fun(): number";
                   "--- @field bar fun(self: foo): number"]))))
  = [("bar", "fun(self: foo): number")] /\
  map (fun f => (pf_name f, pf_type f))
      (flat_map (fun kv => fields (snd kv))
         (pr_classes
            (resultOf
               (parseLines initialState
                  ["--- @class foo"; "--- @field bar fun(self: foo): number";
                   "--- @field bar fun(): number"]))))
  = [("bar", "fun(self: foo): number")].
Proof. split; vm_compute; reflexivity. Qed.

End CollisionFacts.

Section LiteralFacts.

Lemma append_empty s : s ++ "" = s.
Proof. induction s as [|c s IH]; simpl; [reflexivity | now rewrite IH]. Qed.

Lemma append_assoc (a b c : string) : (a ++ b) ++ c = a ++ b ++ c.
Proof. induction a as [|x a IH]; simpl; [reflexivity | now rewrite IH]. Qed.

Lemma stripPrefix_is_prefix p : forall s,
match stripPrefix p s with Some _ => true | None => false end = prefix p s.
Proof.
induction p as [|a p IH]; intros [|b s]; cbn [stripPrefix prefix];
  try reflexivity.
destruct (Ascii.eqb_spec a b) as [->|Hn].
- destruct (ascii_dec b b); [apply IH | contradiction].
- destruct (ascii_dec a b); [contradiction | reflexivity].
Qed.

Lemma searchFrom_Lit p : forall rest i,
searchFrom (Lit p) i rest
= option_map (fun k => mkFound (i + k) (i + k + slen p) []) (indexOf p rest).
Proof.
assert (Hrun : forall i rest,
           run (Lit p) i rest [] (fun e _ cs => Some (e, cs))
           = if prefix p rest then Some (i + slen p, []) else None).
{ intros i rest. rewrite run_Lit, <- stripPrefix_is_prefix.
  destruct (stripPrefix p rest); reflexivity. }
induction rest as [|c rest IH]; intros i; cbn [searchFrom indexOf];
  rewrite Hrun.
- destruct (prefix p ""); cbn [option_map]; [|reflexivity].
  now rewrite Nat.add_0_r.
- destruct (prefix p (String c rest)); cbn [option_map].
  + now rewrite Nat.add_0_r.
  + rewrite IH. destruct (indexOf p rest) as [k|]; cbn [option_map];
      [|reflexivity].
    replace (S i + k) with (i + S k) by lia. reflexivity.
Qed.

(** The [g] replacement of a literal is [replaceLiteral]. *)
Lemma replaceLoop_Lit p q s : forall fuel i rest,
truthy p = true ->
replaceLoop fuel (Lit p) [TLit q] s i rest = replaceLiteral fuel p q rest.
Proof.
induction fuel as [|fuel IH]; intros i rest Hp; cbn [replaceLoop replaceLiteral];
  [reflexivity|].
rewrite searchFrom_Lit. destruct (indexOf p rest) as [k|]; cbn [option_map];
  [|reflexivity].
cbn [f_index f_end expand]. apply truthy_length in Hp.
replace (i + k + slen p =? i + k) with false
  by (symmetry; apply Nat.eqb_neq; lia).
replace (i + k - i) with k by lia.
replace (i + k + slen p - i) with (k + slen p) by lia.
rewrite append_empty, IH by (destruct p; [simpl in Hp; lia | reflexivity]).
reflexivity.
Qed.

Lemma fixAll_literal p q s :
truthy p = true -> fixAll p q s = replaceLiteral (S (slen s)) p q s.
Proof. intros Hp. unfold fixAll, replaceAll. now apply replaceLoop_Lit. Qed.

Lemma includes_cons p c s :
includes p (String c s) = prefix p (String c s) || includes p s.
Proof.
unfold includes. cbn [indexOf]. destruct (prefix p (String c s)); [reflexivity|].
destruct (indexOf p s); reflexivity.
Qed.

Lemma includes_nil p : includes p "" = prefix p "".
Proof. unfold includes. cbn [indexOf]. destruct (prefix p ""); reflexivity. Qed.

Lemma replaceLiteral_absent fuel p q s :
includes p s = false -> replaceLiteral fuel p q s = s.
Proof.
unfold includes. destruct fuel; cbn [replaceLiteral]; [reflexivity|].
destruct (indexOf p s); [discriminate | reflexivity].
Qed.

(** A prefix of a concatenation is a prefix of the first part or runs
  over its end. *)
Lemma prefix_app p : forall a z,
prefix p (a ++ z) = true ->
prefix p a = true \/
(slen a < slen p /\ prefix (drop (slen a) p) z = true).
Proof.
induction p as [|x p IH]; intros a z H.
- left. destruct a; reflexivity.
- destruct a as [|y a].
  + right. simpl. split; [lia | exact H].
  + cbn [append prefix] in H |- *. destruct (ascii_dec x y); [|discriminate H].
    apply IH in H as [H|[Hl H]]; [left; exact H|].
    right. simpl. split; [lia | exact H].
Qed.

Lemma prefix_extend p : forall a z, prefix p a = true -> prefix p (a ++ z) = true.
Proof.
induction p as [|x p IH]; intros a z H; [destruct (a ++ z); reflexivity|].
destruct a as [|y a]; [discriminate H|].
cbn [append prefix] in H |- *. destruct (ascii_dec x y); [|discriminate H].
now apply IH.
Qed.

Lemma includes_extend p : forall a z,
includes p (a ++ z) = false -> includes p a = false.
Proof.
induction a as [|c a IH]; intros z H.
- rewrite includes_nil. destruct (prefix p "") eqn:E; [|reflexivity].
  exfalso. destruct p; [|discriminate E]. destruct z; discriminate H.
- cbn [append] in H. rewrite includes_cons in H |- *.
  apply orb_false_iff in H as [H1 H2]. apply orb_false_iff. split.
  + destruct (prefix p (String c a)) eqn:E; [|reflexivity].
    apply (prefix_extend _ _ z) in E. cbn [append] in E. congruence.
  + now apply (IH z).
Qed.

Lemma includes_drop p : forall n s, includes p s = false -> includes p (drop n s) = false.
Proof.
induction n as [|n IH]; intros s H; [exact H|].
destruct s as [|c s]; [exact H|]. cbn [drop]. apply IH.
rewrite includes_cons in H. now apply orb_false_iff in H.
Qed.

Lemma take_drop n : forall s, take n s ++ drop n s = s.
Proof.
induction n as [|n IH]; intros [|c s]; cbn [take drop append]; try reflexivity.
now rewrite IH.
Qed.

Lemma includes_take p n s : includes p s = false -> includes p (take n s) = false.
Proof. intros H. apply (includes_extend p _ (drop n s)). now rewrite take_drop. Qed.

(** Before the first occurrence there is none. *)
Lemma indexOf_first p : forall s k,
truthy p = true -> indexOf p s = Some k -> includes p (take k s) = false.
Proof.
induction s as [|c s IH]; intros k Hp H; cbn [indexOf] in H.
- destruct (prefix p "") eqn:E; [|discriminate H]. injection H as <-.
  cbn [take]. rewrite includes_nil. destruct p; [discriminate Hp | reflexivity].
- destruct (prefix p (String c s)) eqn:E.
  + injection H as <-. cbn [take]. rewrite includes_nil.
    destruct p; [discriminate Hp | reflexivity].
  + destruct (indexOf p s) as [j|] eqn:Ej; [|discriminate H].
    injection H as <-. cbn [take]. rewrite includes_cons.
    apply orb_false_iff. split; [|now apply IH].
    destruct (prefix p (String c (take j s))) eqn:E2; [|reflexivity].
    apply (prefix_extend _ _ (drop j s)) in E2. cbn [append] in E2.
    rewrite take_drop in E2. congruence.
Qed.

Lemma clash_not_prefix p : forall s z, clash p s = true -> prefix p (s ++ z) = false.
Proof.
induction p as [|a p IH]; intros [|b s] z H; cbn [clash] in H;
  try discriminate H.
cbn [append prefix]. destruct (Ascii.eqb_spec a b) as [->|Hn].
- destruct (ascii_dec b b); [now apply IH | reflexivity].
- destruct (ascii_dec a b); [contradiction | reflexivity].
Qed.

Lemma clashesInside_spec p q y :
clashesInside p q = true -> includes p y = false -> includes p (q ++ y) = false.
Proof.
unfold clashesInside. intros H Hy.
assert (G : forall n d, d + n = slen q -> includes p (drop d q ++ y) = false).
{ induction n as [|n IH]; intros d Hd.
  - replace (drop d q) with "".
    + exact Hy.
    + symmetry. assert (slen (drop d q) = 0) by (rewrite length_drop; lia).
      destruct (drop d q); [reflexivity | discriminate].
  - assert (Hc : clash p (drop d q) = true).
    { rewrite forallb_forall in H. apply H. apply in_seq. lia. }
    destruct (drop d q) as [|c r] eqn:E.
    { assert (slen (drop d q) = slen q - d) by apply length_drop.
      rewrite E in H0. simpl in H0. lia. }
    cbn [append]. rewrite includes_cons. apply orb_false_iff. split.
    + apply (clash_not_prefix p (String c r) y Hc).
    + specialize (IH (S d)). replace (drop (S d) q) with r in IH.
      * apply IH. lia.
      * replace (S d) with (d + 1) by lia. rewrite <- drop_drop, E. reflexivity. }
apply (G (slen q) 0). reflexivity.
Qed.

Lemma hasChar_drop c : forall n s, hasChar c s = false -> hasChar c (drop n s) = false.
Proof.
induction n as [|n IH]; intros [|d s] H; cbn [drop]; try exact H.
apply IH. cbn [hasChar] in H. now apply orb_false_iff in H.
Qed.

Lemma stopsBefore_spec p q a z :
stopsBefore p q = true -> truthy a = true ->
prefix p (a ++ q ++ z) = true -> prefix p a = true.
Proof.
intros H Ha Hp. apply prefix_app in Hp as [Hp|[Hl Hp]]; [exact Hp|].
exfalso. unfold stopsBefore in H.
destruct p as [|x p]; [discriminate H|]. destruct q as [|c q]; [discriminate H|].
apply negb_true_iff in H. apply truthy_length in Ha.
destruct (slen a) as [|n] eqn:En; [lia|]. cbn [drop] in Hp.
pose proof (hasChar_drop c n p H) as Hd.
destruct (drop n p) as [|y r] eqn:Er.
- assert (slen (drop n p) = slen p - n) by apply length_drop.
  rewrite Er in H0. simpl in *. lia.
- cbn [append prefix] in Hp. destruct (ascii_dec y c) as [->|]; [|discriminate Hp].
  cbn [hasChar] in Hd. rewrite Ascii.eqb_refl in Hd. discriminate Hd.
Qed.

(** Putting [q] between two texts that are free of [p] makes no
  occurrence of [p], when none can run into [q] or begin inside it. *)
Lemma includes_sandwich p q : forall a y,
stopsBefore p q = true -> clashesInside p q = true ->
includes p a = false -> includes p y = false ->
includes p (a ++ q ++ y) = false.
Proof.
induction a as [|c a IH]; intros y H1 H2 Ha Hy.
- cbn [append]. now apply clashesInside_spec.
- cbn [append]. rewrite includes_cons in Ha |- *.
  apply orb_false_iff in Ha as [Hp Ha]. apply orb_false_iff. split.
  + destruct (prefix p (String c (a ++ q ++ y))) eqn:E; [|reflexivity].
    apply (stopsBefore_spec p q (String c a) y H1 eq_refl) in E. congruence.
  + now apply IH.
Qed.

(** After the replacement of [p] by [q], a pattern [p'] that was absent,
  or [p] itself, is absent. *)
Lemma replaceLiteral_free p' p q : forall fuel s,
truthy p = true ->
stopsBefore p' q = true -> clashesInside p' q = true ->
(includes p' s = false \/ (p' = p /\ slen s < fuel)) ->
includes p' (replaceLiteral fuel p q s) = false.
Proof.
induction fuel as [|fuel IH]; intros s Hp H1 H2 Hs.
- destruct Hs as [Hs|[_ Hs]]; [exact Hs | lia].
- cbn [replaceLiteral]. destruct (indexOf p s) as [k|] eqn:Ek.
  + apply includes_sandwich; [exact H1 | exact H2 | |].
    * destruct Hs as [Hs|[-> _]]; [now apply includes_take|].
      now apply indexOf_first.
    * apply IH; [exact Hp | exact H1 | exact H2 |].
      destruct Hs as [Hs|[-> Hs]]; [left; now apply includes_drop|].
      right. split; [reflexivity|]. rewrite length_drop.
      apply truthy_length in Hp. apply indexOf_bound in Ek. lia.
  + destruct Hs as [Hs|[-> _]]; [exact Hs|].
    unfold includes. now rewrite Ek.
Qed.

(** The two replacements of [postProcessOwMenuApi] leave neither of
  their patterns behind, so the patch is idempotent. *)
Lemma postProcessOwMenuApi_idempotent content :
postProcessOwMenuApi (postProcessOwMenuApi content)
= postProcessOwMenuApi content.
Proof.
unfold postProcessOwMenuApi. cbv zeta. rewrite !fixAll_literal by reflexivity.
set (y1 := replaceLiteral (S (slen content)) "opts?: {):" "opts?: object):" content).
set (y2 := replaceLiteral (S (slen y1)) "opts?: {, " "opts?: object, " y1).
assert (F1 : includes "opts?: {):" y1 = false).
{ apply replaceLiteral_free; try reflexivity. right. split; [reflexivity | lia]. }
assert (F2 : includes "opts?: {):" y2 = false).
{ apply replaceLiteral_free; try reflexivity. left. exact F1. }
assert (F3 : includes "opts?: {, " y2 = false).
{ apply replaceLiteral_free; try reflexivity. right. split; [reflexivity | lia]. }
rewrite (replaceLiteral_absent _ _ _ y2 F2).
apply (replaceLiteral_absent _ _ _ y2 F3).
Qed.

End LiteralFacts.

Section TextFacts.

Lemma take_app a b : take (slen a) (a ++ b) = a.
Proof. induction a as [|c a IH]; cbn; [now destruct b | now rewrite IH]. Qed.

Lemma drop_app a b : drop (slen a) (a ++ b) = b.
Proof. induction a as [|c a IH]; [reflexivity | exact IH]. Qed.

Lemma drop_app_plus a b k : drop (slen a + k) (a ++ b) = drop k b.
Proof. now rewrite <- drop_drop, drop_app. Qed.

Lemma word_not_space c : isWord c = true -> isSpace c = false.
Proof.
  destruct c as [[] [] [] [] [] [] [] []]; vm_compute; congruence.
Qed.

Lemma allWord_noSpace : forall s, allWord s = true -> noSpace s = true.
Proof.
  induction s as [|c s IH]; [reflexivity|]. cbn [allWord noSpace].
  intros H. apply andb_prop in H as [Hc Hs].
  now rewrite (word_not_space c Hc), (IH Hs).
Qed.

End TextFacts.

Section TrimFacts.

Lemma trimEnd_idem s : trimEnd (trimEnd s) = trimEnd s.
Proof.
  induction s as [|c s IH]; cbn [trimEnd]; [reflexivity|].
  destruct (isSpace c && isEmpty (trimEnd s)) eqn:E; cbn [trimEnd];
    [reflexivity|].
  rewrite IH, E. reflexivity.
Qed.

Lemma trimStart_head s :
  trimStart s = "" \/ exists c r, trimStart s = String c r /\ isSpace c = false.
Proof.
  induction s as [|c s IH]; cbn [trimStart]; [now left|].
  destruct (isSpace c) eqn:E; [exact IH|]. right. eauto.
Qed.

Lemma trim_head c r :
  isSpace c = false -> trim (String c r) = String c (trimEnd r).
Proof.
  intros E. unfold trim. cbn [trimStart]. rewrite E. cbn [trimEnd].
  rewrite E. reflexivity.
Qed.

Lemma trim_idem s : trim (trim s) = trim s.
Proof.
  unfold trim at 2 3. destruct (trimStart_head s) as [->|[c [r [-> E]]]];
    [reflexivity|].
  cbn [trimEnd]. rewrite E. cbn [andb].
  rewrite (trim_head c _ E), trimEnd_idem. reflexivity.
Qed.

Lemma trimEnd_last s c :
  isSpace c = false -> trimEnd (s ++ String c "") = s ++ String c "".
Proof.
  intros E. induction s as [|d s IH]; cbn [append trimEnd].
  - rewrite E. reflexivity.
  - rewrite IH. destruct s; cbn [append isEmpty]; now rewrite andb_false_r.
Qed.

Lemma trimEnd_noSpace s : noSpace s = true -> trimEnd s = s.
Proof.
  induction s as [|c s IH]; cbn [noSpace trimEnd]; [reflexivity|].
  intros H. apply andb_prop in H as [Hc Hs]. apply negb_true_iff in Hc.
  rewrite (IH Hs), Hc. reflexivity.
Qed.

Lemma trim_noSpace s : noSpace s = true -> trim s = s.
Proof.
  intros H. unfold trim. destruct s as [|c s]; [reflexivity|].
  pose proof H as H'. cbn [noSpace] in H'. apply andb_prop in H' as [Hc _].
  apply negb_true_iff in Hc. cbn [trimStart]. rewrite Hc.
  now apply trimEnd_noSpace.
Qed.

Lemma noSpace_app a b : noSpace (a ++ b) = noSpace a && noSpace b.
Proof.
  induction a as [|c a IH]; cbn [append noSpace]; [reflexivity|].
  now rewrite IH, andb_assoc.
Qed.

End TrimFacts.

Section TrimmedTexts.

(** A trimmed, non-empty text begins with a character that is no white
    space, and [trimEnd] leaves it as it is. *)
Lemma trimmed_spec s :
  trim s = s -> truthy s = true ->
  headFails isSpace s = true /\ trimEnd s = s.
Proof.
  intros H Ht. destruct s as [|c s]; [discriminate Ht|].
  destruct (isSpace c) eqn:Hc.
  - exfalso. pose proof (length_trimEnd (trimStart (String c s))) as H1.
    pose proof (length_trimStart s) as H2.
    unfold trim in H. rewrite H in H1. cbn [trimStart] in H1.
    rewrite Hc in H1. cbn [String.length] in H1. lia.
  - split; [cbn [headFails]; now rewrite Hc|].
    unfold trim in H. cbn [trimStart] in H. now rewrite Hc in H.
Qed.

Lemma trimEnd_app_fixed s : forall a,
  trimEnd s = s -> truthy s = true -> trimEnd (a ++ s) = a ++ s.
Proof.
  intros a Hs Ht. induction a as [|c a IH]; [exact Hs|].
  cbn [append trimEnd]. rewrite IH.
  destruct (a ++ s) eqn:E; [|now rewrite andb_false_r].
  destruct a; [cbn [append] in E; subst s; discriminate Ht | discriminate E].
Qed.

End TrimmedTexts.

Section GreedyFacts.

Lemma run_Chr p i c r cs k :
  run (Chr p) i (String c r) cs k = if p c then k (S i) r cs else None.
Proof. reflexivity. Qed.

Lemma run_Chr_nil p i cs k : run (Chr p) i "" cs k = None.
Proof. reflexivity. Qed.

Lemma starLoop_backtrack p k t : forall a fuel i cs,
  allChars p a = true -> headFails p t = true -> slen a <= fuel ->
  starLoop (run (Chr p)) true k fuel i (a ++ t) cs = backtrack k i a t cs.
Proof.
  induction a as [|c a IH]; intros fuel i cs Ha Ht Hf.
  - cbn [append backtrack]. destruct fuel as [|fuel]; [reflexivity|].
    cbn [starLoop]. cbv zeta.
    destruct t as [|d t]; [now rewrite run_Chr_nil|]. cbn [headFails] in Ht.
    apply negb_true_iff in Ht. now rewrite run_Chr, Ht.
  - cbn [allChars] in Ha. apply andb_prop in Ha as [Hc Ha].
    cbn [String.length] in Hf. destruct fuel as [|fuel]; [lia|].
    cbn [append backtrack starLoop]. cbv zeta. rewrite run_Chr, Hc.
    replace (slen (String c (a ++ t)) <=? slen (a ++ t)) with false
      by (symmetry; apply Nat.leb_gt; cbn [String.length]; lia).
    rewrite (IH fuel (S i) cs Ha Ht) by lia. reflexivity.
Qed.

(** [Star] of a character class, entered on [a ++ t]. *)
Lemma run_Star_backtrack p k a t i cs :
  allChars p a = true -> headFails p t = true ->
  run (Star true (Chr p)) i (a ++ t) cs k = backtrack k i a t cs.
Proof.
  intros Ha Ht. change (run (Star true (Chr p)) i (a ++ t) cs k)
    with (starLoop (run (Chr p)) true k (slen (a ++ t)) i (a ++ t) cs).
  apply starLoop_backtrack; auto. rewrite length_append. lia.
Qed.

(** One or more characters of a class. *)
Lemma run_plus_backtrack p k c a t i cs :
  p c = true -> allChars p a = true -> headFails p t = true ->
  run (plus (Chr p)) i (String c (a ++ t)) cs k = backtrack k (S i) a t cs.
Proof.
  intros Hc Ha Ht. unfold plus. rewrite run_Seq, run_Chr, Hc.
  now apply run_Star_backtrack.
Qed.

Lemma backtrack_end k a t x : forall i cs,
  k (i + slen a) t cs = Some x -> backtrack k i a t cs = Some x.
Proof.
  induction a as [|c a IH]; intros i cs H; cbn [backtrack String.length] in *.
  - now rewrite Nat.add_0_r in H.
  - rewrite (IH (S i) cs); [reflexivity|].
    now replace (S i + slen a) with (i + S (slen a)) by lia.
Qed.

Lemma backtrack_first k t cs : forall a i,
  (forall j, 1 <= j -> j <= slen a -> k (i + j) (drop j (a ++ t)) cs = None) ->
  backtrack k i a t cs = k i (a ++ t) cs.
Proof.
  induction a as [|c a IH]; intros i H; [reflexivity|].
  cbn [backtrack]. rewrite IH.
  - specialize (H 1). cbn [drop append String.length] in H.
    replace (i + 1) with (S i) in H by lia. rewrite H by lia. reflexivity.
  - intros j Hj1 Hj2. specialize (H (S j)).
    cbn [drop append String.length] in H.
    replace (i + S j) with (S i + j) in H by lia. apply H; lia.
Qed.

Lemma backtrack_at k t cs x a2 : forall a1 i,
  k (i + slen a1) (a2 ++ t) cs = Some x ->
  (forall j, 1 <= j -> j <= slen a2 ->
     k (i + slen a1 + j) (drop j (a2 ++ t)) cs = None) ->
  backtrack k i (a1 ++ a2) t cs = Some x.
Proof.
  induction a1 as [|c a1 IH]; intros i Hk Hnone.
  - cbn [append String.length] in *. rewrite Nat.add_0_r in Hk.
    rewrite backtrack_first; [exact Hk|].
    intros j Hj1 Hj2. specialize (Hnone j Hj1 Hj2).
    now rewrite Nat.add_0_r in Hnone.
  - cbn [append backtrack String.length] in *.
    rewrite (IH (S i)); [reflexivity| |].
    + now replace (S i + slen a1) with (i + S (slen a1)) by lia.
    + intros j Hj1 Hj2. specialize (Hnone j Hj1 Hj2).
      now replace (S i + slen a1 + j) with (i + S (slen a1) + j) by lia.
Qed.

Lemma backtrack_none k t cs : forall a i,
  (forall j, j <= slen a -> k (i + j) (drop j (a ++ t)) cs = None) ->
  backtrack k i a t cs = None.
Proof.
  intros a i H. rewrite backtrack_first.
  - specialize (H 0). cbn [drop] in H. rewrite Nat.add_0_r in H. apply H. lia.
  - intros j _ Hj. now apply H.
Qed.

Lemma allWord_allChars s : allWord s = allChars isWord s.
Proof. induction s as [|c s IH]; [reflexivity|]. cbn. now rewrite IH. Qed.

Lemma noSpace_allChars s : noSpace s = allChars (fun c => negb (isSpace c)) s.
Proof. induction s as [|c s IH]; [reflexivity|]. cbn. now rewrite IH. Qed.

Lemma headFails_space_word c s :
  isWord c = true -> headFails isSpace (String c s) = true.
Proof. intros H. cbn [headFails]. now rewrite (word_not_space c H). Qed.

Lemma trimEnd_app_last a b c :
  lastChar a = Some c -> isSpace c = false -> trimEnd (a ++ b) = a ++ trimEnd b.
Proof.
  revert c. induction a as [|d a IH]; intros c Hl Hc; [discriminate Hl|].
  cbn [lastChar] in Hl. cbn [append trimEnd]. destruct a as [|e a].
  - injection Hl as ->. cbn [append]. now rewrite Hc.
  - rewrite (IH c Hl Hc). cbn [append isEmpty]. now rewrite andb_false_r.
Qed.

Lemma headFails_trimEnd p s :
  headFails p s = true -> headFails p (trimEnd s) = true.
Proof.
  destruct s as [|c s]; [reflexivity|]. cbn [headFails trimEnd].
  destruct (isSpace c && isEmpty (trimEnd s)); [reflexivity | auto].
Qed.

End GreedyFacts.

Section ReturnCuts.

Lemma take_all s : take (slen s) s = s.
Proof. induction s as [|c s IH]; cbn; [reflexivity | now rewrite IH]. Qed.

Lemma take_app_le : forall k u v, k <= slen u -> take k (u ++ v) = take k u.
Proof.
  induction k as [|k IH]; intros [|c u] v H; cbn in *; try reflexivity; [lia|].
  rewrite IH by lia. reflexivity.
Qed.

Lemma drop_app_le : forall n a b, n <= slen a -> drop n (a ++ b) = drop n a ++ b.
Proof.
  induction n as [|n IH]; intros [|c a] b H; cbn in *; try reflexivity; [lia|].
  apply IH. lia.
Qed.

Lemma trimStart_is_drop s : exists j, j <= slen s /\ trimStart s = drop j s.
Proof.
  induction s as [|c s [j [Hj IH]]]; [exists 0; split; [lia|reflexivity]|].
  cbn [trimStart]. destruct (isSpace c).
  - exists (S j). cbn. split; [lia | exact IH].
  - exists 0. split; [lia | reflexivity].
Qed.

Lemma trimEnd_is_prefix s : exists z, s = trimEnd s ++ z.
Proof.
  induction s as [|c s [z IH]]; [exists ""; reflexivity|].
  cbn [trimEnd]. destruct (isSpace c && isEmpty (trimEnd s)).
  - exists (String c s). reflexivity.
  - exists z. cbn [append]. now rewrite <- IH.
Qed.

(** [trim a] sits inside [a]. *)
Lemma trim_inside a :
  exists j z, j <= slen a /\ drop j a = trim a ++ z.
Proof.
  destruct (trimStart_is_drop a) as [j [Hj E]].
  destruct (trimEnd_is_prefix (trimStart a)) as [z Hz].
  exists j, z. split; [exact Hj|]. rewrite <- E. exact Hz.
Qed.

Lemma includes_trim p a : includes p a = false -> includes p (trim a) = false.
Proof.
  intros H. destruct (trim_inside a) as (j & z & _ & E).
  apply (includes_extend p _ z). rewrite <- E. now apply includes_drop.
Qed.

(** *** The first comment *)

Lemma prefix_long p x z :
  slen p <= slen x -> prefix p (x ++ z) = true -> prefix p x = true.
Proof.
  intros Hl H. apply prefix_app in H as [H|[Hlt _]]; [exact H | lia].
Qed.

Lemma indexOf_comment : forall a b,
  includes " --" (a ++ " -") = false ->
  indexOf " --" (a ++ " --" ++ b) = Some (slen a).
Proof.
  induction a as [|c a IH]; intros b H.
  - pose proof (prefix_extend " --" " --" b eq_refl) as P.
    cbn [append String.length] in P |- *. cbn [indexOf]. now rewrite P.
  - cbn [append] in H. rewrite includes_cons in H.
    apply orb_false_iff in H as [Hp Hi].
    change (String c a ++ " --" ++ b) with (String c (a ++ " --" ++ b)).
    cbn [String.length indexOf].
    destruct (prefix " --" (String c (a ++ " --" ++ b))) eqn:E.
    + exfalso.
      change (String c (a ++ " --" ++ b)) with (String c a ++ " --" ++ b) in E.
      replace (String c a ++ " --" ++ b) with ((String c a ++ " -") ++ "-" ++ b) in E
        by (now rewrite append_assoc).
      apply prefix_long in E.
      * cbn [append] in E. congruence.
      * rewrite length_append. cbn. lia.
    + rewrite (IH b Hi). reflexivity.
Qed.

(** *** Matches that look at three characters *)

Lemma searchFrom_skip r : forall a t i,
  (forall n, n < slen a -> run r (i + n) (drop n (a ++ t)) [] found_here = None) ->
  searchFrom r i (a ++ t) = searchFrom r (i + slen a) t.
Proof.
  induction a as [|c a IH]; intros t i H.
  - cbn [append String.length]. now rewrite Nat.add_0_r.
  - cbn [append searchFrom]. pose proof (H 0) as H0.
    rewrite Nat.add_0_r in H0. cbn [drop append] in H0.
    unfold found_here in H0. rewrite H0 by (cbn; lia).
    rewrite IH.
    + cbn [String.length]. f_equal. lia.
    + intros n Hn. specialize (H (S n)). cbn [drop append] in H.
      replace (S i + n) with (i + S n) by lia. apply H. cbn. lia.
Qed.

Lemma searchFrom_here r i s e cs :
  run r i s [] found_here = Some (e, cs) -> searchFrom r i s = Some (mkFound i e cs).
Proof.
  unfold found_here. intros H. destruct s; cbn [searchFrom]; now rewrite H.
Qed.

(** A regular expression whose match at a position is decided by the
    three characters there, whatever the index. *)
Section ThreeCharacters.

Variable r : re.
Variable hit : string -> bool.
Hypothesis Hhit : forall i s, matchesAt r i s = hit s.
Hypothesis Hlocal : forall s, hit s = hit (take 3 s).
Hypothesis Hextend : forall x z, hit x = true -> hit (x ++ z) = true.

Lemma hit_none i s : hit s = false -> run r i s [] found_here = None.
Proof.
  intros H. rewrite <- (Hhit i) in H. unfold matchesAt in H. unfold found_here.
  destruct (run r i s [] _); [discriminate H | reflexivity].
Qed.

Lemma hit_some i s :
  hit s = true -> exists e cs, run r i s [] found_here = Some (e, cs).
Proof.
  intros H. rewrite <- (Hhit i) in H. unfold matchesAt in H. unfold found_here.
  destruct (run r i s [] _) as [[e cs]|]; [eauto | discriminate H].
Qed.

Lemma searchFrom_none : forall s i,
  searchFrom r i s = None -> forall n, n <= slen s -> hit (drop n s) = false.
Proof.
  induction s as [|c s IH]; intros i H n Hn; cbn [searchFrom] in H.
  - destruct n; cbn [drop]; rewrite <- (Hhit i); unfold matchesAt;
      destruct (run r i "" [] _) as [[e cs]|]; (discriminate H || reflexivity).
  - destruct (run r i (String c s) [] _) as [[e cs]|] eqn:E; [discriminate H|].
    destruct n as [|n].
    + cbn [drop]. rewrite <- (Hhit i). unfold matchesAt. now rewrite E.
    + cbn [drop]. apply (IH (S i) H). cbn in Hn. lia.
Qed.

Lemma none_searchFrom : forall s i,
  (forall n, n <= slen s -> hit (drop n s) = false) -> searchFrom r i s = None.
Proof.
  induction s as [|c s IH]; intros i H; cbn [searchFrom].
  - pose proof (hit_none i "" (H 0 (Nat.le_refl _))) as E.
    unfold found_here in E. now rewrite E.
  - pose proof (hit_none i _ (H 0 (Nat.le_0_l _))) as E. cbn [drop] in E.
    unfold found_here in E. rewrite E. apply IH.
    intros n Hn. apply (H (S n)). cbn. lia.
Qed.

Lemma searchFrom_first a t i :
  (forall n, n < slen a -> hit (drop n (a ++ t)) = false) -> hit t = true ->
  exists m, searchFrom r i (a ++ t) = Some m /\ f_index m = i + slen a.
Proof.
  intros Hn Ht. rewrite searchFrom_skip by (intros n H; apply hit_none; auto).
  destruct (hit_some (i + slen a) t Ht) as (e & cs & E).
  rewrite (searchFrom_here _ _ _ _ _ E). eexists. split; reflexivity.
Qed.

Lemma test_hits s :
  test r s = false <-> forall n, n <= slen s -> hit (drop n s) = false.
Proof.
  unfold test, exec. split.
  - intros H. apply (searchFrom_none s 0).
    destruct (searchFrom r 0 s); [discriminate H | reflexivity].
  - intros H. now rewrite none_searchFrom.
Qed.

(** No match in a text, none in a prefix of it, none in its trimmed
    form. *)
Lemma test_prefix a x : test r (a ++ x) = false -> test r a = false.
Proof.
  rewrite !test_hits. intros H n Hn.
  destruct (hit (drop n a)) eqn:E; [|reflexivity].
  apply (Hextend _ x) in E. rewrite <- drop_app_le in E by exact Hn.
  rewrite H in E; [discriminate E|]. rewrite length_append. lia.
Qed.

Lemma test_trim a : test r a = false -> test r (trim a) = false.
Proof.
  rewrite !test_hits. intros H n Hn.
  destruct (trim_inside a) as (j & z & Hj & E).
  destruct (hit (drop n (trim a))) eqn:Eh; [|reflexivity].
  apply (Hextend _ z) in Eh. rewrite <- drop_app_le, <- E, drop_drop in Eh
    by exact Hn.
  assert (Hl : slen (trim a) <= slen a - j).
  { rewrite <- (length_drop j a), E, length_append. lia. }
  rewrite H in Eh; [discriminate Eh | lia].
Qed.

(** The cut at the first match, when the match begins with the two
    characters [c1], [c2] and none begins before. *)
Lemma cutAtMatch_first a c1 c2 t :
  test r (a ++ String c1 (String c2 "")) = false ->
  hit (String c1 (String c2 t)) = true ->
  cutAtMatch r (a ++ String c1 (String c2 t)) = trim a.
Proof.
  intros Hn Ht. rewrite test_hits in Hn.
  destruct (searchFrom_first a (String c1 (String c2 t)) 0) as (m & E & Hi);
    [|exact Ht|].
  - intros n Hl.
    change (String c1 (String c2 t)) with (String c1 (String c2 "") ++ t).
    rewrite <- append_assoc, drop_app_le by (rewrite length_append; lia).
    rewrite Hlocal, take_app_le, <- Hlocal.
    + apply Hn. rewrite length_append. lia.
    + rewrite length_drop, length_append. cbn [String.length]. lia.
  - unfold cutAtMatch, exec. rewrite E, Hi. cbn [Nat.add].
    now rewrite take_app.
Qed.

Lemma cutAtMatch_none s : test r s = false -> cutAtMatch r s = s.
Proof. intros H. unfold cutAtMatch. now rewrite (test_false _ _ H). Qed.

End ThreeCharacters.

Lemma descriptionAt_hit i s : matchesAt re_inlineDesc i s = descriptionAt s.
Proof.
  unfold matchesAt, re_inlineDesc. cbn [seq].
  destruct s as [|x [|y [|z s]]]; cbn [run stripPrefix descriptionAt].
  - reflexivity.
  - destruct (Ascii.eqb " " x); reflexivity.
  - destruct (Ascii.eqb " " x); [|reflexivity]. destruct (isUpper y); reflexivity.
  - destruct (Ascii.eqb " " x); [|reflexivity].
    destruct (isUpper y); [|reflexivity]. destruct (isLower z); reflexivity.
Qed.

Lemma descOrCommentAt_hit i s : matchesAt re_descOrComment i s = descOrCommentAt s.
Proof.
  unfold matchesAt, re_descOrComment, re_inlineDesc, descOrCommentAt. cbn [seq].
  destruct s as [|x [|y [|z s]]]; cbn [run stripPrefix descriptionAt commentAt].
  - reflexivity.
  - destruct (Ascii.eqb " " x); reflexivity.
  - destruct (Ascii.eqb " " x); [|reflexivity].
    destruct (isUpper y), (Ascii.eqb "-" y); reflexivity.
  - destruct (Ascii.eqb " " x); [|reflexivity].
    destruct (isUpper y), (isLower z), (Ascii.eqb "-" y), (Ascii.eqb "-" z);
      reflexivity.
Qed.

Lemma descriptionAt_local s : descriptionAt s = descriptionAt (take 3 s).
Proof. destruct s as [|x [|y [|z s]]]; reflexivity. Qed.

Lemma descriptionAt_extend x z :
  descriptionAt x = true -> descriptionAt (x ++ z) = true.
Proof. destruct x as [|a [|b [|c x]]]; try discriminate. auto. Qed.

Lemma descOrCommentAt_local s : descOrCommentAt s = descOrCommentAt (take 3 s).
Proof. destruct s as [|x [|y [|z s]]]; reflexivity. Qed.

Lemma descOrCommentAt_extend x z :
  descOrCommentAt x = true -> descOrCommentAt (x ++ z) = true.
Proof. destruct x as [|a [|b [|c x]]]; try discriminate. auto. Qed.

(** *** The return clause of [parseFunType] *)

Lemma cutAtText_none needle s : includes needle s = false -> cutAtText needle s = s.
Proof.
  unfold includes, cutAtText. destruct (indexOf needle s); [discriminate | reflexivity].
Qed.

Lemma returnClause_comment rest a b :
  trim (drop 1 rest) = a ++ " --" ++ b ->
  includes " --" (a ++ " -") = false ->
  returnClause rest = returnClause (String ":" a) /\
  (test re_inlineDesc (trim a) = false -> returnClause rest = trim a).
Proof.
  intros Ht Hn. unfold returnClause. rewrite Ht. cbn [drop].
  unfold cutAtText at 1. rewrite (indexOf_comment a b Hn), take_app. split.
  - rewrite (cutAtText_none " --" (trim a)); [reflexivity|].
    apply includes_trim. now apply (includes_extend _ _ " -").
  - unfold cutAtText. rewrite (indexOf_comment a b Hn), take_app.
    intros Hd. unfold cutAtMatch. now rewrite (test_false _ _ Hd).
Qed.

Lemma returnClause_description rest a U l b :
  trim (drop 1 rest) = a ++ String " " (String U (String l b)) ->
  isUpper U = true -> isLower l = true ->
  includes " --" (trim (drop 1 rest)) = false ->
  test re_inlineDesc (a ++ String " " (String U "")) = false ->
  returnClause rest = trim a.
Proof.
  intros Ht HU Hl Hc Hd. unfold returnClause.
  rewrite (cutAtText_none _ _ Hc), Ht.
  apply (cutAtMatch_first re_inlineDesc descriptionAt descriptionAt_hit
           descriptionAt_local); [exact Hd|].
  cbn [descriptionAt]. now rewrite HU, Hl.
Qed.

(** *** The clean-up of [@return] *)

Lemma cleanReturn_first_cut text a y z b :
  trim text = a ++ String " " (String y (String z b)) ->
  (isUpper y && isLower z) || (Ascii.eqb y "-" && Ascii.eqb z "-") = true ->
  test re_descOrComment (a ++ String " " (String y "")) = false ->
  cleanReturn text = cleanReturn a.
Proof.
  intros Ht Hyz Hn. unfold cleanReturn. rewrite Ht.
  rewrite (cutAtMatch_first re_descOrComment descOrCommentAt descOrCommentAt_hit
             descOrCommentAt_local a " " y (String z b) Hn).
  - rewrite (cutAtMatch_none re_descOrComment (trim a)); [reflexivity|].
    apply (test_trim re_descOrComment descOrCommentAt descOrCommentAt_hit
             descOrCommentAt_extend).
    exact (test_prefix re_descOrComment descOrCommentAt descOrCommentAt_hit
             descOrCommentAt_extend _ _ Hn).
  - unfold descOrCommentAt. cbn [descriptionAt commentAt].
    change (Ascii.eqb " " " ") with true. cbn [andb].
    rewrite (Ascii.eqb_sym "-" y), (Ascii.eqb_sym "-" z). exact Hyz.
Qed.

(** *** The trailing word *)

Lemma starLoop_needs_end p (k : cont) :
  (forall i r cs, truthy r = true -> k i r cs = None) ->
  forall fuel i s cs,
    allChars p s = false -> starLoop (run (Chr p)) true k fuel i s cs = None.
Proof.
  intros Hk. induction fuel as [|fuel IH]; intros i s cs Hs;
    (destruct s as [|c s]; [discriminate Hs|]); cbn [starLoop].
  - now apply Hk.
  - cbv zeta. rewrite run_Chr. cbn [allChars] in Hs.
    destruct (p c); cbn [andb] in Hs.
    + replace (slen (String c s) <=? slen s) with false
        by (symmetry; apply Nat.leb_gt; cbn [String.length]; lia).
      rewrite (IH _ _ _ Hs). now apply Hk.
    + now apply Hk.
Qed.

Lemma lower_is_word c : isLower c || Ascii.eqb c "_" = true -> isWord c = true.
Proof.
  destruct c as [[] [] [] [] [] [] [] []]; vm_compute; congruence.
Qed.

Lemma allWord_space u v : allWord (u ++ String " " v) = false.
Proof.
  induction u as [|c u IH]; cbn [append allWord]; [reflexivity|].
  rewrite IH. apply andb_false_r.
Qed.

Lemma trailingWord_fails i s :
  allWord (drop 1 s) = false -> run re_trailingWord i s [] found_here = None.
Proof.
  intros H. unfold re_trailingWord. cbn [seq]. rewrite run_Seq, run_Lit.
  destruct s as [|x s]; [reflexivity|]. cbn [stripPrefix drop] in *.
  destruct (Ascii.eqb " " x); [|reflexivity].
  rewrite run_Seq, run_Group, run_Seq.
  destruct s as [|d s]; [reflexivity|]. rewrite run_Chr.
  destruct (isLower d || Ascii.eqb d "_") eqn:Ed; [|reflexivity].
  unfold star, word.
  change (run (Star true (Chr isWord)) ?i ?r ?cs ?k)
    with (starLoop (run (Chr isWord)) true k (slen r) i r cs).
  apply starLoop_needs_end.
  - intros j r cs Hr. rewrite run_Eol. destruct r; [discriminate Hr | reflexivity].
  - rewrite <- allWord_allChars. cbn [allWord] in H.
    now rewrite (lower_is_word d Ed) in H.
Qed.

Lemma trailingWord_here i c w :
  isLower c || Ascii.eqb c "_" = true -> allWord w = true ->
  run re_trailingWord i (String " " (String c w)) [] found_here
  = Some (S (i + 1) + slen w, [(1, (i + 1, S (i + 1) + slen w))]).
Proof.
  intros Hc Hw. unfold re_trailingWord. cbn [seq]. rewrite run_Seq, run_Lit.
  cbn [stripPrefix]. change (Ascii.eqb " " " ") with true. cbv iota.
  rewrite run_Seq, run_Group, run_Seq, run_Chr, Hc. unfold star, word.
  rewrite <- (append_empty w) at 1.
  rewrite run_Star_backtrack by (rewrite <- ?allWord_allChars; auto).
  apply backtrack_end. rewrite run_Eol. reflexivity.
Qed.

Lemma trailingWord_exec T c w :
  isLower c || Ascii.eqb c "_" = true -> allWord w = true ->
  exists m,
    exec re_trailingWord (T ++ " " ++ String c w) = Some m /\
    f_index m = slen T /\
    group 1 (T ++ " " ++ String c w) m = String c w.
Proof.
  intros Hc Hw. unfold exec. rewrite searchFrom_skip.
  - cbn [append Nat.add].
    rewrite (searchFrom_here _ _ _ _ _ (trailingWord_here (slen T) c w Hc Hw)).
    eexists. split; [reflexivity|]. split; [reflexivity|].
    unfold group. cbn [f_caps lookup Nat.eqb]. unfold slice.
    rewrite drop_app_plus. cbn [drop].
    replace (S (slen T + 1) + slen w - (slen T + 1)) with (slen (String c w))
      by (cbn [String.length]; lia).
    apply take_all.
  - intros n Hn. apply trailingWord_fails.
    rewrite drop_drop, drop_app_le by lia. apply allWord_space.
Qed.

Lemma trimmed_app_word T w :
  trim T = T -> truthy T = true -> allWord w = true -> truthy w = true ->
  trim (T ++ " " ++ w) = T ++ " " ++ w.
Proof.
  intros HT Ht Hw Hn. destruct (trimmed_spec T HT Ht) as [Hh _].
  destruct T as [|t0 T]; [discriminate Ht|]. cbn [headFails] in Hh.
  apply negb_true_iff in Hh. cbn [append]. rewrite (trim_head _ _ Hh).
  f_equal. change (String " " w) with (" " ++ w). rewrite <- append_assoc.
  apply trimEnd_app_fixed; [|exact Hn].
  apply trimEnd_noSpace. now apply allWord_noSpace.
Qed.

Lemma cleanReturn_trailing_word T c w :
  trim T = T -> truthy T = true ->
  isLower c || Ascii.eqb c "_" = true -> allWord w = true ->
  inList (String c w) typeKeywords = false ->
  test re_descOrComment (T ++ " " ++ String c w) = false ->
  cleanReturn (T ++ " " ++ String c w) = if test re_wordGapWord T then "any" else T.
Proof.
  intros HT Ht Hc Hw Hk Hn. unfold cleanReturn.
  rewrite trimmed_app_word; auto.
  2:{ cbn [allWord]. now rewrite (lower_is_word c Hc). }
  rewrite (cutAtMatch_none _ _ Hn). unfold cutTrailingWord.
  destruct (trailingWord_exec T c w Hc Hw) as (m & -> & -> & ->).
  rewrite Hk. cbn [negb]. rewrite take_app, HT. reflexivity.
Qed.

Lemma keyword_shape w :
  inList w typeKeywords = true ->
  exists c r, w = String c r /\ isLower c || Ascii.eqb c "_" = true /\
              allWord r = true.
Proof.
  unfold inList. intros H. apply existsb_exists in H as [k [Hin Hk]].
  apply String.eqb_eq in Hk. subst k. cbn [typeKeywords In] in Hin.
  repeat (destruct Hin as [<-|Hin]; [do 2 eexists; repeat split; reflexivity|]).
  destruct Hin.
Qed.

Lemma cleanReturn_keyword T w :
  trim T = T -> truthy T = true -> inList w typeKeywords = true ->
  test re_descOrComment (T ++ " " ++ w) = false ->
  cleanReturn (T ++ " " ++ w)
  = if test re_wordGapWord (T ++ " " ++ w) then "any" else T ++ " " ++ w.
Proof.
  intros HT Ht Hk Hn. destruct (keyword_shape w Hk) as (c & r & -> & Hc & Hw).
  unfold cleanReturn. rewrite trimmed_app_word; auto.
  2:{ cbn [allWord]. now rewrite (lower_is_word c Hc). }
  rewrite (cutAtMatch_none _ _ Hn). unfold cutTrailingWord.
  destruct (trailingWord_exec T c r Hc Hw) as (m & -> & _ & ->).
  rewrite Hk. reflexivity.
Qed.

End ReturnCuts.

(** * The properties of the specification *)

(** C1.  The two [function] branches push without looking for an
    existing method: the dot form followed by the colon form leaves two
    [bar] methods on [foo], and so does the reverse order. *)
Theorem function_lines_keep_both_definitions :
  pr_classes
    (parseApiFile ("function foo.bar()" ++ String newline "function foo:bar()"))
  = [("foo",
      mkClass "foo"
        [mkField "bar" "fun(): void" None true;
         mkField "bar" "fun(self: foo): void" None true] [] [])] /\
  pr_classes
    (parseApiFile ("function foo:bar()" ++ String newline "function foo.bar()"))
  = [("foo",
      mkClass "foo"
        [mkField "bar" "fun(self: foo): void" None true;
         mkField "bar" "fun(): void" None true] [] [])].
Proof. split; vm_compute; reflexivity. Qed.

(** C2, counterexample.  The classifier looks at the lower-cased, trimmed
    source type, not at the translated type: a field typed ["Number"] is
    taken as numeric though its translation is ["Number"], and a field
    typed ["(number)"], whose translation is ["number"], is not. *)
Lemma enum_classifier_not_on_translated_type :
  (isEnumLikeClass capitalNumberClass = true /\
   ~ enumLikeBySpec capitalNumberClass) /\
  (isEnumLikeClass wrappedNumberClass = false /\
   enumLikeBySpec wrappedNumberClass).
Proof.
  split; split.
  - vm_compute. reflexivity.
  - intros (_ & _ & _ & H). inversion H as [|? ? Hx _]; subst.
    vm_compute in Hx. discriminate Hx.
  - vm_compute. reflexivity.
  - unfold enumLikeBySpec, wrappedNumberClass. cbn [dataFields fields indexSignatures].
    repeat match goal with |- _ /\ _ => split end;
      try discriminate; try reflexivity.
    constructor; [vm_compute; reflexivity | constructor].
Qed.

(** C2, amended.  A class is enum-like iff it has a data field, no
    method, no index signature, and the source type of every data field,
    lower-cased and trimmed, is [number] or [integer].  Two [integer]
    fields make an enum; any method unmakes it. *)
Theorem isEnumLikeClass_spec :
  (forall cls,
     isEnumLikeClass cls = true <->
     dataFields cls <> [] /\ fields cls = [] /\ indexSignatures cls = [] /\
     Forall (fun field =>
               trim (toLowerCase (df_type field)) = "number" \/
               trim (toLowerCase (df_type field)) = "integer")
            (dataFields cls)) /\
  (forall name a b da db oa ob,
     isEnumLikeClass
       (mkClass name [] [mkDataField a "integer" da oa; mkDataField b "integer" db ob] [])
     = true) /\
  (forall cls method, isEnumLikeClass (pushField method cls) = false).
Proof.
  split; [|split].
  - intros cls. unfold isEnumLikeClass. cbv zeta.
    destruct (dataFields cls) as [|d ds] eqn:Ed.
    { cbn. split; [discriminate | intros [H _]; congruence]. }
    destruct (fields cls) as [|f fs] eqn:Ef.
    2:{ cbn. split; [discriminate | intros (_ & H & _); discriminate H]. }
    destruct (indexSignatures cls) as [|sig sigs] eqn:Ei.
    2:{ cbn. split; [discriminate | intros (_ & _ & H & _); discriminate H]. }
    cbn [List.length Nat.ltb Nat.leb negb orb].
    rewrite forallb_forall, Forall_forall. split.
    + intros H. repeat split; try discriminate.
      intros x Hx. apply isNumericName_spec. apply H. exact Hx.
    + intros (_ & _ & _ & H) x Hx. apply isNumericName_spec. apply H. exact Hx.
  - intros. reflexivity.
  - intros cls method. unfold isEnumLikeClass, pushField. cbv zeta.
    cbn [fields dataFields indexSignatures]. rewrite length_app. cbn [List.length].
    replace (0 <? List.length (fields cls) + 1) with true
      by (symmetry; apply Nat.ltb_lt; lia).
    now rewrite orb_true_r.
Qed.

Lemma isEnumLikeClass_spec_witness :
  isEnumLikeClass (mkClass "e" [] [mkDataField "a" " Integer " None false] []) = true.
Proof.
  apply (proj1 isEnumLikeClass_spec). cbn [dataFields fields indexSignatures].
  repeat split; try discriminate.
  constructor; [right; reflexivity | constructor].
Defined.



(** C4, counterexample.  [parseFunType] cuts no trailing word and has no
    fallback: the return text ["number foo"] is used as it is, where the
    clean-up of the claim gives ["number"], and ["number foo bar"] is
    used as it is, where the claim gives the dynamic type. *)
Lemma parseFunType_keeps_trailing_words :
  returnClause ": number foo" = "number foo" /\
  returnClauseBySpec ": number foo" = "number" /\
  parseFunType "fun(): number foo" = "(this: void) => number foo" /\
  returnClause ": number foo bar" = "number foo bar" /\
  returnClauseBySpec ": number foo bar" = "any" /\
  parseFunType "fun(): number foo bar" = "(this: void) => number foo bar".
Proof.
  repeat match goal with |- _ /\ _ => split end; vm_compute; reflexivity.
Qed.

(** C4, amended.  In [parseFunType] the text after the colon is cut at
    the first [" --"] and then at the first blank followed by a capital
    and a small letter, and nothing more: a comment and all behind it
    count for nothing, a comment-free text is cut to what stands before
    its first description, and a trimmed text with neither is used as it
    is, trailing words and all.  The trailing word and the fallback to
    [any] belong to the [@return] directive, which stores the cleaned
    text: the text is cut at the first description or comment; then a
    trailing word that begins with a small letter or an underscore and is
    no type keyword is cut, and a trailing type keyword stays; then the
    text becomes [any] if a word character, [>] or a closing bracket,
    blanks and a word character remain. *)
Theorem return_cleanup_split :
  (forall luaType startParen endParen,
     indexOf "(" luaType = Some startParen ->
     findMatchingParen luaType startParen = Some endParen ->
     let rest := trim (drop (endParen + 1) luaType) in
     startsWith ":" rest = true ->
     exists tsParams,
       parseFunType luaType
       = "(" ++ join ", " tsParams ++ ") => " ++ translateReturn (returnClause rest)) /\
  (forall rest a b,
     trim (drop 1 rest) = a ++ " --" ++ b ->
     includes " --" (a ++ " -") = false ->
     returnClause rest = returnClause (String ":" a) /\
     (test re_inlineDesc (trim a) = false -> returnClause rest = trim a)) /\
  (forall rest a U l b,
     trim (drop 1 rest) = a ++ String " " (String U (String l b)) ->
     isUpper U = true -> isLower l = true ->
     includes " --" (trim (drop 1 rest)) = false ->
     test re_inlineDesc (a ++ String " " (String U "")) = false ->
     returnClause rest = trim a) /\
  (forall t,
     trim t = t -> includes " --" t = false -> test re_inlineDesc t = false ->
     returnClause (String ":" t) = t) /\
  (forall st line,
     isReturnDirective line = true ->
     exists m,
       exec re_return (lineContentOf line) = Some m /\
       step st line
       = withReturn st (Some (cleanReturn (group 1 (lineContentOf line) m)))) /\
  (forall text a y z b,
     trim text = a ++ String " " (String y (String z b)) ->
     (isUpper y && isLower z) || (Ascii.eqb y "-" && Ascii.eqb z "-") = true ->
     test re_descOrComment (a ++ String " " (String y "")) = false ->
     cleanReturn text = cleanReturn a) /\
  (forall T c w,
     trim T = T -> truthy T = true ->
     isLower c || Ascii.eqb c "_" = true -> allWord w = true ->
     inList (String c w) typeKeywords = false ->
     test re_descOrComment (T ++ " " ++ String c w) = false ->
     cleanReturn (T ++ " " ++ String c w)
     = if test re_wordGapWord T then "any" else T) /\
  (forall T w,
     trim T = T -> truthy T = true -> inList w typeKeywords = true ->
     test re_descOrComment (T ++ " " ++ w) = false ->
     cleanReturn (T ++ " " ++ w)
     = if test re_wordGapWord (T ++ " " ++ w) then "any" else T ++ " " ++ w) /\
  (forall text,
     cleanReturn text
     = fallbackToAny (cutTrailingWord (cutAtMatch re_descOrComment (trim text)))) /\
  (forall t, test re_wordGapWord t = true -> fallbackToAny t = "any") /\
  (forall t, test re_wordGapWord t = false -> fallbackToAny t = t) /\
  parseFunType "fun(): number -- the count" = "(this: void) => number" /\
  parseFunType "fun(x: number): boolean Whether it worked"
  = "(this: void, x: number) => boolean" /\
  parseFunType "fun(): number count" = "(this: void) => number count" /\
  cleanReturn "string -- the name" = "string" /\
  cleanReturn "boolean Whether it worked" = "boolean" /\
  cleanReturn "number count" = "number" /\
  cleanReturn "count number" = "any" /\
  cleanReturn "number the count" = "any".
Proof.
  split; [|split; [|split; [|split; [|split; [|split; [|split; [|split;
          [|split; [|split; [|split]]]]]]]]]].
  - intros luaType startParen endParen Hs He rest Hr. eexists.
    rewrite (parseFunType_shape _ _ _ Hs He). fold rest. rewrite Hr. reflexivity.
  - apply returnClause_comment.
  - apply returnClause_description.
  - apply returnClause_untouched.
  - apply return_step.
  - apply cleanReturn_first_cut.
  - apply cleanReturn_trailing_word.
  - apply cleanReturn_keyword.
  - reflexivity.
  - intros t H. unfold fallbackToAny. now rewrite H.
  - intros t H. unfold fallbackToAny. now rewrite H.
  - repeat match goal with |- _ /\ _ => split end; vm_compute; reflexivity.
Qed.

Lemma return_cleanup_split_witness :
  returnClause ": number -- the count" = "number" /\
  returnClause ": boolean Whether it worked" = "boolean" /\
  returnClause ":table<string, number> the map" = "table<string, number> the map" /\
  cleanReturn "string -- the name" = cleanReturn "string" /\
  cleanReturn "number count" = "number" /\
  cleanReturn "count number" = "any" /\
  pendingReturn (step initialState "--- @return table<string, number> the map")
  = Some "any".
Proof.
  pose proof return_cleanup_split as (_ & Hc & Hd & Hu & Hs & Hf & Hw & Hk & _).
  repeat match goal with |- _ /\ _ => split end.
  - exact (proj2 (Hc ": number -- the count" "number" " the count" eq_refl eq_refl)
                 eq_refl).
  - exact (Hd ": boolean Whether it worked" "boolean" "W"%char "h"%char "ether it worked"
              eq_refl eq_refl eq_refl eq_refl eq_refl).
  - exact (Hu "table<string, number> the map" eq_refl eq_refl eq_refl).
  - exact (Hf "string -- the name" "string" "-"%char "-"%char " the name"
              eq_refl eq_refl eq_refl).
  - exact (Hw "number" "c"%char "ount" eq_refl eq_refl eq_refl eq_refl eq_refl eq_refl).
  - exact (Hk "count" "number" eq_refl eq_refl eq_refl eq_refl).
  - destruct (Hs initialState "--- @return table<string, number> the map" eq_refl)
      as (m & Hm & ->).
    vm_compute in Hm. injection Hm as <-. vm_compute. reflexivity.
Defined.

(** C5.  [splitUnion] cuts at a bar exactly when the nesting depth of
    the text before it is zero.  When the union rule is reached and the
    split gives two or more parts, the result is the translated parts,
    without duplicates, first occurrences kept in order, joined with
    [" | "].  The one rule that comes before it for a text with a bar is
    the rule for a trailing [| nil], which translates the text before
    that bar and appends [" | null"].  ["number|number"] gives
    ["number"], and in ["fun(x: table<string,number>): boolean|nil"] the
    bar found is the one after the closing parenthesis. *)
Theorem union_translation :
  (forall a b,
     splitLoop "|" (a ++ String "|" b) [] "" 0%Z
     = if (netDepth a =? 0)%Z
       then splitLoop "|" b
              (fst (splitLoop "|" a [] "" 0%Z) ++
               [trim (snd (splitLoop "|" a [] "" 0%Z))])%list
              "" 0%Z
       else splitLoop "|" b (fst (splitLoop "|" a [] "" 0%Z))
              (snd (splitLoop "|" a [] "" 0%Z) ++ "|") (netDepth a)) /\
  (forall luaType,
     let t := stripInlineComments luaType in
     endsWith "| nil" t = false -> endsWith "|nil" t = false ->
     1 < List.length (splitUnion t) ->
     convertLuaTypeToTS luaType
     = join " | "
         (dedupe (map (fun p => convertLuaTypeToTS (trim p)) (splitUnion t)))) /\
  (forall luaType,
     let t := stripInlineComments luaType in
     endsWith "| nil" t || endsWith "|nil" t = true ->
     convertLuaTypeToTS luaType
     = convertLuaTypeToTS (trim (replaceFirst re_nilSuffix [] t)) ++ " | null") /\
  (forall x l,
     dedupe (x :: l) = x :: dedupe (filter (fun y => negb (String.eqb y x)) l)) /\
  (forall l, NoDup (dedupe l) /\ forall y, In y (dedupe l) <-> In y l) /\
  convertLuaTypeToTS "number|number" = "number" /\
  splitUnion "fun(x: table<string,number>): boolean|nil"
  = ["fun(x: table<string,number>): boolean"; "nil"] /\
  convertLuaTypeToTS "fun(x: table<string,number>): boolean|nil"
  = "(this: void, x: Record<string, number>) => boolean | null".
Proof.
  split; [apply splitUnion_bar|].
  split; [apply convert_union|].
  split; [apply convert_nullable|].
  split; [apply dedupe_cons|].
  split; [|split; [|split]; vm_compute; reflexivity].
  intros l. split; [apply dedupe_NoDup | intros y; apply dedupe_In].
Qed.

Lemma union_translation_witness :
  convertLuaTypeToTS "string|number[]|string"
  = join " | " (dedupe ["string"; "number[]"; "string"]).
Proof.
  rewrite (proj1 (proj2 union_translation) "string|number[]|string");
    [vm_compute; reflexivity | vm_compute; reflexivity
    | vm_compute; reflexivity | vm_compute; lia].
Defined.

(** C6.  The lines of a declaration unit are, in this order: the header,
    one [type] line per alias, the enum of every enum-like class, the
    interface of every other class, the global binding, the module
    binding; the classes are those that pass [filterClasses], all of them
    when the configuration has no filter.  The global binding is there
    iff [declareGlobalVar] is set and a main export is resolved; the
    module binding iff a main export is resolved.  The main export is the
    configured one when there is one, else the detected one when it names
    a filtered class, else none; without it the first three parts are
    emitted all the same. *)
Theorem emission_order :
  forall modulePath config parseResult,
    NoDup (map fst (pr_classes parseResult)) ->
    let filtered := filterClasses (pr_classes parseResult) (cfg_filterClasses config) in
    let resolved :=
      resolveMainExport config filtered (pr_detectedMainExport parseResult) in
    let parts123 :=
      aliasLines (pr_aliases parseResult) +++
      flat_map (fun kv => if isEnumLikeClass (snd kv)
                          then generateEnum (fst kv) (snd kv) +++ [""] else [])
               filtered +++
      flat_map (fun kv => if isEnumLikeClass (snd kv) then []
                          else generateInterface (fst kv) (snd kv)
                                 (enumClassNames filtered) +++ [""])
               filtered in
    generateDeclaration modulePath config parseResult
    = join (String newline "")
        (headerLines config +++ parts123 +++
         globalVarLines config resolved +++ moduleLines modulePath resolved) /\
    (cfg_filterClasses config = None \/ cfg_filterClasses config = Some [] ->
     filtered = pr_classes parseResult) /\
    (pr_aliases parseResult <> [] ->
     aliasLines (pr_aliases parseResult)
     = map (fun kv => "type " ++ fst kv ++ " = " ++
                      convertLuaAliasToTS (a_type (snd kv)) ++ ";")
           (pr_aliases parseResult) +++ [""]) /\
    (globalVarLines config resolved <> [] <->
     declareGlobalVar config = true /\ resolved <> None) /\
    (moduleLines modulePath resolved <> [] <-> resolved <> None) /\
    (truthyOpt (mainExport config) = true -> resolved = mainExport config) /\
    (truthyOpt (mainExport config) = false ->
     forall d, pr_detectedMainExport parseResult = Some d ->
               truthy d = true -> mapHas d filtered = true -> resolved = Some d) /\
    (truthyOpt (mainExport config) = false ->
     (forall d, pr_detectedMainExport parseResult = Some d ->
                truthy d = true -> mapHas d filtered = false) ->
     resolved = None) /\
    (resolved = None ->
     generateDeclaration modulePath config parseResult
     = join (String newline "") (headerLines config +++ parts123)).
Proof.
  intros modulePath config parseResult Hnd filtered resolved parts123.
  assert (Hf : NoDup (map fst filtered)) by (apply filterClasses_NoDup; exact Hnd).
  assert (Hgen : generateDeclaration modulePath config parseResult
                 = join (String newline "")
                     (headerLines config +++ parts123 +++
                      globalVarLines config resolved +++
                      moduleLines modulePath resolved)).
  { unfold generateDeclaration, declarationLines. cbv zeta.
    fold filtered. fold resolved. unfold parts123.
    rewrite (enumLines_spec filtered Hf), (interfaceLines_spec filtered Hf).
    rewrite <- !app_assoc. reflexivity. }
  split; [exact Hgen|].
  split.
  { unfold filtered, filterClasses. intros [-> | ->]; reflexivity. }
  split.
  { intros Ha. unfold aliasLines. destruct (pr_aliases parseResult);
      [contradiction | reflexivity]. }
  split.
  { unfold globalVarLines. destruct resolved as [m|];
      destruct (declareGlobalVar config); split; intros H;
      try (destruct H; congruence); try congruence; split; congruence. }
  split.
  { unfold moduleLines. destruct resolved as [m|]; split; congruence. }
  split.
  { intros H. unfold resolved, resolveMainExport. now rewrite H. }
  split.
  { intros H d Hd Ht Hm. unfold resolved, resolveMainExport.
    now rewrite H, Hd, Ht, Hm. }
  split.
  { intros H Hd. unfold resolved, resolveMainExport. rewrite H.
    destruct (pr_detectedMainExport parseResult) as [d|]; [|reflexivity].
    destruct (truthy d) eqn:Ht; [|reflexivity].
    now rewrite (Hd d eq_refl Ht). }
  intros Hr. rewrite Hgen, Hr. cbn [globalVarLines moduleLines].
  now rewrite !app_nil_r.
Qed.

Lemma emission_order_witness :
  generateDeclaration "m"
    (mkConfig "f.lua" None None true)
    (mkResult [("c", mkClass "c" [] [mkDataField "a" "integer" None false] []);
               ("p", mkClass "p" [] [mkDataField "x" "string" None false] [])]
              [("A", mkAlias "A" "number")] (Some "p"))
  = join (String newline "")
      ["// Auto-generated from Sylvanas API"; "// Source: f.lua";
       "// Do not edit manually"; "";
       "type A = number;"; "";
       "declare enum c {"; "  a,"; "}"; "";
       "interface p {"; "  x: string;"; "}"; "";
       "// Global variable declaration"; "declare const p: p;"; "";
       "// Module declaration for imports";
       "declare module " ++ dquote ++ "m" ++ dquote ++ " {";
       "  const _default: p;"; "  export = _default;"; "}"; ""].
Proof.
  refine (eq_trans (proj1 (emission_order "m" _ _ _)) _).
  - cbn [pr_classes map fst]. repeat constructor; cbn [In]; intuition discriminate.
  - vm_compute. reflexivity.
Defined.

(** C7.  A line that is not a doc comment and is blank, a plain comment
    or a [_G.] line keeps [pendingParams], [pendingReturn] and
    [currentDescription].  Any other line that is neither a doc comment
    nor a declaration clears the three and changes nothing else.  So a
    [@param] directive that meets no [function] declaration before the
    next such line, or before the end of the input, leaves no trace in
    the result. *)
Theorem flush_rule :
  (forall st line,
     isQuietLine line = true ->
     pendingParams (step st line) = pendingParams st /\
     pendingReturn (step st line) = pendingReturn st /\
     currentDescription (step st line) = currentDescription st) /\
  (forall st line,
     isFlushLine line = true ->
     step st line
     = mkState (classes st) (aliases st) (currentClass st) []
               (detectedMainExport st) [] None) /\
  (forall pre l mid f post,
     isParamDirective l = true ->
     (forall m, In m mid -> isFunctionLine m = false) ->
     isFlushLine f = true ->
     parseLines initialState (pre ++ l :: mid ++ f :: post)
     = parseLines initialState (pre ++ mid ++ f :: post)) /\
  (forall pre l mid,
     isParamDirective l = true ->
     (forall m, In m mid -> isFunctionLine m = false) ->
     resultOf (parseLines initialState (pre ++ l :: mid))
     = resultOf (parseLines initialState (pre ++ mid))).
Proof.
  split; [apply quiet_step|].
  split; [intros st line H; apply (flush_step st line H)|].
  split.
  - intros pre l mid f post Hl Hmid Hf.
    rewrite !(parseLines_app initialState pre).
    apply dangling_param_flushed; assumption.
  - intros pre l mid Hl Hmid.
    rewrite !(parseLines_app initialState pre).
    apply dangling_param_at_end; assumption.
Qed.

Lemma flush_rule_witness :
  parseLines initialState
    ["--- @class foo"; "--- @param x number"; ""; "-- a comment"; "local y = 1";
     "function foo.bar(x) end"]
  = parseLines initialState
      ["--- @class foo"; ""; "-- a comment"; "local y = 1";
       "function foo.bar(x) end"].
Proof.
  apply (proj1 (proj2 (proj2 flush_rule)) ["--- @class foo"] "--- @param x number"
           [""; "-- a comment"] "local y = 1" ["function foo.bar(x) end"]).
  - vm_compute. reflexivity.
  - intros m [<-|[<-|[]]]; vm_compute; reflexivity.
  - vm_compute. reflexivity.
Defined.

(** C8, counterexample.  The patch of [kick_external_filters_helper] is
    not idempotent: its pattern begins and ends with a comma, so of two
    matches that share a comma one application replaces the first and
    the next application the second. *)
Lemma kick_patch_not_idempotent :
  applyPostProcessing "common/utility/kick_external_filters_helper"
    ", string|nil: any, string|nil: any,"
  = ", string|nil: any," /\
  applyPostProcessing "common/utility/kick_external_filters_helper"
    (applyPostProcessing "common/utility/kick_external_filters_helper"
       ", string|nil: any, string|nil: any,")
  = "," /\
  applyPostProcessing "common/utility/kick_external_filters_helper"
    (applyPostProcessing "common/utility/kick_external_filters_helper"
       ", string|nil: any, string|nil: any,")
  <> applyPostProcessing "common/utility/kick_external_filters_helper"
       ", string|nil: any, string|nil: any,".
Proof.
  split; [vm_compute; reflexivity|]. split; [vm_compute; reflexivity|].
  vm_compute. discriminate.
Qed.

(** C8, amended.  [applyPostProcessing] applies to a module the patch
    declared for it and returns the text unchanged for every other module
    identity, so no patch reaches another module's output.  Applying it
    twice is applying it once for the modules without a patch and for
    [common/ow_menu_api]; the patches of [izi_sdk] and
    [spell_sequence_helper] are not idempotent. *)
Theorem applyPostProcessing_scoped :
  (forall modulePath content,
     modulePath <> "common/izi_sdk" ->
     modulePath <> "common/ow_menu_api" ->
     modulePath <> "common/utility/kick_external_filters_helper" ->
     modulePath <> "common/utility/spell_sequence_helper" ->
     applyPostProcessing modulePath content = content) /\
  (forall content,
     applyPostProcessing "common/izi_sdk" content = postProcessIziSdk content /\
     applyPostProcessing "common/ow_menu_api" content
     = postProcessOwMenuApi content /\
     applyPostProcessing "common/utility/kick_external_filters_helper" content
     = postProcessKickExternalFiltersHelper content /\
     applyPostProcessing "common/utility/spell_sequence_helper" content
     = postProcessSpellSequenceHelper content) /\
  (forall modulePath content,
     modulePath <> "common/izi_sdk" ->
     modulePath <> "common/utility/kick_external_filters_helper" ->
     modulePath <> "common/utility/spell_sequence_helper" ->
     applyPostProcessing modulePath (applyPostProcessing modulePath content)
     = applyPostProcessing modulePath content) /\
  (exists content,
     applyPostProcessing "common/izi_sdk"
       (applyPostProcessing "common/izi_sdk" content)
     <> applyPostProcessing "common/izi_sdk" content) /\
  (exists content,
     applyPostProcessing "common/utility/spell_sequence_helper"
       (applyPostProcessing "common/utility/spell_sequence_helper" content)
     <> applyPostProcessing "common/utility/spell_sequence_helper" content).
Proof.
  assert (Hother : forall modulePath content,
             modulePath <> "common/izi_sdk" ->
             modulePath <> "common/ow_menu_api" ->
             modulePath <> "common/utility/kick_external_filters_helper" ->
             modulePath <> "common/utility/spell_sequence_helper" ->
             applyPostProcessing modulePath content = content).
  { intros modulePath content H1 H2 H3 H4. unfold applyPostProcessing.
    apply String.eqb_neq in H1, H2, H3, H4. now rewrite H1, H2, H3, H4. }
  split; [exact Hother|]. split; [|split; [|split]].
  - intros content.
    repeat match goal with |- _ /\ _ => split end; reflexivity.
  - intros modulePath content H1 H3 H4.
    destruct (String.eqb_spec modulePath "common/ow_menu_api") as [->|H2].
    + change (postProcessOwMenuApi (postProcessOwMenuApi content)
              = postProcessOwMenuApi content).
      apply postProcessOwMenuApi_idempotent.
    + now rewrite !Hother.
  - exists ("skip_back?: boolean validated in is_castable_to_unit;" ++
            "skip_back?: boolean validated in is_castable_to_unit;").
    vm_compute. discriminate.
  - exists (": string " ++ dquote ++ ": string " ++ dquote ++ ";W" ++ dquote ++ ";").
    vm_compute. discriminate.
Qed.

Lemma applyPostProcessing_scoped_witness :
  applyPostProcessing "common/color" ", string|nil: any, string|nil: any,"
  = ", string|nil: any, string|nil: any," /\
  applyPostProcessing "common/ow_menu_api"
    (applyPostProcessing "common/ow_menu_api" "f(opts?: {, opts?: {):")
  = applyPostProcessing "common/ow_menu_api" "f(opts?: {, opts?: {):".
Proof.
  split.
  - apply (proj1 applyPostProcessing_scoped "common/color"); discriminate.
  - apply (proj1 (proj2 (proj2 applyPostProcessing_scoped)) "common/ow_menu_api");
      discriminate.
Defined.

(** C9.  [convertLuaTypeToTS] terminates and returns a text on every
    input: [length luaType + 1] nested calls are enough, because one
    unfolding of the function calls itself on strictly shorter texts only
    (also through [parseFunType], and in the object branch of
    [convertLuaAliasToTS]), and because no branch fails: a text that no
    rule recognises is returned as it is. *)
Theorem convertLuaTypeToTS_terminates :
  forall luaType,
    (forall fuel, String.length luaType < fuel ->
                  convertFuel fuel luaType = Some (convertLuaTypeToTS luaType)) /\
    (forall rec1 rec2,
        (forall t, String.length t < String.length luaType -> rec1 t = rec2 t) ->
        convertStep rec1 luaType = convertStep rec2 luaType) /\
    (forall rec1 rec2,
        isFunType luaType = true ->
        (forall t, String.length t < String.length luaType -> rec1 t = rec2 t) ->
        parseFunTypeWith rec1 luaType = parseFunTypeWith rec2 luaType) /\
    (forall part colonIdx,
        startsWith "{" (trim luaType) = true ->
        In part (splitByComma (trim (sliceInner 1 (trim luaType)))) ->
        indexOf ":" part = Some colonIdx ->
        String.length (trim (drop (colonIdx + 1) part)) < String.length luaType) /\
    (forall rec, (forall t, rec t <> None) -> convertStep rec luaType <> None) /\
    Some (convertLuaTypeToTS luaType) = convertStep translated luaType.
Proof.
  intros luaType. split; [|split; [|split; [|split; [|split]]]].
  - intros fuel H. apply convertFuel_value. exact H.
  - intros rec1 rec2. apply convertStep_ext.
  - intros rec1 rec2 Hf H. apply parseFunTypeWith_ext; assumption.
  - intros part colonIdx. apply alias_field_shorter.
  - intros rec. apply convertStep_some.
  - apply convertLuaTypeToTS_eq.
Qed.

Lemma convertLuaTypeToTS_terminates_witness :
  convertFuel 12 "game_object" = Some "game_object" /\
  convertFuel 30 "fun(x: number[]): (a?, b)|nil"
  = Some "(this: void, x: number[]) => LuaMultiReturn<[a | undefined, b]> | null".
Proof.
  split.
  - rewrite (proj1 (convertLuaTypeToTS_terminates "game_object") 12)
      by (simpl; lia).
    reflexivity.
  - rewrite (proj1 (convertLuaTypeToTS_terminates "fun(x: number[]): (a?, b)|nil") 30)
      by (simpl; lia).
    reflexivity.
Defined.

(** C10.  A [@field] directive, in the index-signature or the named
    form, met while [currentClass] is not set, leaves the whole parser
    state as it is: the parse is that of the input without the line.
    [currentClass] is not set as long as no [@class] directive was met. *)
Theorem orphan_field_is_noop :
  forall line,
    isFieldDirective line = true ->
    (forall st, currentClass st = None -> step st line = st) /\
    (forall pre post,
       currentClass (parseLines initialState pre) = None ->
       parseLines initialState (pre ++ line :: post)
       = parseLines initialState (pre ++ post)) /\
    (forall pre post,
       (forall l, In l pre -> isClassDirective l = false) ->
       parseLines initialState (pre ++ line :: post)
       = parseLines initialState (pre ++ post)).
Proof.
  intros line Hf.
  assert (H1 : forall st, currentClass st = None -> step st line = st)
    by (intros st Hc; apply orphan_field_step; assumption).
  assert (H2 : forall pre post,
             currentClass (parseLines initialState pre) = None ->
             parseLines initialState (pre ++ line :: post)
             = parseLines initialState (pre ++ post)).
  { intros pre post Hc. rewrite !(parseLines_app initialState pre), parseLines_cons.
    now rewrite (H1 _ Hc). }
  split; [exact H1|]. split; [exact H2|].
  intros pre post Hpre. apply H2.
  now rewrite (no_class_directive_no_class pre initialState Hpre).
Qed.

Lemma orphan_field_is_noop_witness :
  step initialState "--- @field [string] number" = initialState /\
  parseLines initialState
    ["--- a description"; "---@field public speed? number The speed";
     "--- @class foo"]
  = parseLines initialState ["--- a description"; "--- @class foo"].
Proof.
  split.
  - apply (proj1 (orphan_field_is_noop "--- @field [string] number" eq_refl)).
    reflexivity.
  - apply (proj2 (proj2 (orphan_field_is_noop
                           "---@field public speed? number The speed" eq_refl))
             ["--- a description"] ["--- @class foo"]).
    intros l [<-|[]]. vm_compute. reflexivity.
Defined.

(** * Further properties of the code *)

Section StepFacts.

Lemma isFunType_fun r : isFunType ("fun(" ++ r) = true.
Proof. destruct r; reflexivity. Qed.

Lemma stepDoc_change st lineContent :
  classChange false (classes st) (classes (stepDoc st lineContent)).
Proof.
  destruct st as [cls als cur desc dme pp pr]. unfold stepDoc.
  unfold activeClass, withClasses, withDescription.
  cbn [classes aliases currentClass currentDescription detectedMainExport
       pendingParams pendingReturn].
  destruct (exec re_type lineContent); [constructor|].
  destruct (exec re_alias lineContent); [constructor|].
  destruct (exec re_class lineContent) as [m|]; [constructor|].
  destruct (exec re_param lineContent); [constructor|].
  destruct (exec re_return lineContent); [constructor|].
  destruct (truthyOpt cur);
    destruct (exec re_indexSig lineContent);
    destruct (exec re_field lineContent);
    destruct cur;
    try (destruct (negb (startsWith "@" lineContent) && truthy (trim lineContent)));
    cbn [classes]; try (constructor; fail);
    try (apply change_update; constructor; fail).
  all: cbv zeta;
    match goal with
    | |- context [if isFunType ?t then _ else _] =>
        destruct (isFunType t) eqn:E
    end; apply change_update; constructor; exact E.
Qed.

Lemma step_change st line :
  classChange (isFunctionLine line) (classes st) (classes (step st line)).
Proof.
  unfold step, isFunctionLine, test. cbv zeta.
  destruct (exec re_funcDecl (trim line)).
  { cbn [orb]. unfold declareDot, attachMethod. cbv zeta. cbn [classes].
    apply change_declare. apply edit_function. apply isFunType_fun. }
  destruct (exec re_funcColon (trim line)).
  { cbn [orb]. unfold declareColon, attachMethod. cbv zeta. cbn [classes].
    apply change_declare. apply edit_function. apply isFunType_fun. }
  cbn [orb].
  assert (Hrest : classChange false (classes st)
                    (classes
                    (if negb (startsWith "---" (trim line))
                     then if isEmpty (trim line) || startsWith "--" (trim line)
                             || startsWith "_G." (trim line)
                          then st else flush st
                     else stepDoc st (replaceFirst re_docMarker [] (trim line))))).
  { destruct (negb (startsWith "---" (trim line)));
      [|apply stepDoc_change].
    destruct (isEmpty (trim line) || startsWith "--" (trim line)
              || startsWith "_G." (trim line)); constructor. }
  destruct (exec re_subclassAssign (trim line)); destruct (activeClass st);
    auto.
  unfold declareSubclass. cbv zeta. cbn [classes].
  apply change_declare. constructor.
Qed.

Lemma keys_updateClass n f cs : map fst (updateClass n f cs) = map fst cs.
Proof.
  induction cs as [|[k c] cs IH]; cbn [updateClass map fst]; [reflexivity|].
  destruct (String.eqb k n); cbn [map fst]; [reflexivity | now rewrite IH].
Qed.

Lemma keys_mapSet {V : Type} k (v : V) m :
  map fst (mapSet k v m)
  = if mapHas k m then map fst m else (map fst m ++ [k])%list.
Proof.
  unfold mapHas. induction m as [|[k' v'] m IH]; cbn [mapSet mapGet map fst app];
    [reflexivity|].
  destruct (String.eqb_spec k' k) as [->|Hk]; cbn [map fst]; [reflexivity|].
  rewrite IH. destruct (mapGet k m); reflexivity.
Qed.

Lemma mapHas_In {V : Type} k (m : Map V) : mapHas k m = true <-> In k (map fst m).
Proof.
  unfold mapHas. induction m as [|[k' v'] m IH]; cbn [mapGet map fst In].
  - split; [discriminate | tauto].
  - destruct (String.eqb_spec k' k) as [->|Hk].
    + split; auto.
    + rewrite IH. split; [auto | intros [H|H]; [contradiction | exact H]].
Qed.

Lemma NoDup_mapSet {V : Type} k (v : V) m :
  NoDup (map fst m) -> NoDup (map fst (mapSet k v m)).
Proof.
  intros H. rewrite keys_mapSet. destruct (mapHas k m) eqn:E; [exact H|].
  apply NoDup_app; [exact H | repeat constructor; intros [] | ].
  intros x Hx [<-|[]]. apply mapHas_In in Hx. congruence.
Qed.

Lemma In_mapSet {V : Type} k (v : V) m k' v' :
  In (k', v') (mapSet k v m) -> In (k', v') m \/ (k' = k /\ v' = v).
Proof.
  induction m as [|[k0 v0] m IH]; cbn [mapSet In].
  - intros [[= <- <-]|[]]. now right.
  - destruct (String.eqb k0 k); cbn [In].
    + intros [[= <- <-]|H]; [now right | left; now right].
    + intros [H|H]; [left; now left|]. destruct (IH H); [left; now right | now right].
Qed.

Lemma In_updateClass n f cs k c :
  In (k, c) (updateClass n f cs) ->
  In (k, c) cs \/ exists c0, In (k, c0) cs /\ c = f c0.
Proof.
  induction cs as [|[k0 c0] cs IH]; cbn [updateClass In]; [tauto|].
  destruct (String.eqb k0 n); cbn [In].
  - intros [[= <- <-]|H]; [right; exists c0; auto | left; now right].
  - intros [H|H]; [left; now left|].
    destruct (IH H) as [H'|[c1 [H1 H2]]]; [left; now right|].
    right. exists c1. auto.
Qed.

Lemma NoDup_ensureClass n cs :
  NoDup (map fst cs) -> NoDup (map fst (ensureClass n cs)).
Proof.
  unfold ensureClass. destruct (mapHas n cs); [auto | apply NoDup_mapSet].
Qed.

Lemma In_ensureClass n cs k c :
  In (k, c) (ensureClass n cs) -> In (k, c) cs \/ (k = n /\ c = emptyClass n).
Proof.
  unfold ensureClass. destruct (mapHas n cs); [auto | apply In_mapSet].
Qed.

Lemma classChange_NoDup b cs cs' :
  classChange b cs cs' -> NoDup (map fst cs) -> NoDup (map fst cs').
Proof.
  intros [ | name | name f _ | name f _] H; rewrite ?keys_updateClass;
    auto using NoDup_ensureClass.
Qed.

(** A property of the classes that the empty class has and every edit
    keeps holds after the line. *)
Lemma classChange_all b (P : string -> ParsedClass -> Prop) cs cs' :
  (forall n, P n (emptyClass n)) ->
  (forall f n c, edit b f -> P n c -> P n (f c)) ->
  classChange b cs cs' ->
  (forall k c, In (k, c) cs -> P k c) ->
  forall k c, In (k, c) cs' -> P k c.
Proof.
  intros He Hf [ | name | name f Hedit | name f Hedit] H k c Hin.
  - auto.
  - apply In_ensureClass in Hin. destruct Hin as [Hin|[-> ->]]; auto.
  - apply In_updateClass in Hin. destruct Hin as [Hin|[c0 [Hin ->]]].
    + apply In_ensureClass in Hin. destruct Hin as [Hin|[-> ->]]; auto.
    + apply Hf; [exact Hedit|].
      apply In_ensureClass in Hin. destruct Hin as [Hin|[-> ->]]; auto.
  - apply In_updateClass in Hin. destruct Hin as [Hin|[c0 [Hin ->]]]; auto.
Qed.

Lemma edit_name b f c : edit b f -> c_name (f c) = c_name c.
Proof.
  intros [name type d _ | b' name type d _ | b' name type d o _ | b' x | b' x];
    try reflexivity.
  unfold insertMethod. cbv zeta.
  destruct (findIndex _ _); [|reflexivity].
  destruct (hasSelf type && negb _); reflexivity.
Qed.

Lemma step_wellKeyed st line :
  wellKeyed (classes st) -> wellKeyed (classes (step st line)).
Proof.
  intros [Hk Hn]. pose proof (step_change st line) as Hc. split.
  - exact (classChange_NoDup _ _ _ Hc Hk).
  - apply (classChange_all _ (fun k c => c_name c = k) _ _
             (fun n => eq_refl)
             (fun f n c He H => eq_trans (edit_name _ f c He) H) Hc Hn).
Qed.

Lemma stepDoc_aliases st lineContent :
  aliases (stepDoc st lineContent) = aliases st \/
  exists n t, aliases (stepDoc st lineContent) = mapSet n (mkAlias n t) (aliases st).
Proof.
  destruct st as [cls als cur desc dme pp pr]. unfold stepDoc.
  unfold activeClass, withClasses, withDescription.
  cbn [classes aliases currentClass currentDescription detectedMainExport
       pendingParams pendingReturn].
  destruct (exec re_type lineContent); [now left|].
  destruct (exec re_alias lineContent); [right; cbv zeta; do 2 eexists; reflexivity|].
  destruct (exec re_class lineContent) as [m|]; [now left|].
  destruct (exec re_param lineContent); [now left|].
  destruct (exec re_return lineContent); [now left|].
  destruct (truthyOpt cur);
    destruct (exec re_indexSig lineContent);
    destruct (exec re_field lineContent);
    destruct cur;
    try (destruct (negb (startsWith "@" lineContent) && truthy (trim lineContent)));
    now left.
Qed.

Lemma step_aliases st line :
  aliases (step st line) = aliases st \/
  exists n t, aliases (step st line) = mapSet n (mkAlias n t) (aliases st).
Proof.
  unfold step. cbv zeta.
  destruct (exec re_funcDecl (trim line)); [now left|].
  destruct (exec re_funcColon (trim line)); [now left|].
  assert (Hrest : forall st',
            st' = (if negb (startsWith "---" (trim line))
                   then if isEmpty (trim line) || startsWith "--" (trim line)
                           || startsWith "_G." (trim line)
                        then st else flush st
                   else stepDoc st (replaceFirst re_docMarker [] (trim line))) ->
            aliases st' = aliases st \/
            exists n t, aliases st' = mapSet n (mkAlias n t) (aliases st)).
  { intros st' ->. destruct (negb (startsWith "---" (trim line)));
      [|apply stepDoc_aliases].
    destruct (isEmpty (trim line) || startsWith "--" (trim line)
              || startsWith "_G." (trim line)); now left. }
  destruct (exec re_subclassAssign (trim line)); destruct (activeClass st);
    try (apply Hrest; reflexivity).
  now left.
Qed.

Lemma step_aliasesWellKeyed st line :
  aliasesWellKeyed (aliases st) -> aliasesWellKeyed (aliases (step st line)).
Proof.
  intros [Hk Hn]. destruct (step_aliases st line) as [->|[n [t ->]]];
    [now split|]. split; [now apply NoDup_mapSet|].
  intros k a Hin. apply In_mapSet in Hin. destruct Hin as [Hin|[-> ->]]; auto.
Qed.

Lemma parseLines_wellKeyed : forall lines st,
  wellKeyed (classes st) -> aliasesWellKeyed (aliases st) ->
  wellKeyed (classes (parseLines st lines)) /\
  aliasesWellKeyed (aliases (parseLines st lines)).
Proof.
  induction lines as [|l lines IH]; intros st H1 H2; [now split|].
  rewrite parseLines_cons.
  apply IH; [now apply step_wellKeyed | now apply step_aliasesWellKeyed].
Qed.

End StepFacts.

(** X1: the classes and the aliases of a parsed file have distinct names,
    and each is stored under its own name. *)
Theorem parseApiFile_distinct_names content :
  wellKeyed (pr_classes (parseApiFile content)) /\
  aliasesWellKeyed (pr_aliases (parseApiFile content)).
Proof.
  unfold parseApiFile, resultOf. cbn [pr_classes pr_aliases].
  apply parseLines_wellKeyed; (split; [constructor | intros k c []]).
Qed.

Section MethodFacts.

Lemma In_setNth {A : Type} (x y : A) : forall l i,
  In y (setNth i x l) -> y = x \/ In y l.
Proof.
  induction l as [|z l IH]; intros [|i]; cbn [setNth In]; try tauto.
  - intros [H|H]; auto.
  - intros [H|H]; auto. destruct (IH i H); auto.
Qed.

Lemma In_insertMethod name type d c y :
  In y (fields (insertMethod name type d c)) ->
  y = mkField name type d true \/ In y (fields c).
Proof.
  unfold insertMethod. cbv zeta.
  destruct (findIndex _ (fields c)) as [i|].
  - destruct (hasSelf type && negb _); cbn [fields]; [apply In_setNth | auto].
  - cbn [pushField fields]. rewrite in_app_iff. cbn [In]. intuition.
Qed.

(** Every edit leaves in [fields] only members flagged as methods whose
    type is a function type. *)
Lemma edit_methods b f c :
  edit b f ->
  (forall y, In y (fields c) -> pf_isMethod y = true /\ isFunType (pf_type y) = true) ->
  forall y, In y (fields (f c)) ->
    pf_isMethod y = true /\ isFunType (pf_type y) = true.
Proof.
  intros [name type d Ht | b' name type d Ht | b' name type d o _ | b' x | b' x]
    H y Hy; auto.
  - cbn [pushField fields] in Hy. apply in_app_iff in Hy.
    destruct Hy as [Hy|[<-|[]]]; auto.
  - apply In_insertMethod in Hy. destruct Hy as [->|Hy]; auto.
Qed.

Lemma findIndex_some {A : Type} (p : A -> bool) : forall l i,
  findIndex p l = Some i ->
  exists pre e post,
    l = (pre ++ e :: post)%list /\ List.length pre = i /\ p e = true /\
    forall x, In x pre -> p x = false.
Proof.
  induction l as [|x l IH]; intros i; cbn [findIndex]; [discriminate|].
  destruct (p x) eqn:E.
  - intros [= <-]. exists [], x, l. repeat split; auto. intros y [].
  - destruct (findIndex p l) as [j|]; [|discriminate]. intros [= <-].
    destruct (IH j eq_refl) as [pre [e [post [-> [<- [He Hpre]]]]]].
    exists (x :: pre), e, post. repeat split; auto.
    intros y [<-|Hy]; auto.
Qed.

Lemma findIndex_none_inv {A : Type} (p : A -> bool) : forall l,
  findIndex p l = None -> forall x, In x l -> p x = false.
Proof.
  induction l as [|x l IH]; cbn [findIndex]; [intros _ y []|].
  destruct (p x) eqn:E; [discriminate|].
  destruct (findIndex p l); [discriminate|]. intros _ y [<-|Hy]; auto.
Qed.

(** [insertMethod] keeps the names of the methods where they are, or adds
    the new name at the end when no method has it. *)
Lemma names_insertMethod name type d c :
  map pf_name (fields (insertMethod name type d c))
  = if inList name (map pf_name (fields c)) then map pf_name (fields c)
    else (map pf_name (fields c) ++ [name])%list.
Proof.
  unfold insertMethod. cbv zeta.
  destruct (findIndex _ (fields c)) as [i|] eqn:E.
  - apply findIndex_some in E.
    destruct E as [pre [e [post [Hl [<- [He Hpre]]]]]].
    apply String.eqb_eq in He.
    assert (Hin : inList name (map pf_name (fields c)) = true).
    { apply inList_true. rewrite Hl, map_app, in_app_iff. right. now left. }
    rewrite Hin. destruct (hasSelf type && negb _); cbn [fields]; [|reflexivity].
    rewrite Hl, setNth_middle, !map_app. cbn [map pf_name]. now rewrite He.
  - assert (Hin : inList name (map pf_name (fields c)) = false).
    { destruct (inList name (map pf_name (fields c))) eqn:Hin; [|reflexivity].
      apply inList_true in Hin. apply in_map_iff in Hin.
      destruct Hin as [y [Hy Hin]].
      pose proof (findIndex_none_inv _ _ E y Hin) as Hf. cbn beta in Hf.
      rewrite Hy, String.eqb_refl in Hf. discriminate Hf. }
    rewrite Hin. cbn [pushField fields]. rewrite map_app. reflexivity.
Qed.

Lemma edit_NoDup_names f c :
  edit false f -> NoDup (map pf_name (fields c)) ->
  NoDup (map pf_name (fields (f c))).
Proof.
  intros He. remember false as b eqn:Hb.
  destruct He as [name type d Ht | b' name type d Ht | b' name type d o _
                  | b' x | b' x]; try discriminate Hb; auto.
  intros H. rewrite names_insertMethod.
  destruct (inList name (map pf_name (fields c))) eqn:E; [exact H|].
  apply NoDup_app; [exact H | repeat constructor; intros [] |].
  intros y Hy [<-|[]]. apply inList_true in Hy. congruence.
Qed.

Lemma extends_refl {A : Type} (l : list A) : extends l l.
Proof. exists []. now rewrite app_nil_r. Qed.

Lemma extends_trans {A : Type} (l1 l2 l3 : list A) :
  extends l1 l2 -> extends l2 l3 -> extends l1 l3.
Proof. intros [m1 ->] [m2 ->]. exists (m1 ++ m2)%list. now rewrite app_assoc. Qed.

Lemma extends_push {A : Type} (l : list A) x : extends l (l ++ [x]).
Proof. now exists [x]. Qed.

Lemma grows_refl c : grows c c.
Proof. repeat split; apply extends_refl. Qed.

Lemma grows_trans c1 c2 c3 : grows c1 c2 -> grows c2 c3 -> grows c1 c3.
Proof.
  intros [Hn [Hf [Hd Hi]]] [Hn' [Hf' [Hd' Hi']]].
  repeat split; [congruence | eapply extends_trans; eassumption ..].
Qed.

Lemma edit_grows b f c : edit b f -> grows c (f c).
Proof.
  intros [name type d Ht | b' name type d Ht | b' name type d o _ | b' x | b' x].
  - repeat split; try apply extends_refl.
    cbn [pushField fields]. rewrite map_app. apply extends_push.
  - split; [apply (edit_name b'); now constructor|].
    split; [rewrite names_insertMethod;
            destruct (inList _ _); [apply extends_refl | apply extends_push]|].
    unfold insertMethod. cbv zeta.
    destruct (findIndex _ _); [destruct (hasSelf type && negb _)|];
      split; apply extends_refl.
  - unfold insertDataField. cbv zeta.
    repeat split; try apply extends_refl. apply extends_push.
  - repeat split; try apply extends_refl. apply extends_push.
  - repeat split; try apply extends_refl. apply extends_push.
Qed.

Lemma mapGet_updateClass k n f cs :
  mapGet k (updateClass n f cs)
  = if String.eqb n k then option_map f (mapGet k cs) else mapGet k cs.
Proof.
  induction cs as [|[k0 c0] cs IH]; cbn [updateClass mapGet].
  - destruct (String.eqb n k); reflexivity.
  - destruct (String.eqb_spec k0 n) as [->|Hn]; cbn [mapGet].
    + destruct (String.eqb n k); reflexivity.
    + destruct (String.eqb_spec k0 k) as [->|Hk]; [|exact IH].
      destruct (String.eqb_spec n k) as [->|]; [contradiction | reflexivity].
Qed.

Lemma mapGet_mapSet_other {V : Type} k n (v : V) m c :
  mapGet k m = Some c -> mapHas n m = false -> mapGet k (mapSet n v m) = Some c.
Proof.
  unfold mapHas. induction m as [|[k0 v0] m IH]; cbn [mapGet mapSet];
    [discriminate|].
  destruct (String.eqb_spec k0 n) as [->|Hn]; [discriminate|].
  cbn [mapGet]. destruct (String.eqb k0 k); auto.
Qed.

Lemma mapGet_ensureClass k n cs c :
  mapGet k cs = Some c -> mapGet k (ensureClass n cs) = Some c.
Proof.
  intros H. unfold ensureClass. destruct (mapHas n cs) eqn:E; [exact H|].
  now apply mapGet_mapSet_other.
Qed.

Lemma classChange_grows b cs cs' k c :
  classChange b cs cs' -> mapGet k cs = Some c ->
  exists c', mapGet k cs' = Some c' /\ grows c c'.
Proof.
  intros [ | name | name f He | name f He] H.
  - exists c. split; [exact H | apply grows_refl].
  - exists c. split; [now apply mapGet_ensureClass | apply grows_refl].
  - rewrite mapGet_updateClass, (mapGet_ensureClass _ name _ _ H).
    destruct (String.eqb name k); cbn [option_map].
    + exists (f c). split; [reflexivity | now apply (edit_grows b)].
    + exists c. split; [reflexivity | apply grows_refl].
  - rewrite mapGet_updateClass, H.
    destruct (String.eqb name k); cbn [option_map].
    + exists (f c). split; [reflexivity | now apply (edit_grows b)].
    + exists c. split; [reflexivity | apply grows_refl].
Qed.

Lemma parseLines_grows : forall lines st k c,
  mapGet k (classes st) = Some c ->
  exists c', mapGet k (classes (parseLines st lines)) = Some c' /\ grows c c'.
Proof.
  induction lines as [|l lines IH]; intros st k c H.
  - exists c. split; [exact H | apply grows_refl].
  - rewrite parseLines_cons.
    destruct (classChange_grows _ _ _ k c (step_change st l) H) as [c1 [H1 G1]].
    destruct (IH _ k c1 H1) as [c2 [H2 G2]].
    exists c2. split; [exact H2 | now apply (grows_trans c c1 c2)].
Qed.

Lemma split_nonempty sep s : split sep s <> [].
Proof.
  destruct s as [|c s]; cbn [split]; [discriminate|].
  destruct (Ascii.eqb c sep); [discriminate|].
  destruct (split sep s); discriminate.
Qed.

Lemma split_app sep a b :
  split sep (a ++ String sep b) = (split sep a ++ split sep b)%list.
Proof.
  induction a as [|c a IH]; cbn [append split].
  - rewrite Ascii.eqb_refl. reflexivity.
  - destruct (Ascii.eqb c sep); [now rewrite IH|].
    rewrite IH. pose proof (split_nonempty sep a) as Hne.
    destruct (split sep a); [contradiction | reflexivity].
Qed.

Lemma parseLines_methods : forall lines st,
  (forall k c, In (k, c) (classes st) ->
     forall y, In y (fields c) ->
       pf_isMethod y = true /\ isFunType (pf_type y) = true) ->
  forall k c, In (k, c) (classes (parseLines st lines)) ->
    forall y, In y (fields c) ->
      pf_isMethod y = true /\ isFunType (pf_type y) = true.
Proof.
  induction lines as [|l lines IH]; intros st H; [exact H|].
  rewrite parseLines_cons. apply IH.
  apply (classChange_all (isFunctionLine l)
           (fun _ c => forall y, In y (fields c) ->
                         pf_isMethod y = true /\ isFunType (pf_type y) = true)
           (classes st)); [| |apply step_change|exact H].
  - intros n y [].
  - intros f n c He. now apply (edit_methods (isFunctionLine l)).
Qed.

Lemma parseLines_NoDup_names : forall lines st,
  (forall l, In l lines -> isFunctionLine l = false) ->
  (forall k c, In (k, c) (classes st) -> NoDup (map pf_name (fields c))) ->
  forall k c, In (k, c) (classes (parseLines st lines)) ->
    NoDup (map pf_name (fields c)).
Proof.
  induction lines as [|l lines IH]; intros st Hl H; [exact H|].
  rewrite parseLines_cons. apply IH; [intros x Hx; apply Hl; now right|].
  pose proof (step_change st l) as Hc. rewrite (Hl l (or_introl eq_refl)) in Hc.
  apply (classChange_all false (fun _ c => NoDup (map pf_name (fields c)))
           (classes st)); [| |exact Hc|exact H].
  - intros n. constructor.
  - intros f n c He. now apply edit_NoDup_names.
Qed.

End MethodFacts.

(** X2: what a file has recorded for a class stays when more lines follow:
    the class keeps its method names, data fields and index signatures in
    their order; later lines only add to them, or replace the type of a
    method. *)
Theorem later_lines_only_add content more k c :
  mapGet k (pr_classes (parseApiFile content)) = Some c ->
  exists c',
    mapGet k (pr_classes (parseApiFile (content ++ String newline more))) = Some c' /\
    grows c c'.
Proof.
  unfold parseApiFile, resultOf. cbn [pr_classes]. intros H.
  rewrite split_app, parseLines_app. now apply parseLines_grows.
Qed.

Lemma later_lines_only_add_witness :
  exists c',
    mapGet "foo"
      (pr_classes
         (parseApiFile
            ("--- @class foo" ++ String newline "--- @field x number"
             ++ String newline "--- @field f fun(): number"))) = Some c' /\
    grows (mkClass "foo" [] [mkDataField "x" "number" None false] []) c'.
Proof.
  apply (later_lines_only_add
           ("--- @class foo" ++ String newline "--- @field x number")
           "--- @field f fun(): number" "foo").
  vm_compute. reflexivity.
Defined.

(** X3: every member kept in the method list of a parsed class is flagged
    as a method and has a function type, the text [parseFunType] expects. *)
Theorem methods_are_function_typed content :
  Forall (fun kv =>
            Forall (fun y => pf_isMethod y = true /\ isFunType (pf_type y) = true)
                   (fields (snd kv)))
         (pr_classes (parseApiFile content)).
Proof.
  apply Forall_forall. intros [k c] Hin. apply Forall_forall. intros y Hy.
  unfold parseApiFile, resultOf in Hin. cbn [pr_classes] in Hin.
  apply (parseLines_methods (split newline content) initialState
           (fun k' c' (H : In (k', c') []) => match H with end) k c Hin y Hy).
Qed.

(** X4: in a file without [function] lines no class has two methods of the
    same name: the [@field] directive never adds a second one. *)
Theorem field_methods_have_distinct_names content :
  (forall line, In line (split newline content) -> isFunctionLine line = false) ->
  Forall (fun kv => NoDup (map pf_name (fields (snd kv))))
         (pr_classes (parseApiFile content)).
Proof.
  intros Hl. apply Forall_forall. intros [k c] Hin.
  unfold parseApiFile, resultOf in Hin. cbn [pr_classes] in Hin.
  apply (parseLines_NoDup_names (split newline content) initialState Hl
           (fun k' c' (H : In (k', c') []) => match H with end) k c Hin).
Qed.

Lemma field_methods_have_distinct_names_witness :
  Forall (fun kv => NoDup (map pf_name (fields (snd kv))))
         (pr_classes
            (parseApiFile
               ("--- @class foo" ++ String newline "--- @field bar fun(): number"
                ++ String newline "--- @field bar fun(self: foo): number"))).
Proof.
  apply field_methods_have_distinct_names.
  intros line H. vm_compute in H.
  destruct H as [<-|[<-|[<-|[]]]]; vm_compute; reflexivity.
Defined.

Section SkipFacts.

Lemma class_not_other r :
  exec re_type ("@class" ++ r) = None /\ exec re_alias ("@class" ++ r) = None.
Proof.
  unfold re_type, re_alias. cbn [seq].
  rewrite !exec_anchored. lazy. auto.
Qed.

Lemma class_directive_step st line :
  isClassDirective line = true ->
  exists n, classes (step st line) = ensureClass n (classes st).
Proof.
  unfold isClassDirective. intros H. apply andb_prop in H as [Hd H].
  rewrite (step_doc st line Hd). apply test_true in H.
  assert (Hp : exists r, lineContentOf line = "@class" ++ r).
  { unfold re_class in H. cbn [seq] in H. apply exec_literal_prefix in H.
    exact H. }
  destruct Hp as [r Hr]. rewrite Hr in *. unfold stepDoc.
  destruct (class_not_other r) as [-> ->].
  destruct (exec re_class ("@class" ++ r)) as [m|]; [|contradiction].
  cbn [classes]. eauto.
Qed.

Lemma length_updateClass n f cs :
  List.length (updateClass n f cs) = List.length cs.
Proof.
  rewrite <- (length_map fst), keys_updateClass. apply length_map.
Qed.

Lemma length_ensureClass n cs :
  1 <= List.length (ensureClass n cs) /\
  List.length cs <= List.length (ensureClass n cs).
Proof.
  unfold ensureClass. destruct (mapHas n cs) eqn:E.
  - split; [|lia]. destruct cs; [discriminate E | cbn; lia].
  - rewrite <- !(length_map fst), keys_mapSet, E, length_app. cbn. lia.
Qed.

Lemma classChange_length b cs cs' :
  classChange b cs cs' -> List.length cs <= List.length cs'.
Proof.
  intros [ | name | name f _ | name f _]; rewrite ?length_updateClass;
    try apply length_ensureClass; lia.
Qed.

Lemma parseLines_length : forall lines st,
  List.length (classes st) <= List.length (classes (parseLines st lines)).
Proof.
  induction lines as [|l lines IH]; intros st; [cbn; lia|].
  rewrite parseLines_cons. specialize (IH (step st l)).
  pose proof (classChange_length _ _ _ (step_change st l)). lia.
Qed.

Lemma function_step st line :
  isFunctionLine line = true -> 1 <= List.length (classes (step st line)).
Proof.
  unfold isFunctionLine, test, step. cbv zeta.
  destruct (exec re_funcDecl (trim line)).
  { intros _. unfold declareDot, attachMethod. cbv zeta. cbn [classes].
    rewrite length_updateClass. apply length_ensureClass. }
  destruct (exec re_funcColon (trim line)); [|discriminate].
  intros _. unfold declareColon, attachMethod. cbv zeta. cbn [classes].
  rewrite length_updateClass. apply length_ensureClass.
Qed.

(** Without an active class, only a [function] line or a [@class]
    directive changes the classes. *)
Lemma step_no_class st line :
  currentClass st = None -> isFunctionLine line = false ->
  isClassDirective line = false ->
  classes (step st line) = classes st.
Proof.
  intros Hcur Hf Hc. unfold isFunctionLine in Hf.
  apply orb_false_iff in Hf as [Hf1 Hf2].
  unfold step. cbv zeta.
  rewrite (test_false _ _ Hf1), (test_false _ _ Hf2), (activeClass_None st Hcur).
  assert (Hrest : classes
                    (if negb (startsWith "---" (trim line))
                     then if isEmpty (trim line) || startsWith "--" (trim line)
                             || startsWith "_G." (trim line)
                          then st else flush st
                     else stepDoc st (replaceFirst re_docMarker [] (trim line)))
                  = classes st).
  { destruct (startsWith "---" (trim line)) eqn:Hd; cbn [negb].
    - unfold isClassDirective, isDocLine in Hc. rewrite Hd in Hc.
      cbn [andb] in Hc. apply test_false in Hc. unfold lineContentOf in Hc.
      unfold stepDoc. rewrite Hc, (activeClass_None st Hcur).
      destruct (exec re_type _); [reflexivity|].
      destruct (exec re_alias _); [reflexivity|].
      destruct (exec re_param _); [reflexivity|].
      destruct (exec re_return _); [reflexivity|].
      destruct (exec re_indexSig _); destruct (exec re_field _);
        try (destruct (negb (startsWith "@" _) && truthy _));
        reflexivity.
    - destruct (isEmpty (trim line) || startsWith "--" (trim line)
                || startsWith "_G." (trim line)); reflexivity. }
  destruct (exec re_subclassAssign (trim line)); exact Hrest.
Qed.

Lemma parseLines_no_class : forall lines st,
  currentClass st = None ->
  (forall l, In l lines -> isFunctionLine l = false /\ isClassDirective l = false) ->
  classes (parseLines st lines) = classes st.
Proof.
  induction lines as [|l lines IH]; intros st Hcur H; [reflexivity|].
  destruct (H l (or_introl eq_refl)) as [Hf Hc].
  rewrite parseLines_cons, IH.
  - now apply step_no_class.
  - rewrite step_currentClass; assumption.
  - intros x Hx. apply H. now right.
Qed.

Lemma parseLines_some_class l1 line l2 st :
  isFunctionLine line = true \/ isClassDirective line = true ->
  1 <= List.length (classes (parseLines st (l1 ++ line :: l2))).
Proof.
  intros H. rewrite parseLines_app, parseLines_cons.
  pose proof (parseLines_length l2 (step (parseLines st l1) line)) as Hlen.
  assert (1 <= List.length (classes (step (parseLines st l1) line))); [|lia].
  destruct H as [H|H]; [now apply function_step|].
  destruct (class_directive_step (parseLines st l1) line H) as [n ->].
  apply length_ensureClass.
Qed.

End SkipFacts.

(** X5: a file yields no class exactly when none of its lines is a
    [function] declaration or a [@class] directive. *)
Theorem no_classes_iff content :
  pr_classes (parseApiFile content) = [] <->
  forall line, In line (split newline content) ->
    isFunctionLine line = false /\ isClassDirective line = false.
Proof.
  unfold parseApiFile, resultOf. cbn [pr_classes]. split.
  - intros H line Hin. apply in_split in Hin as [l1 [l2 Hl]].
    pose proof (parseLines_some_class l1 line l2 initialState) as Hs.
    rewrite <- Hl, H in Hs. cbn [List.length] in Hs.
    destruct (isFunctionLine line); [specialize (Hs (or_introl eq_refl)); lia|].
    destruct (isClassDirective line); [specialize (Hs (or_intror eq_refl)); lia|].
    split; reflexivity.
  - intros H. now rewrite parseLines_no_class.
Qed.

Section SplitRoundTrip.

Variable sep : ascii.
Hypothesis sep_open : hasChar sep openers = false.
Hypothesis sep_close : hasChar sep closers = false.

Lemma splitLoop_plain s : forall parts cur d,
  plain sep s = true -> splitLoop sep s parts cur d = (parts, cur ++ s).
Proof.
  induction s as [|c s IH]; intros parts cur d; cbn [plain splitLoop].
  - now rewrite append_empty.
  - intros H. apply andb_prop in H as [H Hs]. apply andb_prop in H as [H Hsep].
    apply andb_prop in H as [Ho Hc].
    apply negb_true_iff in Ho, Hc, Hsep. rewrite Ho, Hc, Hsep. cbn [andb].
    rewrite (IH _ _ _ Hs), append_assoc. reflexivity.
Qed.

Lemma splitLoop_deep s : forall parts cur d,
  bracketFree s = true -> d <> 0%Z ->
  splitLoop sep s parts cur d = (parts, cur ++ s).
Proof.
  induction s as [|c s IH]; intros parts cur d; cbn [bracketFree splitLoop].
  - now rewrite append_empty.
  - intros H Hd. apply andb_prop in H as [H Hs]. apply andb_prop in H as [Ho Hc].
    apply negb_true_iff in Ho, Hc. rewrite Ho, Hc.
    replace (d =? 0)%Z with false by (symmetry; now apply Z.eqb_neq).
    rewrite andb_false_r, (IH _ _ _ Hs Hd), append_assoc. reflexivity.
Qed.

Lemma splitLoop_sep s parts cur :
  splitLoop sep (String sep s) parts cur 0%Z
  = splitLoop sep s (parts ++ [trim cur])%list "" 0%Z.
Proof.
  cbn [splitLoop]. rewrite sep_open, sep_close, Ascii.eqb_refl. reflexivity.
Qed.

Lemma splitLoop_join : forall l p parts,
  Forall (fun x => plain sep x = true) (p :: l) ->
  splitLoop sep (join (String sep "") (p :: l)) parts "" 0%Z
  = ((parts ++ map trim (removelast (p :: l)))%list, last (p :: l) "").
Proof.
  induction l as [|q l IH]; intros p parts H.
  - cbn [join removelast last map]. inversion_clear H as [|? ? Hp _].
    rewrite (splitLoop_plain _ _ _ _ Hp), app_nil_r. reflexivity.
  - inversion_clear H as [|? ? Hp Hl].
    change (join (String sep "") (p :: q :: l))
      with (p ++ String sep (join (String sep "") (q :: l))).
    rewrite splitLoop_app, (splitLoop_plain _ _ _ _ Hp). cbn [fst snd].
    assert (Hn : netDepth p = 0%Z).
    { clear - Hp. induction p as [|c p IHp]; [reflexivity|].
      cbn [plain] in Hp. apply andb_prop in Hp as [H Hs].
      apply andb_prop in H as [H _]. apply andb_prop in H as [Ho Hc].
      apply negb_true_iff in Ho, Hc. cbn [netDepth]. unfold depthChange.
      rewrite Ho, Hc, (IHp Hs). reflexivity. }
    rewrite Hn. cbn [Z.add]. rewrite splitLoop_sep, (IH q _ Hl).
    change (removelast (p :: q :: l)) with (p :: removelast (q :: l)).
    change (last (p :: q :: l) "") with (last (q :: l) "").
    cbn [map append]. rewrite <- app_assoc. reflexivity.
Qed.

Lemma splitTop_join l :
  Forall (fun x => plain sep x = true /\ truthy (trim x) = true) l ->
  splitTop sep (join (String sep "") l) = map trim l.
Proof.
  destruct l as [|p l]; [reflexivity|]. intros H. unfold splitTop.
  rewrite splitLoop_join
    by (apply Forall_forall; intros x Hx;
        now apply (proj1 (Forall_forall _ _) H x)).
  assert (Hlast : truthy (trim (last (p :: l) "")) = true).
  { apply (proj1 (Forall_forall _ _) H). clear. revert p.
    induction l as [|q l IH]; intros p; [now left|]. right. apply IH. }
  rewrite Hlast. rewrite app_nil_l.
  change [trim (last (p :: l) "")] with (map trim [last (p :: l) ""]).
  rewrite <- map_app, <- app_removelast_last by discriminate.
  reflexivity.
Qed.

Lemma opener_not_space o : hasChar o openers = true -> isSpace o = false.
Proof.
  unfold openers. cbn [hasChar]. rewrite !orb_false_r.
  destruct (Ascii.eqb_spec o "("%char) as [->|_]; [reflexivity|].
  destruct (Ascii.eqb_spec o "["%char) as [->|_]; [reflexivity|].
  destruct (Ascii.eqb_spec o "{"%char) as [->|_]; [reflexivity|].
  destruct (Ascii.eqb_spec o "<"%char) as [->|_]; [reflexivity|].
  discriminate.
Qed.

Lemma closer_not_opener c :
  hasChar c closers = true -> isSpace c = false /\ hasChar c openers = false.
Proof.
  unfold closers. cbn [hasChar]. rewrite !orb_false_r.
  destruct (Ascii.eqb_spec c ")"%char) as [->|_]; [split; reflexivity|].
  destruct (Ascii.eqb_spec c "]"%char) as [->|_]; [split; reflexivity|].
  destruct (Ascii.eqb_spec c "}"%char) as [->|_]; [split; reflexivity|].
  destruct (Ascii.eqb_spec c ">"%char) as [->|_]; [split; reflexivity|].
  discriminate.
Qed.

Lemma netDepth_bracketFree s : bracketFree s = true -> netDepth s = 0%Z.
Proof.
  induction s as [|c s IH]; [reflexivity|]. cbn [bracketFree netDepth].
  intros H. apply andb_prop in H as [H Hs]. apply andb_prop in H as [Ho Hc].
  apply negb_true_iff in Ho, Hc. unfold depthChange.
  rewrite Ho, Hc, (IH Hs). reflexivity.
Qed.

Lemma splitTop_bracketed o c inner :
  hasChar o openers = true -> hasChar c closers = true ->
  bracketFree inner = true ->
  splitTop sep (String o (inner ++ String c ""))
  = [String o (inner ++ String c "")].
Proof.
  intros Ho Hc Hi. destruct (closer_not_opener c Hc) as [Hcs Hco].
  unfold splitTop. cbn [splitLoop]. rewrite Ho.
  rewrite splitLoop_app, (splitLoop_deep inner _ _ _ Hi) by discriminate.
  cbn [fst snd splitLoop]. rewrite Hco, Hc. cbn [append].
  rewrite (trim_head o _ (opener_not_space o Ho)).
  rewrite (trimEnd_last _ c Hcs). reflexivity.
Qed.

End SplitRoundTrip.

Section TrimmedParts.

Lemma splitLoop_trimmed sep s : forall parts cur d,
  Forall (fun p => trim p = p) parts ->
  Forall (fun p => trim p = p) (fst (splitLoop sep s parts cur d)).
Proof.
  induction s as [|c s IH]; intros parts cur d H; cbn [splitLoop]; [exact H|].
  destruct (hasChar c openers); [now apply IH|].
  destruct (hasChar c closers); [now apply IH|].
  destruct (Ascii.eqb c sep && (d =? 0)%Z); [|now apply IH].
  apply IH. apply Forall_app. split; [exact H|].
  constructor; [apply trim_idem | constructor].
Qed.

Lemma splitTop_trimmed sep s p : In p (splitTop sep s) -> trim p = p.
Proof.
  unfold splitTop.
  pose proof (splitLoop_trimmed sep s [] "" 0%Z (Forall_nil _)) as H.
  destruct (splitLoop sep s [] "" 0%Z) as [parts cur]. cbn [fst] in H.
  rewrite Forall_forall in H.
  destruct (truthy (trim cur)); [|apply H].
  rewrite in_app_iff. intros [Hp|[<-|[]]]; [now apply H | apply trim_idem].
Qed.

End TrimmedParts.

Section ParenFacts.

Lemma take_S n c r : take (S n) (String c r) = String c (take n r).
Proof. reflexivity. Qed.

Lemma findParenLoop_spec s : forall i d e,
  findParenLoop s i d = Some e <->
  (i <= e /\ e < i + slen s /\
   (d + parenDepth (take (S (e - i)) s) = 0)%Z /\
   forall j, i <= j -> j < e -> (d + parenDepth (take (S (j - i)) s) <> 0)%Z).
Proof.
  induction s as [|c s IH]; intros i d e.
  - cbn [findParenLoop String.length]. split; [discriminate | lia].
  - cbn [findParenLoop String.length]. cbv zeta.
    set (delta := (if Ascii.eqb c "(" then 1
                   else if Ascii.eqb c ")" then -1 else 0)%Z).
    assert (Hd : (if Ascii.eqb c ")"
                  then (if Ascii.eqb c "(" then d + 1 else d) - 1
                  else if Ascii.eqb c "(" then d + 1 else d)%Z
                 = (d + delta)%Z).
    { unfold delta. destruct (Ascii.eqb_spec c "("%char) as [->|];
        [cbn; lia|]. destruct (Ascii.eqb c ")"); lia. }
    rewrite Hd. clear Hd.
    assert (Hone : forall n, parenDepth (take (S n) (String c s))
                             = (delta + parenDepth (take n s))%Z).
    { intros n. reflexivity. }
    destruct (Z.eqb_spec (d + delta) 0) as [Hz|Hz].
    + split.
      * intros [= <-]. rewrite Nat.sub_diag, Hone.
        destruct s; cbn [take parenDepth]; repeat split; try lia.
      * intros (H1 & H2 & H3 & H4). f_equal.
        destruct (Nat.eq_dec i e) as [|Hne]; [assumption|exfalso].
        apply (H4 i); [lia | lia |]. rewrite Nat.sub_diag, Hone.
        destruct s; cbn [take parenDepth]; lia.
    + rewrite IH. split.
      * intros (H1 & H2 & H3 & H4). repeat split; try lia.
        -- replace (e - i) with (S (e - S i)) by lia. rewrite Hone. lia.
        -- intros j Hj1 Hj2. destruct (Nat.eq_dec j i) as [->|Hne].
           ++ rewrite Nat.sub_diag, Hone. destruct s; cbn [take parenDepth]; lia.
           ++ replace (j - i) with (S (j - S i)) by lia. rewrite Hone.
              specialize (H4 j). lia.
      * intros (H1 & H2 & H3 & H4).
        assert (Hne : i <> e).
        { intros <-. rewrite Nat.sub_diag, Hone in H3.
          destruct s; cbn [take parenDepth] in H3; lia. }
        repeat split; try lia.
        -- replace (e - i) with (S (e - S i)) in H3 by lia.
           rewrite Hone in H3. lia.
        -- intros j Hj1 Hj2. specialize (H4 j).
           replace (j - i) with (S (j - S i)) in H4 by lia.
           rewrite Hone in H4. lia.
Qed.

End ParenFacts.

(** X6: [splitByComma] and [splitUnion] undo a join: texts without
    brackets and separators, none of them blank, joined by the separator,
    are split into the same texts, trimmed. *)
Theorem split_undoes_join l :
  Forall (fun x => plain "," x = true /\ plain "|" x = true /\
                   truthy (trim x) = true) l ->
  splitByComma (join "," l) = map trim l /\
  splitUnion (join "|" l) = map trim l.
Proof.
  intros H. split; [apply (splitTop_join "," eq_refl eq_refl l)
                   | apply (splitTop_join "|" eq_refl eq_refl l)];
    apply Forall_forall; intros x Hx;
    apply (proj1 (Forall_forall _ _) H) in Hx; tauto.
Qed.

Lemma split_undoes_join_witness :
  splitByComma (join "," ["a: number"; " b: string"])
  = map trim ["a: number"; " b: string"] /\
  splitUnion (join "|" ["a: number"; " b: string"])
  = map trim ["a: number"; " b: string"].
Proof.
  apply (split_undoes_join ["a: number"; " b: string"]).
  repeat constructor.
Defined.

(** X7: a separator between a pair of brackets does not split: a text
    that opens with a bracket, closes with one and has no bracket in
    between is one part, whatever separators it holds. *)
Theorem brackets_protect_separators o c inner :
  hasChar o openers = true -> hasChar c closers = true ->
  bracketFree inner = true ->
  splitByComma (String o (inner ++ String c "")) = [String o (inner ++ String c "")] /\
  splitUnion (String o (inner ++ String c "")) = [String o (inner ++ String c "")].
Proof.
  intros Ho Hc Hi.
  split; [apply (splitTop_bracketed "," o c inner Ho Hc Hi)
         | apply (splitTop_bracketed "|" o c inner Ho Hc Hi)].
Qed.

Lemma brackets_protect_separators_witness :
  splitByComma "<string, a|b>" = ["<string, a|b>"] /\
  splitUnion "<string, a|b>" = ["<string, a|b>"].
Proof.
  apply (brackets_protect_separators "<" ">" "string, a|b"); reflexivity.
Defined.

(** X8: every part that [splitByComma] and [splitUnion] return is
    trimmed and no longer than the text. *)
Theorem split_parts_are_trimmed s :
  Forall (fun p => trim p = p /\ slen p <= slen s) (splitByComma s) /\
  Forall (fun p => trim p = p /\ slen p <= slen s) (splitUnion s).
Proof.
  split; apply Forall_forall; intros p Hp;
    (split; [exact (splitTop_trimmed _ s p Hp) | exact (splitTop_part_le _ s p Hp)]).
Qed.

(** X9: [findMatchingParen str start] is the first index from [start] on
    at which the parentheses read since [start] are balanced; it fails
    exactly when there is no such index. *)
Theorem findMatchingParen_first_balance str start e :
  findMatchingParen str start = Some e <->
  (start <= e /\ e < slen str /\
   parenDepth (slice start (S e) str) = 0%Z /\
   forall j, start <= j -> j < e -> parenDepth (slice start (S j) str) <> 0%Z).
Proof.
  unfold findMatchingParen, slice. rewrite findParenLoop_spec, length_drop.
  split; intros (H1 & H2 & H3 & H4); repeat split; try lia.
  - now replace (S e - start) with (S (e - start)) by lia.
  - intros j Hj1 Hj2. replace (S j - start) with (S (j - start)) by lia.
    now apply H4.
  - now replace (S (e - start)) with (S e - start) by lia.
  - intros j Hj1 Hj2. replace (S (j - start)) with (S j - start) by lia.
    now apply H4.
Qed.

Section NonEmpty.

Lemma truthy_app_l a b : truthy a = true -> truthy (a ++ b) = true.
Proof. destruct a; [discriminate | reflexivity]. Qed.

Lemma truthy_app_r a b : truthy b = true -> truthy (a ++ b) = true.
Proof. destruct a; [auto | reflexivity]. Qed.

Lemma truthy_join sep x l : truthy x = true -> truthy (join sep (x :: l)) = true.
Proof. intros H. destruct l; [exact H | now apply truthy_app_l]. Qed.

Lemma mapM_head {A B : Type} (f : A -> option B) x l ys :
  mapM f (x :: l) = Some ys -> exists y ys', ys = y :: ys' /\ f x = Some y.
Proof.
  cbn [mapM]. destruct (f x) as [y|]; [|discriminate].
  destruct (mapM f l) as [ys'|]; [|discriminate]. intros [= <-]. eauto.
Qed.

Lemma parseFunTypeWith_truthy rec luaType r :
  parseFunTypeWith rec luaType = Some r -> truthy r = true.
Proof.
  unfold parseFunTypeWith.
  destruct (indexOf "(" luaType); [|intros [= <-]; reflexivity].
  destruct (findMatchingParen luaType _); [|intros [= <-]; reflexivity].
  cbv zeta. destruct (convertReturn rec _); [|discriminate].
  destruct (renderParams rec _); [|discriminate]. intros [= <-]. reflexivity.
Qed.

Lemma convertStep_truthy rec luaType r :
  (forall t r', rec t = Some r' -> truthy r' = true) ->
  convertStep rec luaType = Some r -> truthy r = true.
Proof.
  intros Hrec. unfold convertStep. cbv zeta.
  set (t := stripInlineComments luaType).
  destruct (truthy t) eqn:Ht; cbn [negb]; [|intros [= <-]; reflexivity].
  destruct (String.eqb t "nil"); [intros [= <-]; reflexivity|].
  destruct (endsWith "| nil" t || endsWith "|nil" t).
  { destruct (rec _); [|discriminate]. intros [= <-].
    now apply truthy_app_r. }
  destruct (String.eqb t "number" || String.eqb t "integer");
    [intros [= <-]; reflexivity|].
  destruct (String.eqb t "string"); [intros [= <-]; reflexivity|].
  destruct (String.eqb t "boolean"); [intros [= <-]; reflexivity|].
  destruct (String.eqb t "any"); [intros [= <-]; reflexivity|].
  destruct (String.eqb t "userdata"); [intros [= <-]; reflexivity|].
  destruct (String.eqb t "table"); [intros [= <-]; reflexivity|].
  destruct (String.eqb t "function"); [intros [= <-]; reflexivity|].
  destruct (endsWith "?" t && negb (includes "|" t)).
  { destruct (rec _); [|discriminate]. intros [= <-].
    now apply truthy_app_r. }
  destruct (includes "|" t && (1 <? List.length (splitUnion t))) eqn:Hu.
  { apply andb_prop in Hu as [_ Hu]. apply Nat.ltb_lt in Hu.
    destruct (splitUnion t) as [|p ps]; [cbn in Hu; lia|].
    destruct (mapM _ (p :: ps)) as [converted|] eqn:E; [|discriminate].
    intros [= <-]. apply mapM_head in E as [y [ys [-> Hy]]].
    rewrite dedupe_cons. apply truthy_join. now apply (Hrec _ _ Hy). }
  destruct (startsWith "(" t && endsWith ")" t).
  { destruct (1 <? List.length (splitByComma (sliceInner 1 t))).
    - destruct (mapM _ _); [|discriminate]. intros [= <-]. reflexivity.
    - apply Hrec. }
  destruct (exec re_array t).
  { destruct (rec _); [|discriminate]. intros [= <-].
    now apply truthy_app_r. }
  assert (Hlast : (if isFunType t then parseFunTypeWith rec t else Some t) = Some r ->
                  truthy r = true).
  { destruct (isFunType t); [apply parseFunTypeWith_truthy|].
    now intros [= <-]. }
  destruct (if startsWith "table<" t && endsWith ">" t
            then splitByComma (sliceInner 6 t) else []) as [|k [|v [|]]];
    try exact Hlast.
  destruct (rec (trim k)); [|discriminate].
  destruct (rec (trim v)); [|discriminate]. intros [= <-]. reflexivity.
Qed.

Lemma convertFuel_truthy : forall n luaType r,
  convertFuel n luaType = Some r -> truthy r = true.
Proof.
  induction n as [|n IH]; intros luaType r; cbn [convertFuel]; [discriminate|].
  apply convertStep_truthy. exact (IH).
Qed.

End NonEmpty.

(** X10: the translation of a type is never the empty text. *)
Theorem convertLuaTypeToTS_never_empty luaType :
  convertLuaTypeToTS luaType <> "".
Proof.
  pose proof (convertFuel_value (S (slen luaType)) luaType (Nat.lt_succ_diag_r _)) as H.
  apply convertFuel_truthy in H. intros E. rewrite E in H. discriminate H.
Qed.

(** X11: white space around a type or an alias body does not change its
    translation. *)
Theorem translation_ignores_outer_space luaType :
  convertLuaTypeToTS (trim luaType) = convertLuaTypeToTS luaType /\
  convertLuaAliasToTS (trim luaType) = convertLuaAliasToTS luaType.
Proof.
  split.
  - assert (H : Some (convertLuaTypeToTS (trim luaType))
                = Some (convertLuaTypeToTS luaType)); [|now injection H].
    rewrite !convertLuaTypeToTS_eq. unfold convertStep, stripInlineComments.
    rewrite trim_idem. reflexivity.
  - unfold convertLuaAliasToTS. rewrite trim_idem. reflexivity.
Qed.

Section SuffixFacts.

Lemma lastChar_app a b : truthy b = true -> lastChar (a ++ b) = lastChar b.
Proof.
  intros Hb. induction a as [|c a IH]; [reflexivity|].
  cbn [append lastChar]. rewrite IH.
  destruct (a ++ b) eqn:E; [|reflexivity].
  destruct a; [cbn [append] in E; subst b; discriminate Hb | discriminate E].
Qed.

Lemma endsWith_lastChar p s :
  endsWith p s = true -> truthy p = true -> lastChar s = lastChar p.
Proof.
  unfold endsWith. intros H Hp. apply andb_prop in H as [_ H].
  apply String.eqb_eq in H.
  rewrite <- (take_drop (slen s - slen p) s), H. now apply lastChar_app.
Qed.

Lemma eqb_lastChar s p :
  String.eqb s p = true -> lastChar s = lastChar p.
Proof. intros H. apply String.eqb_eq in H. now subst. Qed.

Lemma endsWith_app t p : endsWith p (t ++ p) = true.
Proof.
  unfold endsWith. rewrite length_append.
  replace (slen t + slen p - slen p) with (slen t) by lia.
  apply andb_true_intro. split; [apply Nat.leb_le; lia|].
  apply String.eqb_eq. induction t as [|c t IH]; [reflexivity | exact IH].
Qed.

Lemma dropLast_app t c : dropLast (t ++ String c "") = t.
Proof.
  unfold dropLast. rewrite length_append. cbn [String.length].
  replace (slen t + 1 - 1) with (slen t) by lia. apply take_app.
Qed.

Lemma includes_char c : forall s, includes (String c "") s = hasChar c s.
Proof.
  induction s as [|d s IH]; [reflexivity|].
  rewrite includes_cons, IH. cbn [prefix hasChar].
  destruct (ascii_dec c d) as [->|Hne].
  - rewrite Ascii.eqb_refl. destruct s; reflexivity.
  - destruct (Ascii.eqb_spec c d); [contradiction | reflexivity].
Qed.

Lemma hasChar_app c a b : hasChar c (a ++ b) = hasChar c a || hasChar c b.
Proof.
  induction a as [|d a IH]; cbn [append hasChar]; [reflexivity|].
  now rewrite IH, orb_assoc.
Qed.

Lemma indexOf_noSpace x : forall s,
  noSpace s = true -> indexOf (String " " x) s = None.
Proof.
  induction s as [|c s IH]; [reflexivity|]. cbn [noSpace]. intros H.
  apply andb_prop in H as [Hc Hs]. cbn [indexOf prefix].
  destruct (ascii_dec " " c) as [<-|_]; [discriminate Hc|].
  now rewrite (IH Hs).
Qed.

Lemma stripInlineComments_noSpace s :
  noSpace s = true -> stripInlineComments s = s.
Proof.
  intros H. unfold stripInlineComments, cutAtText.
  rewrite (trim_noSpace s H), !(indexOf_noSpace _ s H). reflexivity.
Qed.

(** A text whose last character is not a lower-case letter is none of
    the type names and has no [nil] suffix. *)
Lemma not_simple s c :
  lastChar s = Some c -> isLower c = false ->
  truthy s = true /\ String.eqb s "nil" = false /\
  endsWith "| nil" s || endsWith "|nil" s = false /\
  String.eqb s "number" || String.eqb s "integer" = false /\
  String.eqb s "string" = false /\ String.eqb s "boolean" = false /\
  String.eqb s "any" = false /\ String.eqb s "userdata" = false /\
  String.eqb s "table" = false /\ String.eqb s "function" = false.
Proof.
  intros Hl Hc.
  assert (He : forall p d, lastChar p = Some d -> isLower d = true ->
                           String.eqb s p = false).
  { intros p d Hp Hd. destruct (String.eqb s p) eqn:E; [|reflexivity].
    apply eqb_lastChar in E. congruence. }
  assert (Hw : forall p d, lastChar p = Some d -> isLower d = true ->
                           truthy p = true -> endsWith p s = false).
  { intros p d Hp Hd Ht. destruct (endsWith p s) eqn:E; [|reflexivity].
    apply endsWith_lastChar in E; [congruence | exact Ht]. }
  repeat match goal with |- _ /\ _ => split end.
  - destruct s; [discriminate Hl | reflexivity].
  - now apply (He "nil" "l"%char).
  - rewrite (Hw "| nil" "l"%char), (Hw "|nil" "l"%char); reflexivity.
  - rewrite (He "number" "r"%char), (He "integer" "r"%char); reflexivity.
  - now apply (He "string" "g"%char).
  - now apply (He "boolean" "n"%char).
  - now apply (He "any" "y"%char).
  - now apply (He "userdata" "a"%char).
  - now apply (He "table" "e"%char).
  - now apply (He "function" "n"%char).
Qed.

Lemma convertStep_optional rec t :
  noSpace t = true -> includes "|" t = false ->
  convertStep rec (t ++ "?")
  = option_map (fun x => x ++ " | undefined") (rec t).
Proof.
  intros Hs Hb. unfold convertStep. cbv zeta.
  rewrite stripInlineComments_noSpace
    by (rewrite noSpace_app, Hs; reflexivity).
  destruct (not_simple (t ++ "?") "?"%char)
    as (-> & -> & -> & -> & -> & -> & -> & -> & -> & ->);
    [now apply lastChar_app | reflexivity|].
  cbn [negb]. rewrite (endsWith_app t "?").
  rewrite includes_char, hasChar_app, <- includes_char, Hb.
  cbn [hasChar orb negb andb Ascii.eqb Bool.eqb].
  rewrite dropLast_app. reflexivity.
Qed.

End SuffixFacts.

(** X12: a type followed by a question mark is the type or [undefined]:
    for a text [t] without white space and without a bar,
    [t?] translates to the translation of [t] with [" | undefined"]. *)
Theorem optional_suffix t :
  noSpace t = true -> includes "|" t = false ->
  convertLuaTypeToTS (t ++ "?") = convertLuaTypeToTS t ++ " | undefined".
Proof.
  intros Hs Hb.
  pose proof (convertLuaTypeToTS_eq (t ++ "?")) as H.
  rewrite (convertStep_optional _ t Hs Hb) in H. cbn [option_map] in H.
  now injection H.
Qed.

Lemma optional_suffix_witness :
  convertLuaTypeToTS ("number" ++ "?") = convertLuaTypeToTS "number" ++ " | undefined".
Proof. apply (optional_suffix "number"); reflexivity. Defined.

Section ArrayFacts.

Lemma noSpace_isDot c : isSpace c = false -> isDot c = true.
Proof.
  unfold isSpace, isDot, between. intros H.
  apply orb_false_iff in H as [H _]. apply orb_false_iff in H as [H _].
  destruct (Nat.eqb_spec (code c) 10) as [E|_]; [rewrite E in H; discriminate H|].
  destruct (Nat.eqb_spec (code c) 13) as [E|_]; [rewrite E in H; discriminate H|].
  reflexivity.
Qed.

Lemma starLoop_array start : forall t fuel i cs,
  noSpace t = true -> slen (t ++ "[]") <= fuel ->
  starLoop (run dot) true (afterGroup start) fuel i (t ++ "[]") cs
  = Some (i + slen t + 2, (1, (start, i + slen t)) :: cs).
Proof.
  induction t as [|c t IH]; intros fuel i cs Hs Hf.
  - cbn [append String.length] in *.
    destruct fuel as [|[|[|fuel]]]; try lia.
    all: unfold afterGroup; cbn; rewrite ?Nat.add_0_r;
      change (isDot "[") with true; change (isDot "]") with true; reflexivity.
  - cbn [noSpace] in Hs. apply andb_prop in Hs as [Hc Hs].
    apply negb_true_iff in Hc. apply noSpace_isDot in Hc.
    cbn [append String.length] in *.
    destruct fuel as [|fuel]; [lia|]. cbn [starLoop]. cbv zeta.
    unfold dot at 1. cbn [run]. rewrite Hc.
    replace (slen (String c (t ++ "[]")) <=? slen (t ++ "[]")) with false
      by (symmetry; apply Nat.leb_gt; cbn [String.length]; lia).
    rewrite (IH fuel (S i) cs Hs) by lia.
    replace (S i + slen t) with (i + S (slen t)) by lia. reflexivity.
Qed.

Lemma exec_array t :
  noSpace t = true -> truthy t = true ->
  exec re_array (t ++ "[]") = Some (mkFound 0 (slen t + 2) [(1, (0, slen t))]).
Proof.
  intros Hs Ht. unfold re_array. cbn [seq]. rewrite exec_anchored.
  destruct t as [|c t]; [discriminate Ht|].
  cbn [noSpace] in Hs. apply andb_prop in Hs as [Hc Hs].
  apply negb_true_iff in Hc. apply noSpace_isDot in Hc.
  rewrite run_Seq, run_Group. unfold plus. rewrite run_Seq.
  unfold dot at 1. cbn [append]. cbn [run]. rewrite Hc.
  match goal with
  | |- match ?x with _ => _ end = _ =>
      replace x with (starLoop (run dot) true (afterGroup 0)
                        (slen (t ++ "[]")) 1 (t ++ "[]") []) by reflexivity
  end.
  rewrite (starLoop_array 0 t _ 1 [] Hs) by lia.
  cbn [String.length]. repeat f_equal.
Qed.

Lemma array_needs_bracket s m :
  exec re_array s = Some m -> lastChar s = Some "]"%char.
Proof.
  unfold re_array. cbn [seq]. rewrite exec_anchored, run_Seq.
  destruct (run _ 0 s [] _) as [[e cs]|] eqn:E; [|discriminate].
  intros _. apply run_inv in E as (i' & cs' & Hk & _ & _).
  rewrite run_Seq, run_Lit in Hk.
  destruct (stripPrefix "[]" (drop (i' - 0) s)) as [r|] eqn:Hp; [|discriminate Hk].
  rewrite run_Eol in Hk. destruct r; [|discriminate Hk].
  apply stripPrefix_app in Hp. cbn [append] in Hp.
  rewrite <- (take_drop (i' - 0) s), Hp. now apply lastChar_app.
Qed.

Lemma convertStep_array rec t :
  noSpace t = true -> truthy t = true -> includes "|" t = false ->
  convertStep rec (t ++ "[]") = option_map (fun x => x ++ "[]") (rec t).
Proof.
  intros Hs Ht Hb. unfold convertStep. cbv zeta.
  rewrite stripInlineComments_noSpace
    by (rewrite noSpace_app, Hs; reflexivity).
  assert (Hl : lastChar (t ++ "[]") = Some "]"%char) by now apply lastChar_app.
  destruct (not_simple (t ++ "[]") "]"%char Hl eq_refl)
    as (-> & -> & -> & -> & -> & -> & -> & -> & -> & ->).
  cbn [negb].
  assert (Hq : endsWith "?" (t ++ "[]") = false).
  { destruct (endsWith "?" (t ++ "[]")) eqn:E; [|reflexivity].
    apply endsWith_lastChar in E; [|reflexivity]. rewrite Hl in E.
    discriminate E. }
  assert (Hp : endsWith ")" (t ++ "[]") = false).
  { destruct (endsWith ")" (t ++ "[]")) eqn:E; [|reflexivity].
    apply endsWith_lastChar in E; [|reflexivity]. rewrite Hl in E.
    discriminate E. }
  rewrite Hq, Hp, andb_false_r. cbn [andb].
  rewrite includes_char, hasChar_app, <- includes_char, Hb.
  cbn [hasChar orb andb Ascii.eqb Bool.eqb].
  rewrite (exec_array t Hs Ht). unfold group. cbn [f_caps lookup Nat.eqb].
  unfold slice. cbn [drop]. rewrite Nat.sub_0_r, take_app. reflexivity.
Qed.

End ArrayFacts.

(** X13: a type followed by a pair of square brackets is an array of the
    type: for a non-empty text [t] without white space and without a bar,
    [t[]] translates to the translation of [t] with ["[]"]. *)
Theorem array_suffix t :
  noSpace t = true -> truthy t = true -> includes "|" t = false ->
  convertLuaTypeToTS (t ++ "[]") = convertLuaTypeToTS t ++ "[]".
Proof.
  intros Hs Ht Hb.
  pose proof (convertLuaTypeToTS_eq (t ++ "[]")) as H.
  rewrite (convertStep_array _ t Hs Ht Hb) in H. cbn [option_map] in H.
  now injection H.
Qed.

Lemma array_suffix_witness :
  convertLuaTypeToTS ("game_object" ++ "[]") = convertLuaTypeToTS "game_object" ++ "[]".
Proof. apply (array_suffix "game_object"); reflexivity. Defined.

Section WordFacts.

Lemma allWord_drop : forall n s, allWord s = true -> allWord (drop n s) = true.
Proof.
  induction n as [|n IH]; intros [|c s] H; cbn [drop]; try exact H.
  apply IH. cbn [allWord] in H. now apply andb_prop in H.
Qed.

Lemma allWord_prefix : forall p s,
  prefix p s = true -> allWord s = true -> allWord p = true.
Proof.
  induction p as [|a p IH]; intros [|b s] H Hs; cbn [prefix] in H;
    try reflexivity; try discriminate H.
  destruct (ascii_dec a b) as [->|]; [|discriminate H].
  cbn [allWord] in *. apply andb_prop in Hs as [Hb Hs].
  rewrite Hb. cbn [andb]. now apply (IH s).
Qed.

Lemma allWord_endsWith p s :
  endsWith p s = true -> allWord s = true -> allWord p = true.
Proof.
  unfold endsWith. intros H Hs. apply andb_prop in H as [_ H].
  apply String.eqb_eq in H. rewrite <- H. now apply allWord_drop.
Qed.

Lemma allWord_hasChar c : forall s,
  allWord s = true -> isWord c = false -> hasChar c s = false.
Proof.
  induction s as [|d s IH]; [reflexivity|]. cbn [allWord hasChar].
  intros H Hc. apply andb_prop in H as [Hd Hs].
  rewrite (IH Hs Hc), orb_false_r.
  destruct (Ascii.eqb_spec c d) as [->|]; [congruence | reflexivity].
Qed.

Lemma allWord_lastChar : forall s c,
  allWord s = true -> lastChar s = Some c -> isWord c = true.
Proof.
  induction s as [|d s IH]; intros c H Hl; [discriminate Hl|].
  cbn [allWord] in H. apply andb_prop in H as [Hd Hs].
  cbn [lastChar] in Hl. destruct s as [|e s]; [now injection Hl as <-|].
  now apply IH.
Qed.

Lemma word_not_bracket c :
  isWord c = true -> hasChar c openers = false /\ hasChar c closers = false.
Proof.
  destruct c as [[] [] [] [] [] [] [] []]; vm_compute; intuition congruence.
Qed.

Lemma allWord_plain sep : forall s,
  isWord sep = false -> allWord s = true -> plain sep s = true.
Proof.
  intros s Hsep. induction s as [|c s IH]; [reflexivity|].
  cbn [allWord plain]. intros H. apply andb_prop in H as [Hc Hs].
  destruct (word_not_bracket c Hc) as [-> ->]. rewrite (IH Hs).
  destruct (Ascii.eqb_spec c sep) as [->|]; [congruence | reflexivity].
Qed.

Lemma convertStep_name rec name :
  allWord name = true -> truthy name = true ->
  inList name primitiveNames = false ->
  convertStep rec name = Some name.
Proof.
  intros Hw Ht Hp. unfold convertStep. cbv zeta.
  rewrite (stripInlineComments_noSpace name (allWord_noSpace name Hw)), Ht.
  unfold primitiveNames in Hp. rewrite !inList_cons in Hp.
  repeat (apply orb_false_iff in Hp as [?H Hp]).
  assert (He : forall p, allWord p = false -> endsWith p name = false).
  { intros p Hf. destruct (endsWith p name) eqn:E; [|reflexivity].
    apply allWord_endsWith in E; [congruence | exact Hw]. }
  assert (Hs : forall p, allWord p = false -> startsWith p name = false).
  { intros p Hf. destruct (startsWith p name) eqn:E; [|reflexivity].
    apply allWord_prefix in E; [congruence | exact Hw]. }
  rewrite H, H0, H1, H2, H3, H4, H5, H6, H7.
  rewrite !He by reflexivity. cbn [negb orb andb].
  rewrite includes_char, (allWord_hasChar "|" name Hw eq_refl).
  rewrite andb_false_r. cbn [andb].
  destruct (exec re_array name) as [m|] eqn:E.
  { apply array_needs_bracket in E.
    apply (allWord_lastChar name _ Hw) in E. discriminate E. }
  unfold isFunType. rewrite !Hs by reflexivity. reflexivity.
Qed.

End WordFacts.

(** X14: a name passes through: a non-empty text of word characters that
    is none of the type names the translator knows is its own
    translation. *)
Theorem class_name_passes_through name :
  allWord name = true -> truthy name = true ->
  inList name primitiveNames = false ->
  convertLuaTypeToTS name = name.
Proof.
  intros Hw Ht Hp. pose proof (convertLuaTypeToTS_eq name) as H.
  rewrite (convertStep_name _ name Hw Ht Hp) in H. now injection H.
Qed.

Lemma class_name_passes_through_witness :
  convertLuaTypeToTS "game_object" = "game_object".
Proof. apply class_name_passes_through; reflexivity. Defined.

Section TableFacts.

(** In front of a needle that begins with a space, text without white
    space can be skipped. *)
Lemma indexOf_skip x b : forall a,
  noSpace a = true ->
  indexOf (String " " x) (a ++ b)
  = option_map (fun i => slen a + i) (indexOf (String " " x) b).
Proof.
  induction a as [|c a IH]; intros H.
  - cbn [append String.length]. destruct (indexOf _ b); reflexivity.
  - cbn [noSpace] in H. apply andb_prop in H as [Hc Hs].
    cbn [append indexOf prefix].
    destruct (ascii_dec " " c) as [<-|_]; [discriminate Hc|].
    rewrite (IH Hs). destruct (indexOf _ b); reflexivity.
Qed.

Lemma indexOf_cons needle c s :
  indexOf needle (String c s)
  = if prefix needle (String c s) then Some 0
    else option_map S (indexOf needle s).
Proof. reflexivity. Qed.

Lemma prefix_cons a p b s :
  prefix (String a p) (String b s) = if ascii_dec a b then prefix p s else false.
Proof. reflexivity. Qed.

Lemma no_comment_after_space x v :
  noSpace v = true -> truthy v = true ->
  (forall c r, v = String c r -> prefix x (String c r) = false) ->
  indexOf (String " " x) (String " " v) = None.
Proof.
  intros Hs Ht Hx. destruct v as [|c r]; [discriminate Ht|].
  rewrite indexOf_cons, prefix_cons.
  destruct (ascii_dec " " " ") as [_|n]; [|now contradiction n].
  rewrite (Hx c r eq_refl), (indexOf_noSpace x (String c r) Hs). reflexivity.
Qed.

Lemma table_text_clean k v :
  allWord k = true -> allWord v = true -> truthy v = true ->
  stripInlineComments ("table<" ++ k ++ ", " ++ v ++ ">")
  = "table<" ++ k ++ ", " ++ v ++ ">".
Proof.
  intros Hk Hv Ht. unfold stripInlineComments.
  assert (Htrim : trim ("table<" ++ k ++ ", " ++ v ++ ">")
                  = "table<" ++ k ++ ", " ++ v ++ ">").
  { change ("table<" ++ k ++ ", " ++ v ++ ">")
      with (String "t" ("able<" ++ k ++ ", " ++ v ++ ">")).
    rewrite trim_head by reflexivity. f_equal.
    replace ("able<" ++ k ++ ", " ++ v ++ ">")
      with (("able<" ++ k ++ ", " ++ v) ++ ">")
      by (now rewrite !append_assoc).
    now apply trimEnd_last. }
  rewrite Htrim.
  assert (Hsplit : "table<" ++ k ++ ", " ++ v ++ ">"
                   = ("table<" ++ k ++ ",") ++ String " " (v ++ ">")).
  { now rewrite !append_assoc. }
  assert (Hfront : noSpace ("table<" ++ k ++ ",") = true).
  { rewrite !noSpace_app, (allWord_noSpace k Hk). reflexivity. }
  assert (Hback : noSpace (v ++ ">") = true).
  { rewrite noSpace_app, (allWord_noSpace v Hv). reflexivity. }
  assert (Hfirst : forall a x, isWord a = false ->
                     forall c r, v ++ ">" = String c r ->
                       prefix (String a x) (String c r) = false).
  { intros a x Ha c r E. destruct v as [|d v']; [discriminate Ht|].
    cbn [append] in E. injection E as <- <-.
    cbn [allWord] in Hv. apply andb_prop in Hv as [Hd _].
    rewrite prefix_cons. destruct (ascii_dec a d) as [->|]; [congruence | reflexivity]. }
  unfold cutAtText.
  assert (H1 : indexOf " --" ("table<" ++ k ++ ", " ++ v ++ ">") = None).
  { rewrite Hsplit, (indexOf_skip "--" _ _ Hfront).
    rewrite (no_comment_after_space "--" (v ++ ">") Hback);
      [reflexivity | now apply truthy_app_l |].
    now apply Hfirst. }
  rewrite H1.
  assert (H2 : indexOf "  #" ("table<" ++ k ++ ", " ++ v ++ ">") = None).
  { rewrite Hsplit, (indexOf_skip " #" _ _ Hfront).
    rewrite (no_comment_after_space " #" (v ++ ">") Hback);
      [reflexivity | now apply truthy_app_l |].
    now apply Hfirst. }
  rewrite H2. reflexivity.
Qed.

Lemma trim_after_space v : noSpace v = true -> trim (String " " v) = v.
Proof.
  intros H. unfold trim. cbn [trimStart].
  change (isSpace " ") with true. cbv iota. now apply (trim_noSpace v).
Qed.

Lemma table_parts k v :
  allWord k = true -> truthy k = true -> allWord v = true -> truthy v = true ->
  splitByComma (k ++ ", " ++ v) = [k; v].
Proof.
  intros Hk Htk Hv Htv.
  change (k ++ ", " ++ v) with (join "," [k; String " " v]).
  unfold splitByComma.
  rewrite (splitTop_join "," eq_refl eq_refl).
  - cbn [map]. rewrite (trim_noSpace k (allWord_noSpace k Hk)),
      (trim_after_space v (allWord_noSpace v Hv)). reflexivity.
  - constructor; [|constructor; [|constructor]].
    + rewrite (trim_noSpace k (allWord_noSpace k Hk)).
      split; [now apply allWord_plain | exact Htk].
    + rewrite (trim_after_space v (allWord_noSpace v Hv)).
      split; [|exact Htv]. cbn [plain]. change (hasChar " " openers) with false.
      change (hasChar " " closers) with false. cbn [negb andb Ascii.eqb Bool.eqb].
      now apply allWord_plain.
Qed.

Lemma convertStep_table rec k v :
  allWord k = true -> truthy k = true -> allWord v = true -> truthy v = true ->
  convertStep rec ("table<" ++ k ++ ", " ++ v ++ ">")
  = match rec k, rec v with
    | Some tk, Some tv => Some ("Record<" ++ tk ++ ", " ++ tv ++ ">")
    | _, _ => None
    end.
Proof.
  intros Hk Htk Hv Htv. unfold convertStep. cbv zeta.
  rewrite (table_text_clean k v Hk Hv Htv).
  set (s := "table<" ++ k ++ ", " ++ v ++ ">").
  assert (Hs : s = ("table<" ++ k ++ ", " ++ v) ++ ">")
    by (unfold s; now rewrite !append_assoc).
  assert (Hl : lastChar s = Some ">"%char) by (rewrite Hs; now apply lastChar_app).
  destruct (not_simple s ">"%char Hl eq_refl)
    as (-> & -> & -> & -> & -> & -> & -> & -> & -> & ->).
  cbn [negb].
  assert (He : forall p c, lastChar p = Some c -> c <> ">"%char ->
                           truthy p = true -> endsWith p s = false).
  { intros p c Hp Hc Ht. destruct (endsWith p s) eqn:E; [|reflexivity].
    apply endsWith_lastChar in E; [congruence | exact Ht]. }
  rewrite (He "?" "?"%char), (He ")" ")"%char) by (reflexivity || discriminate).
  rewrite andb_false_r. cbn [andb].
  assert (Hbar : includes "|" s = false).
  { unfold s. rewrite includes_char, !hasChar_app.
    rewrite (allWord_hasChar "|" k Hk eq_refl), (allWord_hasChar "|" v Hv eq_refl).
    reflexivity. }
  rewrite Hbar. cbn [andb].
  destruct (exec re_array s) as [m|] eqn:E.
  { apply array_needs_bracket in E. rewrite Hl in E. discriminate E. }
  assert (Hstart : startsWith "table<" s = true).
  { unfold s. apply (prefix_extend "table<" "table<"). reflexivity. }
  assert (Hend : endsWith ">" s = true) by (rewrite Hs; apply endsWith_app).
  rewrite Hstart, Hend. cbn [andb].
  assert (Hinner : sliceInner 6 s = k ++ ", " ++ v).
  { unfold sliceInner, slice.
    replace (slen s - 1 - 6) with (slen (k ++ ", " ++ v))
      by (unfold s; rewrite !length_append; cbn [String.length]; lia).
    assert (Hd : drop 6 s = (k ++ ", " ++ v) ++ ">").
    { unfold s. cbn [append drop]. now rewrite !append_assoc. }
    rewrite Hd. apply take_app. }
  rewrite Hinner, (table_parts k v Hk Htk Hv Htv).
  rewrite (trim_noSpace k (allWord_noSpace k Hk)),
    (trim_noSpace v (allWord_noSpace v Hv)).
  reflexivity.
Qed.

End TableFacts.

(** X15: a table type with a key and a value is a record: for names [k]
    and [v], [table<k, v>] translates to [Record] of the translations of
    [k] and [v]. *)
Theorem table_is_record k v :
  allWord k = true -> truthy k = true -> allWord v = true -> truthy v = true ->
  convertLuaTypeToTS ("table<" ++ k ++ ", " ++ v ++ ">")
  = "Record<" ++ convertLuaTypeToTS k ++ ", " ++ convertLuaTypeToTS v ++ ">".
Proof.
  intros Hk Htk Hv Htv.
  pose proof (convertLuaTypeToTS_eq ("table<" ++ k ++ ", " ++ v ++ ">")) as H.
  rewrite (convertStep_table _ k v Hk Htk Hv Htv) in H. now injection H.
Qed.

Lemma table_is_record_witness :
  convertLuaTypeToTS ("table<" ++ "string" ++ ", " ++ "integer" ++ ">")
  = "Record<" ++ convertLuaTypeToTS "string" ++ ", " ++ convertLuaTypeToTS "integer" ++ ">".
Proof. apply table_is_record; reflexivity. Defined.

Section MainFacts.

Context {World : Type}.
Variable node : Node World.

Lemma runModules_cons w entry mods r :
  runModules node w (entry :: mods) r
  = runModules node (fst (processModule node w (fst entry) (snd entry))) mods
      (count r (snd (processModule node w (fst entry) (snd entry)))).
Proof.
  unfold runModules. cbn [fold_left fst snd].
  destruct (processModule node w (fst entry) (snd entry)); reflexivity.
Qed.

(** The file system the loop leaves does not depend on the report. *)
Lemma runModules_world : forall mods w r r',
  fst (runModules node w mods r) = fst (runModules node w mods r').
Proof.
  induction mods as [|entry mods IH]; intros w r r'; [reflexivity|].
  rewrite !runModules_cons. apply IH.
Qed.

Lemma runModules_counts : forall mods w r,
  let r' := snd (runModules node w mods r) in
  successCount r' + skipCount r' + errorCount r'
  = successCount r + skipCount r + errorCount r + List.length mods /\
  (successCount r = List.length (written r) ->
   successCount r' = List.length (written r')).
Proof.
  induction mods as [|entry mods IH]; intros w r; cbv zeta.
  - cbn. split; [lia | auto].
  - rewrite runModules_cons.
    destruct (processModule node w (fst entry) (snd entry)) as [w' o].
    cbn [fst snd]. destruct (IH w' (count r o)) as [H1 H2].
    cbv zeta in H1, H2. split.
    + rewrite H1. cbn [List.length].
      destruct o; cbn [count successCount skipCount errorCount]; lia.
    + intros H. apply H2.
      destruct o; cbn [count successCount written]; try exact H.
      rewrite length_app. cbn [List.length]. lia.
Qed.

Lemma ensureDir_true outputDir w w1 :
  ensureDir node outputDir w = (w1, true) <->
  (existsSync node outputDir w = true /\ w1 = w \/
   existsSync node outputDir w = false /\ mkdirSync node outputDir w = (w1, true)).
Proof.
  unfold ensureDir. destruct (existsSync node outputDir w); cbn [negb].
  - split.
    + intros [= <-]. left. auto.
    + intros [[_ ->]|[H _]]; [reflexivity | discriminate H].
  - split.
    + intros H. right. auto.
    + intros [[H _]|[_ H]]; [discriminate H | exact H].
Qed.

Lemma processModule_written w entry :
  match snd (processModule node w (fst entry) (snd entry)) with
  | Written p d => writes node w entry (p, d)
  | _ => forall out, ~ writes node w entry out
  end.
Proof.
  unfold processModule, writes. cbv zeta.
  set (inputPath := path_join node (API_DIR node) (file (snd entry))).
  set (outputPath := path_join node (OUTPUT_DIR node) (fst entry ++ ".d.ts")).
  set (outputDir := path_dirname node outputPath).
  destruct (existsSync node inputPath w) eqn:Ex; cbn [negb].
  2:{ cbn [snd]. intros out [H _]. discriminate H. }
  destruct (readFileSync node inputPath w) as [content|] eqn:Er.
  2:{ cbn [snd]. intros out [_ [c [H _]]]. discriminate H. }
  destruct (pr_classes (parseApiFile content)) eqn:Ec; cbn [List.length Nat.eqb].
  { cbn [snd]. intros out [_ [c [[= <-] [H _]]]]. now rewrite Ec in H. }
  set (declaration :=
         applyPostProcessing (fst entry)
           (generateDeclaration (fst entry) (snd entry) (parseApiFile content))).
  destruct (ensureDir node outputDir w) as [w1 [|]] eqn:Ed.
  - destruct (writeFileSync node outputPath declaration w1) as [w2 [|]] eqn:Ew;
      cbn [snd].
    + split; [reflexivity|]. exists content. split; [reflexivity|].
      split; [rewrite Ec; discriminate|]. split; [reflexivity|].
      exists w1. split; [now apply ensureDir_true|]. cbn [snd]. fold declaration.
      now rewrite Ew.
    + intros out [_ [c [[= <-] [_ [-> [w1' [Hd Hw]]]]]]].
      apply ensureDir_true in Hd. rewrite Ed in Hd. injection Hd as <-.
      cbn [snd] in Hw. fold declaration in Hw. rewrite Ew in Hw. discriminate Hw.
  - cbn [snd]. intros out [_ [c [[= <-] [_ [_ [w1' [Hd _]]]]]]].
    apply ensureDir_true in Hd. rewrite Ed in Hd. discriminate Hd.
Qed.

(** Two files that one module can write in one file system are the same. *)
Lemma writes_unique w entry out1 out2 :
  writes node w entry out1 -> writes node w entry out2 -> out1 = out2.
Proof.
  intros [_ [c1 [R1 [_ [-> _]]]]] [_ [c2 [R2 [_ [-> _]]]]]. congruence.
Qed.

Lemma runModules_written : forall mods w r out,
  In out (written (snd (runModules node w mods r))) <->
  In out (written r) \/
  exists before entry after,
    mods = (before ++ entry :: after)%list /\
    writes node (fst (runModules node w before emptyReport)) entry out.
Proof.
  induction mods as [|entry mods IH]; intros w r out.
  - cbn. split; [auto | intros [H|(b & e & a & H & _)]; [exact H|]].
    now destruct b.
  - rewrite runModules_cons, IH.
    pose proof (processModule_written w entry) as Hp.
    assert (Hlater :
      forall w' r',
        (exists before e after,
           mods = (before ++ e :: after)%list /\
           writes node (fst (runModules node w' before r')) e out) ->
        w' = fst (processModule node w (fst entry) (snd entry)) ->
        exists before e after,
          (entry :: mods = before ++ e :: after)%list /\
          writes node (fst (runModules node w before emptyReport)) e out).
    { intros w' r' (b & e & a & -> & Hw) ->. exists (entry :: b), e, a.
      split; [reflexivity|]. rewrite runModules_cons.
      now rewrite (runModules_world b _ _ r'). }
    assert (Hsplit :
      (exists before e after,
         (entry :: mods = before ++ e :: after)%list /\
         writes node (fst (runModules node w before emptyReport)) e out) ->
      writes node w entry out \/
      exists before e after,
        mods = (before ++ e :: after)%list /\
        writes node
          (fst (runModules node (fst (processModule node w (fst entry) (snd entry)))
                  before emptyReport)) e out).
    { intros (b & e & a & Heq & Hw). destruct b as [|x b].
      - cbn [app] in Heq. injection Heq as <- <-. left. exact Hw.
      - cbn [app] in Heq. injection Heq as <- ->. right. exists b, e, a.
        split; [reflexivity|].
        rewrite runModules_cons, (runModules_world b _ _ emptyReport) in Hw.
        exact Hw. }
    destruct (snd (processModule node w (fst entry) (snd entry))) as [| | |p d];
      cbn [count written].
    1-3: split;
      [ intros [H|H]; [now left | right; eapply Hlater; eauto]
      | intros [H|H]; [now left|];
        apply Hsplit in H as [H|H]; [now apply Hp in H | right; exact H] ].
    rewrite in_app_iff. cbn [In]. split.
    + intros [[H|[<-|[]]]|H].
      * now left.
      * right. exists [], entry, mods. split; [reflexivity | exact Hp].
      * right. eapply Hlater; eauto.
    + intros [H|H]; [left; now left|].
      apply Hsplit in H as [H|H]; [|right; exact H].
      left. right. left. exact (writes_unique _ _ _ _ Hp H).
Qed.

Lemma processModule_name w modulePath config p d :
  snd (processModule node w modulePath config) = Written p d ->
  p = modulePath ++ ".d.ts".
Proof.
  unfold processModule. cbv zeta.
  destruct (negb _); [discriminate|].
  destruct (readFileSync _ _ _); [|discriminate].
  destruct (_ =? 0); [discriminate|].
  destruct (ensureDir _ _ _) as [w1 [|]]; [|discriminate].
  destruct (writeFileSync _ _ _ _) as [w2 [|]]; [|discriminate].
  cbn [snd]. now intros [= <- _].
Qed.

(** The loop writes under names of its modules, in their order. *)
Lemma runModules_paths : forall mods w r,
  NoDup (map fst (written r) ++
         map (fun entry => (fst entry ++ ".d.ts")%string) mods)%list ->
  NoDup (map fst (written (snd (runModules node w mods r)))).
Proof.
  induction mods as [|entry mods IH]; intros w r H.
  - cbn in *. now rewrite app_nil_r in H.
  - rewrite runModules_cons. apply IH.
    pose proof (processModule_name w (fst entry) (snd entry)) as Hn.
    destruct (snd (processModule node w (fst entry) (snd entry))) as [| | |p d];
      cbn [count written].
    1-3: cbn [map] in H; now apply NoDup_remove_1 in H.
    rewrite (Hn p d eq_refl), map_app, <- app_assoc. exact H.
Qed.

Lemma runModules_snoc : forall before w r entry,
  runModules node w (before ++ [entry]) r
  = (fst (processModule node (fst (runModules node w before r))
            (fst entry) (snd entry)),
     count (snd (runModules node w before r))
       (snd (processModule node (fst (runModules node w before r))
               (fst entry) (snd entry)))).
Proof.
  induction before as [|e before IH]; intros w r entry.
  - cbn [app]. rewrite runModules_cons. reflexivity.
  - cbn [app]. rewrite !runModules_cons. apply IH.
Qed.

Lemma processModule_skips w entry :
  skips node w entry -> snd (processModule node w (fst entry) (snd entry)) = NoClasses.
Proof.
  unfold skips, processModule. cbv zeta. intros [-> [content [-> Hc]]].
  cbn [negb]. now rewrite Hc.
Qed.

Lemma processModule_fails w entry :
  fails node w entry ->
  snd (processModule node w (fst entry) (snd entry)) = NotFound \/
  snd (processModule node w (fst entry) (snd entry)) = Failed.
Proof.
  unfold fails, processModule. cbv zeta.
  intros [->|[-> [->|[content [-> [Hc Hw]]]]]]; cbn [negb];
    [now left | now right |].
  destruct (pr_classes (parseApiFile content)) eqn:Ec; [now destruct Hc|].
  cbn [List.length Nat.eqb]. right.
  destruct Hw as [[He Hm]|[w1 [Hd Hw]]].
  - unfold ensureDir. rewrite He. cbn [negb].
    destruct (mkdirSync node _ w) as [w1 ok]. cbn [snd] in Hm. now rewrite Hm.
  - apply ensureDir_true in Hd. rewrite Hd.
    destruct (writeFileSync node _ _ w1) as [w2 ok]. cbn [snd] in Hw.
    now rewrite Hw.
Qed.

Lemma processModule_writes w entry out :
  writes node w entry out ->
  snd (processModule node w (fst entry) (snd entry)) = Written (fst out) (snd out).
Proof.
  intros H. pose proof (processModule_written w entry) as Hp.
  destruct (snd (processModule node w (fst entry) (snd entry))) as [| | |p d];
    try (now apply Hp in H).
  now rewrite (writes_unique _ _ _ _ H Hp).
Qed.

End MainFacts.

Section RegistryFacts.

Lemma append_inj_l (a b s : string) : a ++ s = b ++ s -> a = b.
Proof.
  revert b. induction a as [|c a IH]; intros [|d b] H; cbn [append] in H.
  - reflexivity.
  - apply (f_equal String.length) in H. cbn [String.length] in H.
    rewrite length_append in H. lia.
  - apply (f_equal String.length) in H. cbn [String.length] in H.
    rewrite length_append in H. lia.
  - injection H as -> H. f_equal. now apply IH.
Qed.

Lemma NoDup_map_inj {A B : Type} (f : A -> B) l :
  (forall x y, f x = f y -> x = y) -> NoDup l -> NoDup (map f l).
Proof.
  intros Hf H. induction H as [|x l Hx H IH]; cbn [map]; constructor; auto.
  intros Hin. apply in_map_iff in Hin as [y [Hy Hin]].
  apply Hf in Hy. now subst.
Qed.

Lemma NoDup_MODULES : NoDup (map fst MODULES).
Proof.
  assert (H : forall l, dedupe l = l -> NoDup l).
  { intros l E. rewrite <- E. apply dedupe_NoDup. }
  apply H. vm_compute. reflexivity.
Qed.

End RegistryFacts.

Section SelectFacts.

Lemma sharedFile_spec m1 m2 :
  In m1 MODULES -> In m2 MODULES -> file (snd m1) = file (snd m2) ->
  fst m1 <> fst m2 -> In (m1, m2) sharedFile.
Proof.
  intros H1 H2 Hf Hp. unfold sharedFile. apply in_flat_map. exists m1.
  split; [exact H1|]. apply in_map. apply filter_In. split; [exact H2|].
  rewrite Hf, String.eqb_refl. cbn [andb]. apply negb_true_iff.
  now apply String.eqb_neq.
Qed.

(** A class name kept by a filter of an exact name and a prefix
    pattern. *)
Lemma exact_or_prefix_filter className name p :
  matchesFilter className [name; p ++ "*"] = true ->
  endsWith "*" name = false ->
  className = name \/ exists r, className = p ++ r.
Proof.
  unfold matchesFilter, matchesPattern. cbn [existsb]. intros H Hn.
  rewrite Hn, (endsWith_app p "*"), dropLast_app, orb_false_r in H.
  apply orb_prop in H as [H|H].
  - left. now apply String.eqb_eq.
  - right. now apply startsWith_app.
Qed.

End SelectFacts.

(** X16: the counters of the main loop add up to the number of modules
    and the success counter is the number of files written.  A file is
    written exactly for a module that, in the file system as the modules
    before it left it, has its API file, can read it, finds a class in
    it, has or makes the output directory and is not stopped by a throw
    of the write.  Each module adds one to one counter: to the errors
    when its file is missing or a call throws, to the skipped when the
    file has no class, and to the successes, with its file, when it
    writes. *)
Theorem main_loop_report {World : Type} (node : Node World) w mods :
  let r := snd (runModules node w mods emptyReport) in
  successCount r + skipCount r + errorCount r = List.length mods /\
  successCount r = List.length (written r) /\
  (forall out,
     In out (written r) <->
     exists before entry after,
       mods = (before ++ entry :: after)%list /\
       writes node (fst (runModules node w before emptyReport)) entry out) /\
  forall before entry,
    let w1 := fst (runModules node w before emptyReport) in
    let r1 := snd (runModules node w before emptyReport) in
    let r2 := snd (runModules node w (before ++ [entry]) emptyReport) in
    (fails node w1 entry ->
     errorCount r2 = errorCount r1 + 1 /\ skipCount r2 = skipCount r1 /\
     successCount r2 = successCount r1 /\ written r2 = written r1) /\
    (skips node w1 entry ->
     skipCount r2 = skipCount r1 + 1 /\ errorCount r2 = errorCount r1 /\
     successCount r2 = successCount r1 /\ written r2 = written r1) /\
    (forall out,
       writes node w1 entry out ->
       successCount r2 = successCount r1 + 1 /\ skipCount r2 = skipCount r1 /\
       errorCount r2 = errorCount r1 /\
       written r2 = (written r1 ++ [out])%list).
Proof.
  cbv zeta. destruct (runModules_counts node mods w emptyReport) as [H1 H2].
  cbv zeta in H1, H2. split; [exact H1|]. split; [now apply H2|]. split.
  - intros out. rewrite runModules_written. cbn [emptyReport written In].
    split; [intros [[]|H]; exact H | auto].
  - intros before entry. rewrite runModules_snoc. cbn [snd].
    split; [|split].
    + intros H. destruct (processModule_fails node _ _ H) as [-> | ->];
        cbn [count errorCount skipCount successCount written]; auto.
    + intros H. rewrite (processModule_skips node _ _ H).
      cbn [count errorCount skipCount successCount written]. auto.
    + intros out H. rewrite (processModule_writes node _ _ _ H).
      cbn [count errorCount skipCount successCount written].
      destruct out; auto.
Qed.

Lemma main_loop_report_witness :
  let r := snd (runModules exampleNode exampleFiles exampleModules emptyReport) in
  successCount r + skipCount r + errorCount r = 5 /\
  successCount r = 1 /\ skipCount r = 1 /\ errorCount r = 3 /\
  map fst (written r) = ["core.d.ts"].
Proof.
  cbv zeta. split.
  - exact (proj1 (main_loop_report exampleNode exampleFiles exampleModules)).
  - vm_compute. auto.
Defined.

(** X17: a run over the whole registry writes no output file twice. *)
Theorem full_run_writes_each_file_once {World : Type} (node : Node World) w :
  NoDup (map fst (written (snd (runModules node w MODULES emptyReport)))).
Proof.
  apply runModules_paths. cbn [emptyReport written map app].
  rewrite <- (map_map fst (fun k => k ++ ".d.ts")).
  apply NoDup_map_inj; [intros x y; apply append_inj_l|].
  exact NoDup_MODULES.
Qed.

(** X18: the post-processing changes the declarations of registered modules
    only: each module path it has a patch for is a key of the registry. *)
Theorem patched_modules_are_registered modulePath content :
  applyPostProcessing modulePath content <> content ->
  mapHas modulePath MODULES = true.
Proof.
  unfold applyPostProcessing.
  destruct (String.eqb_spec modulePath "common/izi_sdk") as [->|_];
    [reflexivity|].
  destruct (String.eqb_spec modulePath "common/ow_menu_api") as [->|_];
    [reflexivity|].
  destruct (String.eqb_spec modulePath "common/utility/kick_external_filters_helper")
    as [->|_]; [reflexivity|].
  destruct (String.eqb_spec modulePath "common/utility/spell_sequence_helper")
    as [->|_]; [reflexivity|].
  intros H. now contradiction H.
Qed.

Lemma patched_modules_are_registered_witness :
  mapHas "common/ow_menu_api" MODULES = true.
Proof.
  apply (patched_modules_are_registered "common/ow_menu_api" "f(opts?: {): void;").
  vm_compute. discriminate.
Defined.

(** X19: two modules of the registry that are generated from the same API
    file never keep a class of the same name: their filters select
    disjoint class names, so no class is declared in two output files. *)
Theorem shared_file_modules_keep_disjoint_classes m1 m2 classes kv1 kv2 :
  In m1 MODULES -> In m2 MODULES -> file (snd m1) = file (snd m2) ->
  fst m1 <> fst m2 ->
  In kv1 (filterClasses classes (cfg_filterClasses (snd m1))) ->
  In kv2 (filterClasses classes (cfg_filterClasses (snd m2))) ->
  fst kv1 <> fst kv2.
Proof.
  intros H1 H2 Hf Hp. pose proof (sharedFile_spec m1 m2 H1 H2 Hf Hp) as H.
  clear H1 H2 Hf Hp. vm_compute in H.
  repeat (destruct H as [H|H]; [injection H as <- <-|]); try contradiction;
    cbn [snd cfg_filterClasses filterClasses];
    intros K1 K2 E; apply filter_In in K1 as [_ K1];
    apply filter_In in K2 as [_ K2]; rewrite <- E in K2;
    match type of K1 with
    | matchesFilter _ [?n; ?pat] = true =>
        let p := eval vm_compute in (dropLast pat) in
        apply (exact_or_prefix_filter _ n p) in K1; [|reflexivity]
    end;
    destruct K1 as [K1|[r K1]]; rewrite K1 in K2;
    vm_compute in K2; discriminate K2.
Qed.

Lemma shared_file_modules_keep_disjoint_classes_witness :
  fst ("circle_t", emptyClass "circle_t") <> fst ("cone", emptyClass "cone").
Proof.
  apply (shared_file_modules_keep_disjoint_classes
           ("common/geometry/circle",
            mkConfig "common/geometry/geometry.lua" (Some "circle")
              (Some ["circle"; "circle_*"]) false)
           ("common/geometry/cone",
            mkConfig "common/geometry/geometry.lua" (Some "cone")
              (Some ["cone"; "cone_*"]) false)
           [("circle_t", emptyClass "circle_t"); ("cone", emptyClass "cone")]).
  - vm_compute. tauto.
  - vm_compute. tauto.
  - reflexivity.
  - discriminate.
  - vm_compute. tauto.
  - vm_compute. tauto.
Defined.

Section ArrowFacts.

Lemma lastIndexOf_none needle : forall s,
  includes needle s = false -> lastIndexOf needle s = None.
Proof.
  induction s as [|c s IH]; intros H.
  - rewrite includes_nil in H. cbn [lastIndexOf]. now rewrite H.
  - rewrite includes_cons in H. apply orb_false_iff in H as [Hp Hs].
    cbn [lastIndexOf]. now rewrite (IH Hs), Hp.
Qed.

Lemma lastIndexOf_app needle b i : forall a,
  lastIndexOf needle b = Some i ->
  lastIndexOf needle (a ++ b) = Some (slen a + i).
Proof.
  induction a as [|c a IH]; intros H; [exact H|].
  cbn [append lastIndexOf String.length]. now rewrite (IH H).
Qed.

(** The last arrow of a text that ends with an arrow-free part is the
    arrow in front of that part. *)
Lemma lastIndexOf_arrow a ret :
  includes ") => " ret = false ->
  lastIndexOf ") => " (a ++ ") => " ++ ret) = Some (slen a).
Proof.
  intros H. rewrite (lastIndexOf_app _ _ 0); [now rewrite Nat.add_0_r|].
  apply lastIndexOf_none in H.
  change (") => " ++ ret)
    with (String ")" (String " " (String "=" (String ">" (String " " ret))))).
  cbn [lastIndexOf]. rewrite H. rewrite !prefix_cons.
  cbn [ascii_dec]. destruct ret; reflexivity.
Qed.

Lemma leadingParen_removed s :
  replaceFirst re_leadingParen [] (String "(" s) = s.
Proof.
  unfold replaceFirst, re_leadingParen. cbn [seq]. rewrite exec_anchored.
  cbn [run stripPrefix Ascii.eqb Bool.eqb]. reflexivity.
Qed.

Lemma methodLines_last_arrow field params ret :
  parseFunType (pf_type field) = "(" ++ params ++ ") => " ++ ret ->
  includes ") => " ret = false ->
  methodLines field
  = docLine (pf_description field) +++
    ["  " ++
     (if inList (pf_name field) RESERVED_METHOD_NAMES
      then dquote ++ pf_name field ++ dquote else pf_name field) ++
     "(" ++ params ++ "): " ++ ret ++ ";"].
Proof.
  intros Hf Hr. unfold methodLines. cbv zeta. rewrite Hf.
  change ("(" ++ params ++ ") => " ++ ret) with (String "(" (params ++ ") => " ++ ret)).
  rewrite leadingParen_removed, (lastIndexOf_arrow params ret Hr).
  rewrite take_app.
  replace (drop (slen params + 5) (params ++ ") => " ++ ret)) with ret.
  - rewrite !append_assoc. reflexivity.
  - rewrite <- drop_drop, drop_app. reflexivity.
Qed.

End ArrowFacts.

(** X20: a method line is cut at the last arrow of the function type:
    when [parseFunType] prints [(params) => ret] and [ret] holds no
    arrow, the member is [name(params): ret;], also when [params] holds
    arrows of its own. *)
Theorem method_line_cut_at_last_arrow field params ret :
  parseFunType (pf_type field) = "(" ++ params ++ ") => " ++ ret ->
  includes ") => " ret = false ->
  methodLines field
  = docLine (pf_description field) +++
    ["  " ++
     (if inList (pf_name field) RESERVED_METHOD_NAMES
      then dquote ++ pf_name field ++ dquote else pf_name field) ++
     "(" ++ params ++ "): " ++ ret ++ ";"].
Proof. exact (methodLines_last_arrow field params ret). Qed.

Lemma method_line_cut_at_last_arrow_witness :
  methodLines (mkField "after" "fun(fn: fun()): fun()" None true)
  = docLine None +++
    ["  " ++
     (if inList "after" RESERVED_METHOD_NAMES
      then dquote ++ "after" ++ dquote else "after") ++
     "(" ++ "this: void, fn: (this: void) => void) => (this: void" ++ "): " ++
     "void" ++ ";"].
Proof.
  apply (method_line_cut_at_last_arrow
           (mkField "after" "fun(fn: fun()): fun()" None true)
           "this: void, fn: (this: void) => void) => (this: void" "void");
    vm_compute; reflexivity.
Defined.

(** X21: a trailing star is the only wildcard of a class filter: the
    pattern [p*] selects the names that begin with [p], and a pattern that
    does not end with a star selects its own text only. *)
Theorem filter_pattern_meaning className p :
  matchesFilter className [p ++ "*"] = startsWith p className /\
  (endsWith "*" p = false -> matchesFilter className [p] = String.eqb className p).
Proof.
  unfold matchesFilter, matchesPattern. cbn [existsb]. split.
  - rewrite (endsWith_app p "*"), dropLast_app. apply orb_false_r.
  - intros ->. apply orb_false_r.
Qed.

Lemma filter_pattern_meaning_witness :
  matchesFilter "circle_t" ["circle_" ++ "*"] = startsWith "circle_" "circle_t" /\
  matchesFilter "a*bc" ["a*b"] = String.eqb "a*bc" "a*b".
Proof.
  split; [apply (proj1 (filter_pattern_meaning "circle_t" "circle_")) |
          apply (proj2 (filter_pattern_meaning "a*bc" "a*b")); reflexivity].
Defined.

(** X22: a parameter name printed by the translator is never one of the
    reserved words: a reserved name gets an underscore in front, and no
    reserved word begins with one. *)
Theorem sanitizeParamName_not_reserved name :
  inList (sanitizeParamName name) reservedParamNames = false.
Proof.
  unfold sanitizeParamName.
  destruct (inList name reservedParamNames) eqn:E; [|exact E].
  reflexivity.
Qed.

Section ParamFacts.

Lemma join_comma_space x r :
  join ", " (x :: r) = join "," (x :: map (String " ") r).
Proof.
  revert x. induction r as [|y r IH]; intros x; [reflexivity|].
  change (join ", " (x :: y :: r)) with (x ++ ", " ++ join ", " (y :: r)).
  rewrite IH. cbn [map].
  change (join "," (x :: String " " y :: map (String " ") r))
    with (x ++ "," ++ join "," (String " " y :: map (String " ") r)).
  destruct (map (String " ") r); reflexivity.
Qed.

Lemma trimEnd_app_noSpace b : forall a,
  noSpace b = true -> truthy b = true -> trimEnd (a ++ b) = a ++ b.
Proof.
  intros a Hb Ht. induction a as [|c a IH]; [now apply trimEnd_noSpace|].
  cbn [append trimEnd]. rewrite IH.
  destruct (a ++ b) eqn:E; [|now rewrite andb_false_r].
  destruct a; [cbn [append] in E; subst b; discriminate Ht | discriminate E].
Qed.

Lemma plain_app sep a b : plain sep (a ++ b) = plain sep a && plain sep b.
Proof.
  induction a as [|c a IH]; cbn [append plain]; [reflexivity|].
  now rewrite IH, !andb_assoc.
Qed.

Lemma writtenParam_trimmed nt :
  namedPair nt -> trim (writtenParam nt) = writtenParam nt.
Proof.
  intros (Hn & Htn & Ht & Htt). unfold writtenParam.
  destruct (fst nt) as [|c n] eqn:E; [discriminate Htn|].
  cbn [allWord] in Hn. apply andb_prop in Hn as [Hc Hn].
  cbn [append]. rewrite (trim_head c _ (word_not_space c Hc)). f_equal.
  change (n ++ String ":" (String " " (snd nt))) with (n ++ ": " ++ snd nt).
  rewrite <- append_assoc.
  apply trimEnd_app_noSpace; [now apply allWord_noSpace | exact Htt].
Qed.

Lemma writtenParam_plain nt : namedPair nt -> plain "," (writtenParam nt) = true.
Proof.
  intros (Hn & _ & Ht & _). unfold writtenParam.
  rewrite plain_app, (allWord_plain "," _ eq_refl Hn).
  cbn [append plain]. rewrite (allWord_plain "," _ eq_refl Ht). reflexivity.
Qed.

Lemma writtenParam_truthy nt : namedPair nt -> truthy (writtenParam nt) = true.
Proof.
  intros (_ & Htn & _). unfold writtenParam. now apply truthy_app_l.
Qed.

Lemma trim_space s : trim (String " " s) = trim s.
Proof. reflexivity. Qed.

Lemma splitByComma_written x l :
  Forall namedPair (x :: l) ->
  splitByComma (join ", " (map writtenParam (x :: l))) = map writtenParam (x :: l).
Proof.
  intros H. cbn [map]. rewrite join_comma_space. unfold splitByComma.
  rewrite (splitTop_join "," eq_refl eq_refl).
  - cbn [map]. inversion_clear H as [|? ? Hx Hl].
    rewrite (writtenParam_trimmed x Hx). f_equal.
    rewrite !map_map. apply map_ext_in. intros nt Hin.
    rewrite trim_space. apply writtenParam_trimmed.
    now apply (proj1 (Forall_forall _ _) Hl).
  - inversion_clear H as [|? ? Hx Hl]. constructor.
    + rewrite (writtenParam_trimmed x Hx).
      split; [now apply writtenParam_plain | now apply writtenParam_truthy].
    + apply Forall_forall. intros p Hp. apply in_map_iff in Hp as [q [<- Hq]].
      apply in_map_iff in Hq as [nt [<- Hnt]].
      pose proof (proj1 (Forall_forall _ _) Hl nt Hnt) as Hp.
      rewrite trim_space, (writtenParam_trimmed nt Hp).
      split; [|now apply writtenParam_truthy].
      cbn [plain]. change (hasChar " " openers) with false.
      change (hasChar " " closers) with false.
      cbn [negb andb Ascii.eqb Bool.eqb]. now apply writtenParam_plain.
Qed.

Lemma indexOf_colon b : forall a,
  allWord a = true -> indexOf ":" (a ++ String ":" b) = Some (slen a).
Proof.
  induction a as [|c a IH]; intros H.
  - cbn [append]. rewrite indexOf_cons, prefix_cons. cbn [ascii_dec].
    destruct b; reflexivity.
  - cbn [allWord] in H. apply andb_prop in H as [Hc Ha].
    cbn [append]. rewrite indexOf_cons, prefix_cons, (IH Ha).
    destruct (ascii_dec ":" c) as [<-|_]; [discriminate Hc | reflexivity].
Qed.

Lemma parseParam_written nt :
  namedPair nt ->
  parseParam (writtenParam nt) = mkParam (fst nt) (snd nt) false false.
Proof.
  intros (Hn & Htn & Ht & Htt). unfold parseParam, writtenParam.
  assert (Hdots : startsWith "..." (fst nt ++ ": " ++ snd nt) = false).
  { destruct (fst nt) as [|c n]; [discriminate Htn|].
    cbn [allWord] in Hn. apply andb_prop in Hn as [Hc _].
    cbn [append]. unfold startsWith. rewrite prefix_cons.
    destruct (ascii_dec "." c) as [<-|_]; [discriminate Hc | reflexivity]. }
  rewrite Hdots.
  change (fst nt ++ ": " ++ snd nt) with (fst nt ++ String ":" (String " " (snd nt))).
  rewrite (indexOf_colon _ _ Hn). cbv zeta.
  rewrite take_app, (trim_noSpace _ (allWord_noSpace _ Hn)).
  rewrite <- drop_drop, drop_app. cbn [drop].
  rewrite trim_space, (trim_noSpace _ (allWord_noSpace _ Ht)).
  assert (He : forall s, allWord s = true -> endsWith "?" s = false).
  { intros s Hs. destruct (endsWith "?" s) eqn:E; [|reflexivity].
    apply allWord_endsWith in E; [discriminate E | exact Hs]. }
  rewrite (He _ Hn), (He _ Ht). reflexivity.
Qed.

Lemma parseParams_written l :
  Forall namedPair l ->
  parseParams (join ", " (map writtenParam l))
  = map (fun nt => mkParam (fst nt) (snd nt) false false) l.
Proof.
  intros H. destruct l as [|x l]; [reflexivity|]. unfold parseParams.
  assert (Ht : truthy (trim (join ", " (map writtenParam (x :: l)))) = true).
  { inversion_clear H as [|? ? Hx _]. destruct Hx as (Hn & Htn & _).
    cbn [map]. unfold writtenParam at 1.
    destruct (fst x) as [|c n]; [discriminate Htn|].
    cbn [allWord] in Hn. apply andb_prop in Hn as [Hc _].
    destruct (map writtenParam l); cbn [join append];
      now rewrite (trim_head c _ (word_not_space c Hc)). }
  rewrite Ht. cbn [negb]. rewrite (splitByComma_written x l H).
  assert (Hfix : filter truthy (map trim (map writtenParam (x :: l)))
                 = map writtenParam (x :: l)).
  { clear Ht. induction H as [|nt l' Hnt Hl IH]; [reflexivity|].
    cbn [map filter].
    rewrite (writtenParam_trimmed nt Hnt), (writtenParam_truthy nt Hnt).
    f_equal. exact IH. }
  rewrite Hfix, map_map. apply map_ext_in. intros nt Hin.
  apply parseParam_written. now apply (proj1 (Forall_forall _ _) H).
Qed.

End ParamFacts.

(** X23: [parseParams] reads back a written parameter list: names and
    types made of word characters, written [name: type] and joined by a
    comma and a space, are parsed as those names with those types, none
    optional and none variadic. *)
Theorem parseParams_reads_written_list l :
  Forall namedPair l ->
  parseParams (join ", " (map writtenParam l))
  = map (fun nt => mkParam (fst nt) (snd nt) false false) l.
Proof. exact (parseParams_written l). Qed.

Lemma parseParams_reads_written_list_witness :
  parseParams (join ", " (map writtenParam [("unit", "game_object"); ("range", "number")]))
  = map (fun nt => mkParam (fst nt) (snd nt) false false)
        [("unit", "game_object"); ("range", "number")].
Proof.
  apply parseParams_reads_written_list.
  repeat constructor.
Defined.

Section FunctionTypeFacts.

Lemma findParenLoop_closing b : forall a i,
  hasChar "(" a = false -> hasChar ")" a = false ->
  findParenLoop (a ++ String ")" b) i 1%Z = Some (i + slen a).
Proof.
  induction a as [|c a IH]; intros i Ho Hc.
  - cbn. f_equal. lia.
  - cbn [hasChar] in Ho, Hc. apply orb_false_iff in Ho as [Ho Ho'].
    apply orb_false_iff in Hc as [Hc Hc'].
    rewrite Ascii.eqb_sym in Ho, Hc.
    cbn [append findParenLoop String.length]. rewrite Ho, Hc. cbn [Z.eqb].
    rewrite (IH (S i) Ho' Hc'). f_equal. lia.
Qed.

Lemma hasChar_written c l :
  Forall namedPair l -> isWord c = false -> hasChar c ", :" = false ->
  hasChar c (join ", " (map writtenParam l)) = false.
Proof.
  intros H Hw Hc. cbn [hasChar] in Hc.
  apply orb_false_iff in Hc as [Hc1 Hc]. apply orb_false_iff in Hc as [Hc2 Hc].
  apply orb_false_iff in Hc as [Hc3 _].
  induction H as [|x l (Hn & _ & Ht & _) Hl IH]; [reflexivity|].
  assert (Hx : hasChar c (writtenParam x) = false).
  { unfold writtenParam.
    rewrite !hasChar_app, (allWord_hasChar c _ Hn Hw), (allWord_hasChar c _ Ht Hw).
    cbn [hasChar]. now rewrite Hc3, Hc2. }
  cbn [map]. destruct l as [|y l]; [exact Hx|].
  change (join ", " (writtenParam x :: map writtenParam (y :: l)))
    with (writtenParam x ++ ", " ++ join ", " (map writtenParam (y :: l))).
  rewrite !hasChar_app, Hx, IH. cbn [hasChar]. now rewrite Hc1, Hc2.
Qed.

Lemma indexOf_char c b : forall a,
  hasChar c a = false -> indexOf (String c "") (a ++ String c b) = Some (slen a).
Proof.
  induction a as [|d a IH]; intros H.
  - cbn [append]. rewrite indexOf_cons, prefix_cons.
    destruct (ascii_dec c c) as [_|n]; [|now contradiction n].
    destruct b; reflexivity.
  - cbn [hasChar] in H. apply orb_false_iff in H as [Hd Ha].
    cbn [append]. rewrite indexOf_cons, prefix_cons, (IH Ha).
    destruct (ascii_dec c d) as [<-|_]; [|reflexivity].
    rewrite Ascii.eqb_refl in Hd. discriminate Hd.
Qed.

Lemma searchFrom_needs_space x : forall rest i,
  noSpace rest = true -> searchFrom (Seq (Lit " ") x) i rest = None.
Proof.
  induction rest as [|c rest IH]; intros i H; cbn [searchFrom];
    rewrite run_Seq, run_Lit; [reflexivity|].
  cbn [noSpace] in H. apply andb_prop in H as [Hc Hs].
  cbn [stripPrefix].
  destruct (Ascii.eqb_spec " " c) as [<-|_]; [discriminate Hc|].
  now apply IH.
Qed.

Lemma returnClause_written r :
  noSpace r = true -> returnClause (": " ++ r) = r.
Proof.
  intros H. unfold returnClause. cbn [append drop].
  rewrite trim_space, (trim_noSpace r H). unfold cutAtText.
  rewrite (indexOf_noSpace "--" r H). unfold cutAtMatch, exec, re_inlineDesc.
  cbn [seq]. now rewrite (searchFrom_needs_space _ r 0 H).
Qed.

Lemma splitByComma_name r :
  allWord r = true -> truthy r = true -> splitByComma r = [r].
Proof.
  intros Hw Ht. change r with (join "," [r]) at 1. unfold splitByComma.
  rewrite (splitTop_join "," eq_refl eq_refl).
  - cbn [map]. now rewrite (trim_noSpace r (allWord_noSpace r Hw)).
  - constructor; [|constructor].
    rewrite (trim_noSpace r (allWord_noSpace r Hw)).
    split; [now apply allWord_plain | exact Ht].
Qed.

Lemma writtenFunType_parens l r :
  Forall namedPair l ->
  indexOf "(" (writtenFunType l r) = Some 3 /\
  findMatchingParen (writtenFunType l r) 3
  = Some (4 + slen (join ", " (map writtenParam l))).
Proof.
  intros H. unfold writtenFunType. split.
  - change ("fun(" ++ join ", " (map writtenParam l) ++ "): " ++ r)
      with ("fun" ++ String "(" (join ", " (map writtenParam l) ++ "): " ++ r)).
    now rewrite indexOf_char.
  - unfold findMatchingParen. cbn [append drop findParenLoop].
    cbn [Ascii.eqb Bool.eqb Z.add Z.eqb].
    change (join ", " (map writtenParam l) ++ String ")" (String ":" (String " " r)))
      with (join ", " (map writtenParam l) ++ String ")" (": " ++ r)).
    rewrite findParenLoop_closing; [reflexivity | |];
      now apply hasChar_written.
Qed.

Lemma parseFunType_written l r :
  Forall namedPair l -> (forall nt, In nt l -> fst nt <> "self") ->
  allWord r = true -> truthy r = true ->
  parseFunType (writtenFunType l r)
  = "(" ++
    join ", "
      ("this: void" ::
       map (fun nt => sanitizeParamName (fst nt) ++ ": " ++
                      convertLuaTypeToTS (snd nt)) l) ++
    ") => " ++ convertLuaTypeToTS r.
Proof.
  intros Hl Hself Hr Htr.
  destruct (writtenFunType_parens l r Hl) as [Hopen Hclose].
  rewrite (parseFunType_shape _ _ _ Hopen Hclose). cbv zeta.
  set (P := join ", " (map writtenParam l)) in *.
  assert (Hparams : slice (3 + 1) (4 + slen P) (writtenFunType l r) = P).
  { unfold slice, writtenFunType. fold P. cbn [Nat.add append drop].
    replace (S (S (S (S (slen P)))) - 4) with (slen P) by lia.
    apply take_app. }
  assert (Hrest : trim (drop (4 + slen P + 1) (writtenFunType l r)) = ": " ++ r).
  { unfold writtenFunType. fold P.
    replace (4 + slen P + 1) with (4 + (slen P + 1)) by lia.
    rewrite <- drop_drop. cbn [append drop].
    rewrite <- drop_drop, drop_app. cbn [append drop].
    rewrite (trim_head ":" _ eq_refl).
    change (String " " r) with (" " ++ r).
    now rewrite (trimEnd_app_noSpace r " " (allWord_noSpace r Hr) Htr). }
  rewrite Hparams, Hrest. unfold P.
  rewrite (parseParams_written l Hl).
  destruct (no_self_map (map (fun nt => mkParam (fst nt) (snd nt) false false) l))
    as [-> ->].
  { intros p Hp. apply in_map_iff in Hp as [nt [<- Hnt]]. cbn [p_name].
    now apply Hself. }
  rewrite map_map. cbn [startsWith prefix append ascii_dec].
  change (String ":" (String " " r)) with (": " ++ r).
  rewrite (returnClause_written r (allWord_noSpace r Hr)).
  unfold translateReturn. rewrite (splitByComma_name r Hr Htr).
  reflexivity.
Qed.


End FunctionTypeFacts.

(** X24: a written function type becomes an arrow type with an explicit
    receiver: for parameters [name: type] of word characters, none named
    [self], and a return type of word characters, [fun(params): r] is
    printed as [(this: void, params) => r], each name sanitized and each
    type translated. *)
Theorem written_function_type_translation l r :
  Forall namedPair l -> (forall nt, In nt l -> fst nt <> "self") ->
  allWord r = true -> truthy r = true ->
  parseFunType (writtenFunType l r)
  = "(" ++
    join ", "
      ("this: void" ::
       map (fun nt => sanitizeParamName (fst nt) ++ ": " ++
                      convertLuaTypeToTS (snd nt)) l) ++
    ") => " ++ convertLuaTypeToTS r.
Proof. exact (parseFunType_written l r). Qed.

Lemma written_function_type_translation_witness :
  parseFunType (writtenFunType [("unit", "game_object"); ("new", "number")] "boolean")
  = "(" ++
    join ", "
      ("this: void" ::
       map (fun nt => sanitizeParamName (fst nt) ++ ": " ++
                      convertLuaTypeToTS (snd nt))
           [("unit", "game_object"); ("new", "number")]) ++
    ") => " ++ convertLuaTypeToTS "boolean".
Proof.
  apply written_function_type_translation.
  - repeat constructor.
  - intros nt [<-|[<-|[]]]; discriminate.
  - reflexivity.
  - reflexivity.
Defined.

Section CleanFacts.

Lemma spacesBeforeWords_indexOf a x : forall s,
  spacesBeforeWords s = true -> isWord a = false ->
  indexOf (String " " (String a x)) s = None.
Proof.
  induction s as [|c s IH]; intros H Ha; [reflexivity|].
  cbn [spacesBeforeWords] in H. apply andb_prop in H as [Hc Hs].
  rewrite indexOf_cons, prefix_cons, (IH Hs Ha).
  destruct (ascii_dec " " c) as [<-|_]; [|reflexivity].
  cbn [Ascii.eqb Bool.eqb] in Hc. destruct s as [|d s]; [discriminate Hc|].
  rewrite prefix_cons. destruct (ascii_dec a d) as [->|_]; [congruence | reflexivity].
Qed.

Lemma spacesBeforeWords_skip b : forall a,
  noSpace a = true -> spacesBeforeWords (a ++ b) = spacesBeforeWords b.
Proof.
  induction a as [|c a IH]; intros H; [reflexivity|].
  cbn [noSpace] in H. apply andb_prop in H as [Hc Ha].
  cbn [append spacesBeforeWords]. rewrite (IH Ha).
  destruct (Ascii.eqb_spec c " ") as [->|_]; [discriminate Hc | reflexivity].
Qed.

Lemma spacesBeforeWords_other c s :
  Ascii.eqb c " " = false -> spacesBeforeWords (String c s) = spacesBeforeWords s.
Proof. intros H. cbn [spacesBeforeWords]. now rewrite H. Qed.

Lemma spacesBeforeWords_name b w :
  allWord w = true -> truthy w = true ->
  spacesBeforeWords (String " " (w ++ b)) = spacesBeforeWords b.
Proof.
  intros Hw Ht. cbn [spacesBeforeWords Ascii.eqb Bool.eqb].
  rewrite (spacesBeforeWords_skip b w (allWord_noSpace w Hw)).
  destruct w as [|d w]; [discriminate Ht|]. cbn [allWord] in Hw.
  apply andb_prop in Hw as [Hd _]. cbn [append]. now rewrite Hd.
Qed.

Lemma spacesBeforeWords_param nt z :
  namedPair nt ->
  spacesBeforeWords (writtenParam nt ++ z) = spacesBeforeWords z.
Proof.
  intros (Hn & _ & Ht & Htt). unfold writtenParam.
  rewrite append_assoc, (spacesBeforeWords_skip _ _ (allWord_noSpace _ Hn)).
  change ((": " ++ snd nt) ++ z) with (String ":" (String " " (snd nt ++ z))).
  rewrite spacesBeforeWords_other by reflexivity.
  now apply spacesBeforeWords_name.
Qed.

Lemma spacesBeforeWords_params z : forall l,
  Forall namedPair l ->
  spacesBeforeWords (join ", " (map writtenParam l) ++ z) = spacesBeforeWords z.
Proof.
  intros l H. induction H as [|x l Hx Hl IH]; [reflexivity|].
  cbn [map]. destruct l as [|y l]; [now apply spacesBeforeWords_param|].
  change (join ", " (writtenParam x :: map writtenParam (y :: l)))
    with (writtenParam x ++ ", " ++ join ", " (map writtenParam (y :: l))).
  rewrite append_assoc, (spacesBeforeWords_param x _ Hx).
  rewrite <- IH.
  change ((", " ++ join ", " (map writtenParam (y :: l))) ++ z)
    with (String "," (String " " (join ", " (map writtenParam (y :: l)) ++ z))).
  rewrite spacesBeforeWords_other by reflexivity.
  inversion_clear Hl as [|? ? (Hn & Htn & _) _].
  cbn [map]. unfold writtenParam at 1 3.
  destruct (fst y) as [|d n]; [discriminate Htn|].
  cbn [allWord] in Hn. apply andb_prop in Hn as [Hd _].
  destruct (map writtenParam l); cbn [join append];
    cbn [spacesBeforeWords Ascii.eqb Bool.eqb]; now rewrite Hd.
Qed.

Lemma writtenFunType_spaces l r :
  Forall namedPair l -> allWord r = true -> truthy r = true ->
  spacesBeforeWords (writtenFunType l r) = true.
Proof.
  intros Hl Hr Ht. unfold writtenFunType.
  rewrite (spacesBeforeWords_skip _ "fun(" eq_refl), (spacesBeforeWords_params _ l Hl).
  rewrite <- (append_empty r).
  change ("): " ++ r ++ "") with (String ")" (String ":" (String " " (r ++ "")))).
  rewrite !spacesBeforeWords_other by reflexivity.
  now rewrite (spacesBeforeWords_name "" r Hr Ht).
Qed.

Lemma writtenFunType_clean l r :
  Forall namedPair l -> allWord r = true -> truthy r = true ->
  stripInlineComments (writtenFunType l r) = writtenFunType l r.
Proof.
  intros Hl Hr Ht. unfold stripInlineComments, cutAtText.
  assert (Htrim : trim (writtenFunType l r) = writtenFunType l r).
  { unfold writtenFunType.
    change ("fun(" ++ join ", " (map writtenParam l) ++ "): " ++ r)
      with (String "f" ("un(" ++ join ", " (map writtenParam l) ++ "): " ++ r)).
    rewrite (trim_head "f" _ eq_refl). f_equal.
    rewrite <- !append_assoc.
    now apply trimEnd_app_noSpace; [apply allWord_noSpace|]. }
  rewrite Htrim.
  now rewrite !(spacesBeforeWords_indexOf _ _ _ (writtenFunType_spaces l r Hl Hr Ht)).
Qed.

Lemma endsWith_hasChar c p s :
  endsWith p s = true -> hasChar c p = true -> hasChar c s = true.
Proof.
  unfold endsWith. intros H Hc. apply andb_prop in H as [_ H].
  apply String.eqb_eq in H.
  rewrite <- (take_drop (slen s - slen p) s), hasChar_app, H, Hc.
  apply orb_true_r.
Qed.

Lemma lastChar_hasChar : forall s c, lastChar s = Some c -> hasChar c s = true.
Proof.
  induction s as [|d s IH]; intros c H; [discriminate H|].
  cbn [lastChar] in H. cbn [hasChar]. destruct s as [|e s].
  - injection H as <-. now rewrite Ascii.eqb_refl.
  - rewrite (IH c H). apply orb_true_r.
Qed.

Lemma writtenFunType_hasChar c l r :
  Forall namedPair l -> allWord r = true ->
  isWord c = false -> hasChar c "(), :" = false ->
  hasChar c (writtenFunType l r) = false.
Proof.
  intros Hl Hr Hw Hc. unfold writtenFunType.
  cbn [hasChar] in Hc.
  apply orb_false_iff in Hc as [Hc1 Hc]. apply orb_false_iff in Hc as [Hc2 Hc].
  apply orb_false_iff in Hc as [Hc3 Hc]. apply orb_false_iff in Hc as [Hc4 Hc].
  apply orb_false_iff in Hc as [Hc5 _].
  rewrite !hasChar_app, (allWord_hasChar c r Hr Hw).
  rewrite (hasChar_written c l Hl Hw)
    by (cbn [hasChar]; now rewrite Hc3, Hc4, Hc5).
  assert (Hf : hasChar c "fun" = false) by now apply allWord_hasChar.
  cbn [hasChar] in Hf |- *. apply orb_false_iff in Hf as [Hf1 Hf].
  apply orb_false_iff in Hf as [Hf2 Hf]. apply orb_false_iff in Hf as [Hf3 _].
  now rewrite Hf1, Hf2, Hf3, Hc1, Hc2, Hc4, Hc5.
Qed.

Lemma convertStep_writtenFunType rec l r :
  Forall namedPair l -> allWord r = true -> truthy r = true ->
  convertStep rec (writtenFunType l r) = parseFunTypeWith rec (writtenFunType l r).
Proof.
  intros Hl Hr Ht. unfold convertStep. cbv zeta.
  rewrite (writtenFunType_clean l r Hl Hr Ht).
  set (s := writtenFunType l r).
  assert (Hhead : exists x, s = "fun(" ++ x) by (now eexists).
  destruct Hhead as [x Hx].
  assert (Hno : forall c, isWord c = false -> hasChar c "(), :" = false ->
                          hasChar c s = false).
  { intros c. now apply writtenFunType_hasChar. }
  assert (He : forall p c, hasChar c p = true -> isWord c = false ->
                           hasChar c "(), :" = false -> endsWith p s = false).
  { intros p c Hp Hw Hc. destruct (endsWith p s) eqn:E; [|reflexivity].
    apply (endsWith_hasChar c) in E; [|exact Hp]. rewrite (Hno c Hw Hc) in E.
    discriminate E. }
  rewrite (He "| nil" "|"%char), (He "|nil" "|"%char), (He "?" "?"%char)
    by reflexivity.
  rewrite includes_char, (Hno "|"%char eq_refl eq_refl).
  destruct (exec re_array s) as [m|] eqn:E.
  { apply array_needs_bracket in E. apply lastChar_hasChar in E.
    rewrite (Hno "]"%char eq_refl eq_refl) in E. discriminate E. }
  rewrite Hx. cbn [append truthy isEmpty negb String.eqb Ascii.eqb Bool.eqb
                   orb andb startsWith prefix ascii_dec].
  unfold isFunType.
  replace (startsWith "fun(" (String "f" (String "u" (String "n" (String "(" x)))))
    with true by (destruct x; reflexivity).
  reflexivity.
Qed.

End CleanFacts.

(** X25: the type translator hands a written function type to
    [parseFunType]: for parameters and a return type of word characters,
    [convertLuaTypeToTS] and [parseFunType] print the same text. *)
Theorem written_function_type_is_parsed l r :
  Forall namedPair l -> allWord r = true -> truthy r = true ->
  convertLuaTypeToTS (writtenFunType l r) = parseFunType (writtenFunType l r).
Proof.
  intros Hl Hr Ht. pose proof (convertLuaTypeToTS_eq (writtenFunType l r)) as H.
  rewrite (convertStep_writtenFunType _ l r Hl Hr Ht) in H.
  unfold parseFunType. rewrite <- H. reflexivity.
Qed.

Lemma written_function_type_is_parsed_witness :
  convertLuaTypeToTS (writtenFunType [("unit", "game_object")] "boolean")
  = parseFunType (writtenFunType [("unit", "game_object")] "boolean").
Proof.
  apply written_function_type_is_parsed; [repeat constructor | reflexivity ..].
Defined.

Section DirectiveFacts.

Lemma allWord_last_not_space a name :
  allWord name = true -> truthy name = true ->
  exists c, lastChar (a ++ name) = Some c /\ isSpace c = false.
Proof.
  intros Hw Ht. rewrite (lastChar_app a name Ht).
  destruct (lastChar name) as [c|] eqn:E.
  - exists c. split; [reflexivity|]. apply word_not_space.
    now apply (allWord_lastChar name).
  - destruct name as [|d name]; [discriminate Ht|]. exfalso.
    clear - E. revert d E. induction name as [|e name IH]; intros d E;
      [discriminate E|]. now apply (IH e).
Qed.

(** The doc marker with one space after it is cut off a line. *)
Lemma docMarker_removed r :
  headFails isSpace r = true ->
  replaceFirst re_docMarker [] ("--- " ++ r) = r.
Proof.
  intros Hr. unfold replaceFirst, re_docMarker. cbn [seq].
  rewrite exec_anchored, run_Seq, run_Lit. cbn [append stripPrefix Ascii.eqb Bool.eqb].
  unfold star, ws.
  change (String " " r) with (" " ++ r).
  rewrite (run_Star_backtrack isSpace _ " " r _ _ eq_refl Hr).
  cbn [backtrack String.length Nat.add]. cbn [f_index f_end take drop expand append].
  reflexivity.
Qed.

Lemma class_directive_match name t :
  allWord name = true -> truthy name = true -> headFails isWord t = true ->
  exec re_class ("@class " ++ name ++ t)
  = Some (mkFound 0 (7 + slen name) [(1, (7, 7 + slen name))]).
Proof.
  intros Hw Ht Hh. unfold re_class. cbn [seq].
  rewrite exec_anchored, run_Seq, run_Lit.
  cbn [append stripPrefix Ascii.eqb Bool.eqb String.length Nat.add].
  rewrite run_Seq. destruct name as [|d n]; [discriminate Ht|].
  cbn [allWord] in Hw. apply andb_prop in Hw as [Hd Hn].
  unfold ws. cbn [append].
  change (String " " (String d (n ++ t)))
    with (String " " ("" ++ String d (n ++ t))).
  rewrite (run_plus_backtrack isSpace _ " " "" _ _ _ eq_refl eq_refl
             (headFails_space_word d _ Hd)).
  cbn [backtrack]. rewrite run_Group. unfold word.
  rewrite allWord_allChars in Hn.
  rewrite (run_plus_backtrack isWord _ d n t _ _ Hd Hn Hh).
  rewrite (backtrack_end _ n t (8 + slen n, [(1, (7, 8 + slen n))]));
    [|reflexivity].
  cbn [String.length]. repeat f_equal; lia.
Qed.

Lemma step_class_directive st name tail :
  allWord name = true -> truthy name = true -> headFails isWord tail = true ->
  step st ("--- @class " ++ name ++ tail)
  = mkState (ensureClass name (classes st)) (aliases st) (Some name)
            (currentDescription st) (detectedMainExport st) (pendingParams st)
            (pendingReturn st).
Proof.
  intros Hw Ht Hh.
  assert (Htrim : trim ("--- @class " ++ name ++ tail)
                  = "--- @class " ++ name ++ trimEnd tail).
  { change ("--- @class " ++ name ++ tail)
      with (String "-" ("-- @class " ++ name ++ tail)).
    rewrite (trim_head "-" _ eq_refl).
    destruct (allWord_last_not_space "-- @class " name Hw Ht) as [c [Hl Hc]].
    rewrite <- append_assoc, (trimEnd_app_last _ tail c Hl Hc), append_assoc.
    reflexivity. }
  pose proof (headFails_trimEnd isWord tail Hh) as Hh'.
  set (t := trimEnd tail) in *.
  unfold step. cbv zeta. rewrite Htrim.
  destruct (dash_not_declaration ("-- @class " ++ name ++ t)) as (H1 & H2 & H3).
  change ("-" ++ "-- @class " ++ name ++ t) with ("--- @class " ++ name ++ t) in *.
  rewrite H1, H2, H3.
  change (startsWith "---" ("--- @class " ++ name ++ t)) with true. cbn [negb].
  change ("--- @class " ++ name ++ t) with ("--- " ++ "@class " ++ name ++ t).
  rewrite (docMarker_removed ("@class " ++ name ++ t) eq_refl).
  unfold stepDoc. destruct (class_not_other (" " ++ name ++ t)) as [E1 E2].
  change ("@class" ++ " " ++ name ++ t) with ("@class " ++ name ++ t) in *.
  rewrite E1, E2, (class_directive_match name t Hw Ht Hh').
  cbv zeta. unfold group. cbn [f_caps lookup Nat.eqb].
  assert (Hg : slice 7 (7 + slen name) ("@class " ++ name ++ t) = name).
  { unfold slice. cbn [append drop].
    replace (7 + slen name - 7) with (slen name) by lia. apply take_app. }
  rewrite Hg. reflexivity.
Qed.

End DirectiveFacts.

(** X26: a [@class] directive opens its class: after the line
    [--- @class name], with anything after the name that does not begin
    with a word character, the class [name] is the current class and is in
    the map, new and empty if it was not there, untouched if it was. *)
Theorem class_directive_opens_class st name tail :
  allWord name = true -> truthy name = true -> headFails isWord tail = true ->
  let st' := step st ("--- @class " ++ name ++ tail) in
  currentClass st' = Some name /\
  mapGet name (classes st')
  = match mapGet name (classes st) with
    | Some c => Some c
    | None => Some (emptyClass name)
    end /\
  forall k, k <> name -> mapGet k (classes st') = mapGet k (classes st).
Proof.
  intros Hw Ht Hh. cbv zeta. rewrite (step_class_directive st name tail Hw Ht Hh).
  cbn [currentClass classes]. split; [reflexivity|].
  unfold ensureClass, mapHas.
  destruct (mapGet name (classes st)) as [c|] eqn:E.
  - split; [exact E | reflexivity].
  - split.
    + clear - E. induction (classes st) as [|[k0 c0] m IH]; cbn [mapSet mapGet] in *.
      * now rewrite String.eqb_refl.
      * destruct (String.eqb k0 name) eqn:Ek; [discriminate E|].
        cbn [mapGet]. rewrite Ek. now apply IH.
    + intros k Hk. clear - Hk. induction (classes st) as [|[k0 c0] m IH];
        cbn [mapSet mapGet].
      * destruct (String.eqb_spec name k); [congruence | reflexivity].
      * destruct (String.eqb_spec k0 name) as [->|Hn]; cbn [mapGet].
        -- destruct (String.eqb_spec name k); [congruence | reflexivity].
        -- destruct (String.eqb k0 k); [reflexivity | exact IH].
Qed.

Lemma class_directive_opens_class_witness :
  let st' := step initialState ("--- @class " ++ "izi_api" ++ " : base") in
  currentClass st' = Some "izi_api" /\
  mapGet "izi_api" (classes st')
  = match mapGet "izi_api" (classes initialState) with
    | Some c => Some c
    | None => Some (emptyClass "izi_api")
    end /\
  forall k, k <> "izi_api" -> mapGet k (classes st') = mapGet k (classes initialState).
Proof.
  apply (class_directive_opens_class initialState "izi_api" " : base");
    reflexivity.
Defined.

Section AliasDirective.

Lemma alias_not_type r : exec re_type ("@alias" ++ r) = None.
Proof.
  unfold re_type. cbn [seq]. rewrite exec_anchored. lazy. reflexivity.
Qed.

(** The end of [re_alias], from the white space in front of the body
    on. *)
Lemma alias_body_match body i cs :
  headFails isSpace body = true -> truthy body = true ->
  allChars isDot body = true ->
  run (Seq (plus ws) (Seq (Group 2 (plus dot)) Eol)) i (String " " body) cs
      (fun e _ cs => Some (e, cs))
  = Some (S i + slen body, (2, (S i, S i + slen body)) :: cs).
Proof.
  intros Hh Ht Hd. rewrite run_Seq. unfold ws.
  change (String " " body) with (String " " ("" ++ body)).
  rewrite (run_plus_backtrack isSpace _ " " "" body _ _ eq_refl eq_refl Hh).
  cbn [backtrack]. rewrite run_Seq, run_Group. unfold dot.
  destruct body as [|e b]; [discriminate Ht|].
  cbn [allChars] in Hd. apply andb_prop in Hd as [He Hb].
  rewrite <- (append_empty b) at 1.
  rewrite (run_plus_backtrack isDot _ e b "" _ _ He Hb eq_refl).
  rewrite (backtrack_end _ b ""
             (S (S i) + slen b, (2, (S i, S (S i) + slen b)) :: cs));
    [|reflexivity].
  cbn [String.length].
  replace (S (S i) + slen b) with (S i + S (slen b)) by lia. reflexivity.
Qed.

Lemma alias_directive_match name body :
  allWord name = true -> truthy name = true ->
  headFails isSpace body = true -> truthy body = true ->
  allChars isDot body = true ->
  exec re_alias ("@alias " ++ name ++ " " ++ body)
  = Some (mkFound 0 (8 + slen name + slen body)
            [(2, (8 + slen name, 8 + slen name + slen body));
             (1, (7, 7 + slen name))]).
Proof.
  intros Hw Ht Hh Htb Hd. unfold re_alias. cbn [seq].
  rewrite exec_anchored, run_Seq, run_Lit.
  cbn [append stripPrefix Ascii.eqb Bool.eqb String.length Nat.add].
  rewrite run_Seq. destruct name as [|d n]; [discriminate Ht|].
  cbn [allWord] in Hw. apply andb_prop in Hw as [Hd' Hn].
  unfold ws at 1. cbn [append].
  change (String " " (String d (n ++ String " " body)))
    with (String " " ("" ++ String d (n ++ String " " body))).
  rewrite (run_plus_backtrack isSpace _ " " "" _ _ _ eq_refl eq_refl
             (headFails_space_word d _ Hd')).
  cbn [backtrack]. rewrite run_Seq, run_Group. unfold word.
  rewrite allWord_allChars in Hn.
  rewrite (run_plus_backtrack isWord _ d n (String " " body) _ _ Hd' Hn eq_refl).
  rewrite (backtrack_end _ n (String " " body)
             (S (8 + slen n) + slen body,
              [(2, (S (8 + slen n), S (8 + slen n) + slen body));
               (1, (7, 8 + slen n))])).
  - cbn [String.length].
    replace (S (8 + slen n) + slen body) with (8 + S (slen n) + slen body) by lia.
    replace (S (8 + slen n)) with (8 + S (slen n)) by lia.
    replace (8 + slen n) with (7 + S (slen n)) by lia. reflexivity.
  - now rewrite (alias_body_match body _ _ Hh Htb Hd).
Qed.

Lemma step_alias_directive st name body :
  allWord name = true -> truthy name = true ->
  trim body = body -> truthy body = true -> allChars isDot body = true ->
  step st ("--- @alias " ++ name ++ " " ++ body)
  = mkState (classes st) (mapSet name (mkAlias name body) (aliases st))
            (currentClass st) (currentDescription st) (detectedMainExport st)
            (pendingParams st) (pendingReturn st).
Proof.
  intros Hw Ht Hb Htb Hd. destruct (trimmed_spec body Hb Htb) as [Hh He].
  assert (Htrim : trim ("--- @alias " ++ name ++ " " ++ body)
                  = "--- @alias " ++ name ++ " " ++ body).
  { change ("--- @alias " ++ name ++ " " ++ body)
      with (String "-" ("-- @alias " ++ name ++ " " ++ body)).
    rewrite (trim_head "-" _ eq_refl). f_equal.
    rewrite <- !append_assoc. now apply trimEnd_app_fixed. }
  unfold step. cbv zeta. rewrite Htrim.
  destruct (dash_not_declaration ("-- @alias " ++ name ++ " " ++ body))
    as (H1 & H2 & H3).
  change ("-" ++ "-- @alias " ++ name ++ " " ++ body)
    with ("--- @alias " ++ name ++ " " ++ body) in *.
  rewrite H1, H2, H3.
  change (startsWith "---" ("--- @alias " ++ name ++ " " ++ body)) with true.
  cbn [negb].
  change ("--- @alias " ++ name ++ " " ++ body)
    with ("--- " ++ "@alias " ++ name ++ " " ++ body).
  rewrite (docMarker_removed ("@alias " ++ name ++ " " ++ body) eq_refl).
  unfold stepDoc.
  pose proof (alias_not_type (" " ++ name ++ " " ++ body)) as E1.
  change ("@alias" ++ " " ++ name ++ " " ++ body)
    with ("@alias " ++ name ++ " " ++ body) in E1.
  rewrite E1, (alias_directive_match name body Hw Ht Hh Htb Hd).
  cbv zeta. unfold group. cbn [f_caps lookup Nat.eqb].
  assert (Hg1 : slice 7 (7 + slen name) ("@alias " ++ name ++ " " ++ body) = name).
  { unfold slice. cbn [append drop].
    replace (7 + slen name - 7) with (slen name) by lia. apply take_app. }
  assert (Hg2 : slice (8 + slen name) (8 + slen name + slen body)
                  ("@alias " ++ name ++ " " ++ body) = body).
  { unfold slice.
    replace (8 + slen name + slen body - (8 + slen name)) with (slen body) by lia.
    replace (8 + slen name) with (7 + (slen name + 1)) by lia.
    rewrite <- drop_drop. cbn [append drop].
    rewrite <- drop_drop, drop_app. cbn [append drop].
    rewrite <- (append_empty body) at 2. apply take_app. }
  rewrite Hg1, Hg2, Hb. reflexivity.
Qed.

End AliasDirective.

(** X27: an [@alias] directive records its alias: after the line
    [--- @alias name body], for a trimmed body on one line, the alias
    [name] stands for [body]; an earlier alias of that name is replaced,
    and nothing else of the state changes. *)
Theorem alias_directive_records_alias st name body :
  allWord name = true -> truthy name = true ->
  trim body = body -> truthy body = true -> allChars isDot body = true ->
  let st' := step st ("--- @alias " ++ name ++ " " ++ body) in
  mapGet name (aliases st') = Some (mkAlias name body) /\
  (forall k, k <> name -> mapGet k (aliases st') = mapGet k (aliases st)) /\
  classes st' = classes st /\ currentClass st' = currentClass st.
Proof.
  intros Hw Ht Hb Htb Hd. cbv zeta.
  rewrite (step_alias_directive st name body Hw Ht Hb Htb Hd).
  cbn [aliases classes currentClass]. repeat split.
  - induction (aliases st) as [|[k0 a0] m IH]; cbn [mapSet mapGet].
    + now rewrite String.eqb_refl.
    + destruct (String.eqb_spec k0 name) as [->|Hn]; cbn [mapGet].
      * now rewrite String.eqb_refl.
      * destruct (String.eqb_spec k0 name); [contradiction | exact IH].
  - intros k Hk. induction (aliases st) as [|[k0 a0] m IH]; cbn [mapSet mapGet].
    + destruct (String.eqb_spec name k); [congruence | reflexivity].
    + destruct (String.eqb_spec k0 name) as [->|Hn]; cbn [mapGet].
      * destruct (String.eqb_spec name k); [congruence | reflexivity].
      * destruct (String.eqb k0 k); [reflexivity | exact IH].
Qed.

Lemma alias_directive_records_alias_witness :
  let st' := step initialState ("--- @alias " ++ "buff_id" ++ " " ++ "integer | string") in
  mapGet "buff_id" (aliases st') = Some (mkAlias "buff_id" "integer | string") /\
  (forall k, k <> "buff_id" ->
     mapGet k (aliases st') = mapGet k (aliases initialState)) /\
  classes st' = classes initialState /\
  currentClass st' = currentClass initialState.
Proof.
  apply (alias_directive_records_alias initialState "buff_id" "integer | string");
    reflexivity.
Defined.

Section FunctionLines.

Lemma method_tail_match m ps i cs :
  allWord m = true -> truthy m = true -> hasChar ")" ps = false ->
  run re_methodTail i (m ++ "(" ++ ps ++ ")") cs (fun e _ cs => Some (e, cs))
  = Some (i + slen m + slen ps + 2,
          (3, (i + slen m + 1, i + slen m + 1 + slen ps)) ::
          (2, (i, i + slen m)) :: cs).
Proof.
  intros Hw Ht Hp. unfold re_methodTail. cbn [seq].
  destruct m as [|d n]; [discriminate Ht|].
  cbn [allWord] in Hw. apply andb_prop in Hw as [Hd Hn].
  rewrite allWord_allChars in Hn.
  rewrite run_Seq, run_Group. unfold word. cbn [append].
  rewrite (run_plus_backtrack isWord _ d n ("(" ++ ps ++ ")") _ _ Hd Hn eq_refl).
  assert (Hps : allChars (fun c => negb (hasChar c ")")) ps = true).
  { clear - Hp. induction ps as [|c ps IH]; [reflexivity|].
    cbn [hasChar] in Hp. apply orb_false_iff in Hp as [Hc Hp].
    cbn [allChars]. rewrite (IH Hp), andb_true_r. cbn [hasChar].
    rewrite Ascii.eqb_sym in Hc. now rewrite Hc. }
  rewrite (backtrack_end _ n ("(" ++ ps ++ ")")
             (S i + slen n + 1 + slen ps + 1,
              (3, (S i + slen n + 1, S i + slen n + 1 + slen ps)) ::
              (2, (i, S i + slen n)) :: cs)).
  - cbn [String.length].
    replace (S i + slen n) with (i + S (slen n)) by lia.
    replace (i + S (slen n) + 1 + slen ps + 1) with (i + S (slen n) + slen ps + 2)
      by lia.
    reflexivity.
  - rewrite run_Seq. unfold star, ws.
    change ("(" ++ ps ++ ")") with ("" ++ String "(" (ps ++ ")")).
    rewrite (run_Star_backtrack isSpace _ "" (String "(" (ps ++ ")")) _ _
               eq_refl eq_refl).
    cbn [backtrack]. rewrite run_Seq, run_Lit.
    cbn [stripPrefix Ascii.eqb Bool.eqb String.length].
    rewrite run_Seq, run_Group. unfold noneOf.
    rewrite (run_Star_backtrack _ _ ps ")" _ _ Hps eq_refl).
    rewrite (backtrack_end _ ps ")"
               (S i + slen n + 1 + slen ps + 1,
                (3, (S i + slen n + 1, S i + slen n + 1 + slen ps)) ::
                (2, (i, S i + slen n)) :: cs)); reflexivity.
Qed.

Lemma stripPrefix_char_none c d z : forall n j,
  hasChar c n = false -> c <> d -> j <= slen n ->
  stripPrefix (String c "") (drop j (n ++ String d z)) = None.
Proof.
  induction n as [|e n IH]; intros j Hn Hd Hj.
  - cbn [String.length] in Hj. replace j with 0 by lia.
    cbn [append drop stripPrefix].
    destruct (Ascii.eqb_spec c d); [contradiction | reflexivity].
  - cbn [hasChar] in Hn. apply orb_false_iff in Hn as [He Hn].
    destruct j as [|j].
    + cbn [append drop stripPrefix]. now rewrite He.
    + cbn [append drop]. apply IH; auto. cbn [String.length] in Hj. lia.
Qed.

Lemma allWord_wordOrDot s : allWord s = true -> allChars isWordOrDot s = true.
Proof.
  induction s as [|c s IH]; [reflexivity|]. cbn [allWord allChars].
  intros H. apply andb_prop in H as [Hc Hs]. unfold isWordOrDot at 1.
  now rewrite Hc, (IH Hs).
Qed.

(** The dot pattern does not match a colon line. *)
Lemma funcDecl_not_colon C z :
  allWord C = true -> truthy C = true ->
  exec re_funcDecl ("function " ++ C ++ ":" ++ z) = None.
Proof.
  intros Hw Ht. unfold re_funcDecl. cbn [seq].
  rewrite exec_anchored, run_Seq, run_Lit.
  cbn [append stripPrefix Ascii.eqb Bool.eqb String.length Nat.add].
  rewrite run_Seq. destruct C as [|d n]; [discriminate Ht|].
  cbn [allWord] in Hw. apply andb_prop in Hw as [Hd Hn].
  unfold ws. cbn [append].
  change (String " " (String d (n ++ String ":" z)))
    with (String " " ("" ++ String d (n ++ String ":" z))).
  rewrite (run_plus_backtrack isSpace _ " " "" _ _ _ eq_refl eq_refl
             (headFails_space_word d _ Hd)).
  cbn [backtrack]. rewrite run_Seq, run_Group.
  assert (Hd' : isWordOrDot d = true) by (unfold isWordOrDot; now rewrite Hd).
  rewrite (run_plus_backtrack isWordOrDot _ d n (String ":" z) _ _ Hd'
             (allWord_wordOrDot n Hn) eq_refl).
  rewrite backtrack_none; [reflexivity|].
  intros j Hj. rewrite run_Seq, run_Lit.
  rewrite (stripPrefix_char_none "." ":" z n j); auto; [|discriminate].
  now apply allWord_hasChar.
Qed.

Lemma funcColon_match C m ps :
  allWord C = true -> truthy C = true ->
  allWord m = true -> truthy m = true -> hasChar ")" ps = false ->
  exec re_funcColon ("function " ++ C ++ ":" ++ m ++ "(" ++ ps ++ ")")
  = Some (mkFound 0
            (9 + slen C + 1 + slen m + slen ps + 2)
            [(3, (9 + slen C + 1 + slen m + 1,
                  9 + slen C + 1 + slen m + 1 + slen ps));
             (2, (9 + slen C + 1, 9 + slen C + 1 + slen m));
             (1, (9, 9 + slen C))]).
Proof.
  intros Hw Ht Hm Htm Hp. unfold re_funcColon. cbn [seq].
  rewrite exec_anchored, run_Seq, run_Lit.
  cbn [append stripPrefix Ascii.eqb Bool.eqb String.length Nat.add].
  rewrite run_Seq. destruct C as [|d n]; [discriminate Ht|].
  cbn [allWord] in Hw. apply andb_prop in Hw as [Hd Hn].
  rewrite allWord_allChars in Hn.
  unfold ws at 1. cbn [append].
  change (String " " (String d (n ++ String ":" (m ++ String "(" (ps ++ ")")))))
    with (String " " ("" ++ String d (n ++ String ":" (m ++ String "(" (ps ++ ")"))))).
  rewrite (run_plus_backtrack isSpace _ " " "" _ _ _ eq_refl eq_refl
             (headFails_space_word d _ Hd)).
  cbn [backtrack]. rewrite run_Seq, run_Group. unfold word at 1.
  rewrite (run_plus_backtrack isWord _ d n
             (String ":" (m ++ String "(" (ps ++ ")"))) _ _ Hd Hn eq_refl).
  rewrite (backtrack_end _ n (String ":" (m ++ String "(" (ps ++ ")")))
             (10 + slen n + 1 + slen m + slen ps + 2,
              [(3, (10 + slen n + 1 + slen m + 1,
                    10 + slen n + 1 + slen m + 1 + slen ps));
               (2, (10 + slen n + 1, 10 + slen n + 1 + slen m));
               (1, (9, 10 + slen n))])).
  - cbn [String.length].
    replace (10 + slen n) with (9 + S (slen n)) by lia. reflexivity.
  - rewrite run_Seq, run_Lit. cbn [stripPrefix Ascii.eqb Bool.eqb String.length].
    change (String "(" (ps ++ ")")) with ("(" ++ ps ++ ")").
    fold re_methodTail.
    change (seq [Group 2 (plus word); star ws; Lit "("; Group 3 (star (noneOf ")")); Lit ")"])
      with re_methodTail.
    now rewrite (method_tail_match m ps _ _ Hm Htm Hp).
Qed.

Lemma allChars_app p a b : allChars p (a ++ b) = allChars p a && allChars p b.
Proof.
  induction a as [|c a IH]; cbn [append allChars]; [reflexivity|].
  now rewrite IH, andb_assoc.
Qed.

Lemma funcDecl_match C m ps :
  allWord C = true -> truthy C = true ->
  allWord m = true -> truthy m = true -> hasChar ")" ps = false ->
  exec re_funcDecl ("function " ++ C ++ "." ++ m ++ "(" ++ ps ++ ")")
  = Some (mkFound 0
            (9 + slen C + 1 + slen m + slen ps + 2)
            [(3, (9 + slen C + 1 + slen m + 1,
                  9 + slen C + 1 + slen m + 1 + slen ps));
             (2, (9 + slen C + 1, 9 + slen C + 1 + slen m));
             (1, (9, 9 + slen C))]).
Proof.
  intros Hw Ht Hm Htm Hp. unfold re_funcDecl. cbn [seq].
  rewrite exec_anchored, run_Seq, run_Lit.
  cbn [append stripPrefix Ascii.eqb Bool.eqb String.length Nat.add].
  rewrite run_Seq. destruct C as [|d n]; [discriminate Ht|].
  cbn [allWord] in Hw. apply andb_prop in Hw as [Hd Hn].
  unfold ws at 1. cbn [append].
  change (String " " (String d (n ++ String "." (m ++ String "(" (ps ++ ")")))))
    with (String " " ("" ++ String d (n ++ String "." (m ++ String "(" (ps ++ ")"))))).
  rewrite (run_plus_backtrack isSpace _ " " "" _ _ _ eq_refl eq_refl
             (headFails_space_word d _ Hd)).
  cbn [backtrack]. rewrite run_Seq, run_Group.
  assert (Hd' : isWordOrDot d = true) by (unfold isWordOrDot; now rewrite Hd).
  assert (Hre : n ++ String "." (m ++ String "(" (ps ++ ")"))
                = (n ++ String "." m) ++ String "(" (ps ++ ")")).
  { now rewrite append_assoc. }
  rewrite Hre.
  assert (Hall : allChars isWordOrDot (n ++ String "." m) = true).
  { rewrite allChars_app, (allWord_wordOrDot n Hn). cbn [allChars andb].
    change (isWordOrDot ".") with true. now apply allWord_wordOrDot. }
  rewrite (run_plus_backtrack isWordOrDot _ d (n ++ String "." m)
             (String "(" (ps ++ ")")) _ _ Hd' Hall eq_refl).
  rewrite (backtrack_at _ (String "(" (ps ++ ")")) _
             (10 + slen n + 1 + slen m + slen ps + 2,
              [(3, (10 + slen n + 1 + slen m + 1,
                    10 + slen n + 1 + slen m + 1 + slen ps));
               (2, (10 + slen n + 1, 10 + slen n + 1 + slen m));
               (1, (9, 10 + slen n))])
             (String "." m) n).
  - cbn [String.length].
    replace (10 + slen n) with (9 + S (slen n)) by lia. reflexivity.
  - rewrite run_Seq, run_Lit. cbn [append stripPrefix Ascii.eqb Bool.eqb String.length].
    change (String "(" (ps ++ ")")) with ("(" ++ ps ++ ")").
    change (seq [Group 2 (plus word); star ws; Lit "("; Group 3 (star (noneOf ")")); Lit ")"])
      with re_methodTail.
    now rewrite (method_tail_match m ps _ _ Hm Htm Hp).
  - intros j Hj1 Hj2. rewrite run_Seq, run_Lit.
    destruct j as [|j]; [lia|]. cbn [append drop String.length] in *.
    rewrite (stripPrefix_char_none "." "(" (ps ++ ")") m j); auto;
      [now apply allWord_hasChar | discriminate | lia].
Qed.

Lemma split_no_sep sep : forall s, hasChar sep s = false -> split sep s = [s].
Proof.
  induction s as [|c s IH]; [reflexivity|]. cbn [hasChar split]. intros H.
  apply orb_false_iff in H as [Hc Hs]. rewrite Ascii.eqb_sym in Hc.
  now rewrite Hc, (IH Hs).
Qed.

Lemma function_line_trimmed x :
  trim ("function " ++ x ++ ")") = "function " ++ x ++ ")".
Proof.
  change ("function " ++ x ++ ")") with (String "f" ("unction " ++ x ++ ")")).
  rewrite (trim_head "f" _ eq_refl). f_equal.
  rewrite <- append_assoc. now apply trimEnd_last.
Qed.

Lemma step_colon_line st C m ps :
  allWord C = true -> truthy C = true ->
  allWord m = true -> truthy m = true -> hasChar ")" ps = false ->
  step st ("function " ++ C ++ ":" ++ m ++ "(" ++ ps ++ ")")
  = attachMethod st C m
      ("fun(self: " ++ C ++
       (if 0 <? List.length (paramTypesOf (pendingParams st) ps)
        then ", " ++ join ", " (paramTypesOf (pendingParams st) ps) else "") ++
       "): " ++ returnTypeOf (pendingReturn st)).
Proof.
  intros Hw Ht Hm Htm Hp.
  assert (Htrim : trim ("function " ++ C ++ ":" ++ m ++ "(" ++ ps ++ ")")
                  = "function " ++ C ++ ":" ++ m ++ "(" ++ ps ++ ")").
  { pose proof (function_line_trimmed (C ++ ":" ++ m ++ "(" ++ ps)) as H.
    now rewrite !append_assoc in H. }
  unfold step. cbv zeta. rewrite Htrim.
  rewrite (funcDecl_not_colon C (m ++ "(" ++ ps ++ ")") Hw Ht).
  rewrite (funcColon_match C m ps Hw Ht Hm Htm Hp).
  unfold declareColon. cbv zeta. unfold group. cbn [f_caps lookup Nat.eqb].
  set (line := "function " ++ C ++ ":" ++ m ++ "(" ++ ps ++ ")").
  assert (H1 : slice 9 (9 + slen C) line = C).
  { unfold slice, line. cbn [append drop].
    replace (9 + slen C - 9) with (slen C) by lia. apply take_app. }
  assert (H2 : slice (9 + slen C + 1) (9 + slen C + 1 + slen m) line = m).
  { unfold slice, line.
    replace (9 + slen C + 1 + slen m - (9 + slen C + 1)) with (slen m) by lia.
    replace (9 + slen C + 1) with (9 + (slen C + 1)) by lia.
    cbn [append drop Nat.add]. rewrite drop_app_plus.
    cbn [append drop]. apply take_app. }
  assert (H3 : slice (9 + slen C + 1 + slen m + 1)
                 (9 + slen C + 1 + slen m + 1 + slen ps) line = ps).
  { unfold slice, line.
    replace (9 + slen C + 1 + slen m + 1 + slen ps - (9 + slen C + 1 + slen m + 1))
      with (slen ps) by lia.
    replace (9 + slen C + 1 + slen m + 1)
      with (9 + (slen C + (1 + (slen m + 1)))) by lia.
    cbn [append drop Nat.add]. rewrite drop_app_plus.
    cbn [append drop Nat.add]. rewrite drop_app_plus.
    cbn [append drop]. apply take_app. }
  rewrite H1, H2, H3. reflexivity.
Qed.

Lemma step_dot_line st C m ps :
  allWord C = true -> truthy C = true ->
  allWord m = true -> truthy m = true -> hasChar ")" ps = false ->
  step st ("function " ++ C ++ "." ++ m ++ "(" ++ ps ++ ")")
  = attachMethod st C m
      ("fun(" ++ join ", " (paramTypesOf (pendingParams st) ps) ++ "): " ++
       returnTypeOf (pendingReturn st)).
Proof.
  intros Hw Ht Hm Htm Hp.
  assert (Htrim : trim ("function " ++ C ++ "." ++ m ++ "(" ++ ps ++ ")")
                  = "function " ++ C ++ "." ++ m ++ "(" ++ ps ++ ")").
  { pose proof (function_line_trimmed (C ++ "." ++ m ++ "(" ++ ps)) as H.
    now rewrite !append_assoc in H. }
  unfold step. cbv zeta. rewrite Htrim.
  rewrite (funcDecl_match C m ps Hw Ht Hm Htm Hp).
  unfold declareDot. cbv zeta. unfold group. cbn [f_caps lookup Nat.eqb].
  set (line := "function " ++ C ++ "." ++ m ++ "(" ++ ps ++ ")").
  assert (H1 : slice 9 (9 + slen C) line = C).
  { unfold slice, line. cbn [append drop].
    replace (9 + slen C - 9) with (slen C) by lia. apply take_app. }
  assert (H2 : slice (9 + slen C + 1) (9 + slen C + 1 + slen m) line = m).
  { unfold slice, line.
    replace (9 + slen C + 1 + slen m - (9 + slen C + 1)) with (slen m) by lia.
    replace (9 + slen C + 1) with (9 + (slen C + 1)) by lia.
    cbn [append drop Nat.add]. rewrite drop_app_plus.
    cbn [append drop]. apply take_app. }
  assert (H3 : slice (9 + slen C + 1 + slen m + 1)
                 (9 + slen C + 1 + slen m + 1 + slen ps) line = ps).
  { unfold slice, line.
    replace (9 + slen C + 1 + slen m + 1 + slen ps - (9 + slen C + 1 + slen m + 1))
      with (slen ps) by lia.
    replace (9 + slen C + 1 + slen m + 1)
      with (9 + (slen C + (1 + (slen m + 1)))) by lia.
    cbn [append drop Nat.add]. rewrite drop_app_plus.
    cbn [append drop Nat.add]. rewrite drop_app_plus.
    cbn [append drop]. apply take_app. }
  rewrite H1, H2, H3.
  rewrite (split_no_sep "." C (allWord_hasChar "." C Hw eq_refl)).
  reflexivity.
Qed.

End FunctionLines.

Section MethodEffect.

Lemma mapGet_ensureClass_same n cs :
  mapGet n (ensureClass n cs)
  = Some (match mapGet n cs with Some c => c | None => emptyClass n end).
Proof.
  unfold ensureClass, mapHas. destruct (mapGet n cs) as [c|] eqn:E; [exact E|].
  induction cs as [|[k0 c0] cs IH]; cbn [mapSet mapGet] in *.
  - now rewrite String.eqb_refl.
  - destruct (String.eqb k0 n) eqn:Ek; [discriminate E|].
    cbn [mapGet]. rewrite Ek. now apply IH.
Qed.

Lemma mapGet_ensureClass_other n k cs :
  k <> n -> mapGet k (ensureClass n cs) = mapGet k cs.
Proof.
  intros Hk. unfold ensureClass. destruct (mapHas n cs); [reflexivity|].
  induction cs as [|[k0 c0] cs IH]; cbn [mapSet mapGet].
  - destruct (String.eqb_spec n k); [congruence | reflexivity].
  - destruct (String.eqb_spec k0 n) as [->|Hn]; cbn [mapGet].
    + destruct (String.eqb_spec n k); [congruence | reflexivity].
    + destruct (String.eqb k0 k); [reflexivity | exact IH].
Qed.

(** What pushing a method does to the state, read by class name. *)
Lemma attachMethod_effect st C m funType :
  let method := mkField m funType (descriptionOf (currentDescription st)) true in
  let before :=
    match mapGet C (classes st) with Some c => c | None => emptyClass C end in
  let st' := attachMethod st C m funType in
  mapGet C (classes st')
  = Some (mkClass (c_name before) (fields before ++ [method]) (dataFields before)
                  (indexSignatures before)) /\
  (forall k, k <> C -> mapGet k (classes st') = mapGet k (classes st)) /\
  pendingParams st' = [] /\ pendingReturn st' = None /\
  currentDescription st' = [] /\
  aliases st' = aliases st /\ currentClass st' = currentClass st /\
  detectedMainExport st' = detectedMainExport st.
Proof.
  cbv zeta. unfold attachMethod. cbv zeta.
  cbn [classes pendingParams pendingReturn currentDescription aliases currentClass
       detectedMainExport].
  split; [|split; [|repeat split]].
  - rewrite mapGet_updateClass, String.eqb_refl, mapGet_ensureClass_same.
    reflexivity.
  - intros k Hk. rewrite mapGet_updateClass.
    destruct (String.eqb_spec C k) as [->|_]; [congruence|].
    now apply mapGet_ensureClass_other.
Qed.

End MethodEffect.

(** X28: a [function] line declares a method of its class: for a class
    name and a method name of word characters and a parameter text
    without a closing parenthesis, after [function C.m(ps)] or
    [function C:m(ps)] the class [C], empty if it was not there, has one
    more method at the end of its list: [m], with the description
    collected so far and a function type that gives each parameter name
    of [ps] its pending [@param] type, or [any], and returns the pending
    [@return] type, or [void]; the colon form puts the receiver
    [self: C] in front.  The other classes, the aliases and the current
    class stay; the pending annotations and the description are
    cleared. *)
Theorem function_line_declares_method st C m ps (colon : bool) :
  allWord C = true -> truthy C = true ->
  allWord m = true -> truthy m = true -> hasChar ")" ps = false ->
  let paramTypes :=
    map (fun paramName =>
           match find (fun p => String.eqb (pp_name p) paramName) (pendingParams st) with
           | Some paramInfo =>
               paramName ++ (if pp_optional paramInfo then "?" else "") ++ ": " ++
               pp_type paramInfo
           | None => paramName ++ ": any"
           end)
        (filter truthy (map trim (split ","%char ps))) in
  let returnType :=
    match pendingReturn st with
    | Some r => if truthy r then r else "void"
    | None => "void"
    end in
  let funType :=
    if colon
    then "fun(self: " ++ C ++
         (if 0 <? List.length paramTypes then ", " ++ join ", " paramTypes else "") ++
         "): " ++ returnType
    else "fun(" ++ join ", " paramTypes ++ "): " ++ returnType in
  let method := mkField m funType (descriptionOf (currentDescription st)) true in
  let before :=
    match mapGet C (classes st) with Some c => c | None => emptyClass C end in
  let st' :=
    step st ("function " ++ C ++ (if colon then ":" else ".") ++ m ++
             "(" ++ ps ++ ")") in
  mapGet C (classes st')
  = Some (mkClass (c_name before) (fields before ++ [method]) (dataFields before)
                  (indexSignatures before)) /\
  (forall k, k <> C -> mapGet k (classes st') = mapGet k (classes st)) /\
  pendingParams st' = [] /\ pendingReturn st' = None /\
  currentDescription st' = [] /\
  aliases st' = aliases st /\ currentClass st' = currentClass st /\
  detectedMainExport st' = detectedMainExport st.
Proof.
  intros Hw Ht Hm Htm Hp. cbv zeta. destruct colon.
  - rewrite (step_colon_line st C m ps Hw Ht Hm Htm Hp).
    exact (attachMethod_effect st C m _).
  - rewrite (step_dot_line st C m ps Hw Ht Hm Htm Hp).
    exact (attachMethod_effect st C m _).
Qed.

Lemma function_line_declares_method_witness :
  mapGet "core"
    (classes
       (step (mkState [] [] None ["Writes a line."] None
                      [mkPending "text" "string" false] (Some "boolean"))
             "function core:log(text, level)"))
  = Some (mkClass "core"
            [mkField "log" "fun(self: core, text: string, level: any): boolean"
                     (Some "Writes a line.") true]
            [] []).
Proof.
  exact (proj1 (function_line_declares_method
                  (mkState [] [] None ["Writes a line."] None
                           [mkPending "text" "string" false] (Some "boolean"))
                  "core" "log" "text, level" true
                  eq_refl eq_refl eq_refl eq_refl eq_refl)).
Defined.

Section PlainFunctionLines.






End PlainFunctionLines.



Section FieldDirective.









End FieldDirective.


